(** * Course JSON Exporter: the extraction engine and the request protocol

    A shallow embedding of [content.js] (text normalizers, record builders,
    document walker, payload assembler) and of [popup.js] (task projection,
    request orchestrator), with the properties of the specification stated
    and settled on it.

    Further parts of the code are embedded after these, with properties of
    their own: the message handler and the load guard of [content.js],
    the wait for a reloaded tab and the export flow of [popup.js] with its
    two ways of saving.

    Modelling conventions.
    - A JavaScript string is the list of its UTF-16 code units ([jsstring]).
    - A JavaScript number is NaN, an infinity, or the rational value of an
      IEEE 754 double ([jsnum]).  An operation computes the exact result
      and rounds it to the nearest double, a tie going to the even one, and
      to an infinity beyond the largest double ([round64]); [String(x)]
      writes the shortest decimal that reads back as [x], in exponent form
      from 1e21 on ([Number_toString]).  The sign of zero is not tracked.
    - [null] and [undefined] are [None].
    - The document is seen through the answers to the selector queries the
      code makes.
    - Built-ins of the host that have no counterpart here (URL resolution,
      the lower-case mapping outside ASCII) are the fields of the class
      [Host]. *)

From Stdlib Require Import Ascii String.
From Stdlib Require Import ZArith NArith QArith Qround Qreduction Qabs Qpower.
From Stdlib Require Import List Permutation Bool Lia Lqa.
Import ListNotations.

Local Open Scope list_scope.
Local Open Scope nat_scope.

Set Implicit Arguments.

(** ** Strings *)

Definition jsstring := list N.

Definition js (s : string) : jsstring :=
  List.map N_of_ascii (list_ascii_of_string s).

Definition jsstring_eq_dec (a b : jsstring) : {a = b} + {a <> b} :=
  list_eq_dec N.eq_dec a b.

Definition str_eqb (a b : jsstring) : bool :=
  if jsstring_eq_dec a b then true else false.

(** Truthiness of a string: only the empty string is falsy. *)
Definition truthy (s : jsstring) : bool :=
  match s with [] => false | _ :: _ => true end.

(** [value || ''] for a value that is a string, [null] or [undefined]. *)
Definition or_empty (value : option jsstring) : jsstring :=
  match value with
  | Some s => s
  | None => []
  end.

(** WhiteSpace and LineTerminator code points: what [\s], [trim] and the
    numeric conversion of a string treat as blank. *)
Definition is_ws (c : N) : bool :=
  ((9 <=? c) && (c <=? 13) || (c =? 32) || (c =? 160) || (c =? 5760)
   || (8192 <=? c) && (c <=? 8202) || (c =? 8232) || (c =? 8233)
   || (c =? 8239) || (c =? 8287) || (c =? 12288) || (c =? 65279))%N.

Definition is_digit (c : N) : bool := ((48 <=? c) && (c <=? 57))%N.

Definition is_upper (c : N) : bool := ((65 <=? c) && (c <=? 90))%N.

Definition is_lower (c : N) : bool := ((97 <=? c) && (c <=? 122))%N.

Definition is_alpha (c : N) : bool := is_upper c || is_lower c.

(** The word characters of [\b]: letters, digits and the underscore. *)
Definition is_word (c : N) : bool := is_alpha c || is_digit c || (c =? 95)%N.

Definition ZWSP : N := 8203.
Definition SPACE : N := 32.

(** [.replace(/\u200b/g, '')] *)
Definition strip_zwsp (s : jsstring) : jsstring :=
  filter (fun c => negb (c =? ZWSP)%N) s.

(** [.replace(/\s+/g, ' ')]: every maximal run of blanks becomes one space,
    written when the last blank of the run is reached. *)
Fixpoint collapse_ws (s : jsstring) : jsstring :=
  match s with
  | [] => []
  | c :: r =>
      if is_ws c then
        match r with
        | c' :: _ => if is_ws c' then collapse_ws r else SPACE :: collapse_ws r
        | [] => [SPACE]
        end
      else c :: collapse_ws r
  end.

Fixpoint drop_ws (s : jsstring) : jsstring :=
  match s with
  | [] => []
  | c :: r => if is_ws c then drop_ws r else s
  end.

(** [.trim()] *)
Definition trim (s : jsstring) : jsstring :=
  rev (drop_ws (rev (drop_ws s))).

(** [cleanText]: strips zero-width spaces, collapses blanks, trims. *)
Definition cleanText (value : option jsstring) : jsstring :=
  trim (collapse_ws (strip_zwsp (or_empty value))).

(** [s.split(sep)] for a one-character separator: never an empty array. *)
Fixpoint split_on (sep : N) (s : jsstring) : list jsstring :=
  match s with
  | [] => [[]]
  | c :: r =>
      if (c =? sep)%N then [] :: split_on sep r
      else match split_on sep r with
           | p :: ps => (c :: p) :: ps
           | [] => [[c]]
           end
  end.

(** [parts.join(sep)] *)
Fixpoint join (sep : jsstring) (parts : list jsstring) : jsstring :=
  match parts with
  | [] => []
  | [p] => p
  | p :: ps => p ++ sep ++ join sep ps
  end.

Fixpoint starts_with (p s : jsstring) : bool :=
  match p, s with
  | [], _ => true
  | a :: p', b :: s' => (a =? b)%N && starts_with p' s'
  | _ :: _, [] => false
  end.

(** [s.includes(p)] *)
Fixpoint includes (p s : jsstring) : bool :=
  starts_with p s ||
  match s with
  | [] => false
  | _ :: r => includes p r
  end.

(** [s.padStart(n, '0')] *)
Definition padStart0 (n : nat) (s : jsstring) : jsstring :=
  repeat 48%N (n - length s) ++ s.

(** ** Numbers *)

(** A number: [Fin q] is the double whose value is the rational [q]. *)
Inductive jsnum : Type :=
| NaN
| Inf (negative : bool)
| Fin (q : Q).

(** An integer literal or a counter of the code, for an integer that is a
    double. *)
Definition num_of_Z (z : Z) : jsnum := Fin (inject_Z z).

Definition Number_isNaN (x : jsnum) : bool :=
  match x with NaN => true | _ => false end.

Definition Number_isFinite (x : jsnum) : bool :=
  match x with Fin _ => true | _ => false end.

Definition Qis_zero (q : Q) : bool := (Qnum q =? 0)%Z.
Definition Qis_neg (q : Q) : bool := (Qnum q <? 0)%Z.

(** *** Rounding to a double *)

(** [2^k], for an exponent of either sign. *)
Definition pow2 (k : Z) : Q := Qpower 2 k.

(** The binary exponent of a positive rational: 2^e <= a < 2^(e+1). *)
Definition ilog2 (a : Q) : Z :=
  let e0 := (Z.log2 (Qnum a) - Z.log2 (Zpos (Qden a)))%Z in
  if Qle_bool (pow2 e0) a then e0 else (e0 - 1)%Z.

(** The nearest integer, a tie going to the even one. *)
Definition round_half_even (x : Q) : Z :=
  let f := Qfloor x in
  match (x - inject_Z f ?= 1 # 2)%Q with
  | Lt => f
  | Gt => (f + 1)%Z
  | Eq => if Z.even f then f else (f + 1)%Z
  end.

(** The magnitude of the double nearest to a positive rational: 53
    significant bits, the last of them worth 2^-1074 at least. *)
Definition round_magnitude (a : Q) : Q :=
  let k := (Z.max (ilog2 a) (-1022) - 52)%Z in
  (inject_Z (round_half_even (a * pow2 (- k))) * pow2 k)%Q.

(** The double nearest to a rational: an infinity from 2^1024 on. *)
Definition round64 (q : Q) : jsnum :=
  let q := Qred q in
  if Qis_zero q then Fin 0
  else
    let r := round_magnitude (Qabs q) in
    if Qle_bool (pow2 1024) r then Inf (Qis_neg q)
    else Fin (Qred (if Qis_neg q then - r else r)).

(** *** Arithmetic *)

Definition num_neg (x : jsnum) : jsnum :=
  match x with
  | NaN => NaN
  | Inf s => Inf (negb s)
  | Fin q => Fin (Qred (- q)%Q)
  end.

Definition num_add (x y : jsnum) : jsnum :=
  match x, y with
  | NaN, _ | _, NaN => NaN
  | Inf a, Inf b => if Bool.eqb a b then Inf a else NaN
  | Inf a, Fin _ | Fin _, Inf a => Inf a
  | Fin p, Fin q => round64 (p + q)%Q
  end.

Definition num_sub (x y : jsnum) : jsnum := num_add x (num_neg y).

Definition num_mul (x y : jsnum) : jsnum :=
  match x, y with
  | NaN, _ | _, NaN => NaN
  | Inf a, Inf b => Inf (xorb a b)
  | Inf a, Fin q | Fin q, Inf a =>
      if Qis_zero q then NaN else Inf (xorb a (Qis_neg q))
  | Fin p, Fin q => round64 (p * q)%Q
  end.

Definition num_div (x y : jsnum) : jsnum :=
  match x, y with
  | NaN, _ | _, NaN => NaN
  | Inf _, Inf _ => NaN
  | Inf a, Fin q => Inf (xorb a (Qis_neg q))
  | Fin _, Inf _ => Fin 0%Q
  | Fin p, Fin q =>
      if Qis_zero q then (if Qis_zero p then NaN else Inf (Qis_neg p))
      else round64 (p / q)%Q
  end.

(** [x < y]: false as soon as one side is NaN. *)
Definition num_ltb (x y : jsnum) : bool :=
  match x, y with
  | NaN, _ | _, NaN => false
  | Inf a, Inf b => a && negb b
  | Inf a, Fin _ => a
  | Fin _, Inf b => negb b
  | Fin p, Fin q => match (p ?= q)%Q with Lt => true | _ => false end
  end.

(** [Math.round]: the nearest integer, a tie going up; it is a double
    whenever its argument is. *)
Definition Math_round (x : jsnum) : jsnum :=
  match x with
  | Fin q => Fin (inject_Z (Qfloor (q + (1 # 2))%Q))
  | _ => x
  end.

(** *** Decimal digits *)

Definition digit_of (c : N) : Z := Z.of_N (c - 48).

(** The value of a run of decimal digits, most significant first. *)
Definition digits_value (ds : jsstring) : Z :=
  fold_left (fun acc c => 10 * acc + digit_of c)%Z ds 0%Z.

Fixpoint span (p : N -> bool) (s : jsstring) : jsstring * jsstring :=
  match s with
  | [] => ([], [])
  | c :: r =>
      if p c then let (a, b) := span p r in (c :: a, b) else ([], s)
  end.

(** The decimal digits of a natural number, most significant first;
    [fuel] bounds the number of digits. *)
Fixpoint nat_digits (fuel : nat) (n : N) (acc : jsstring) : jsstring :=
  match fuel with
  | O => acc
  | S f =>
      let acc' := (48 + n mod 10)%N :: acc in
      if (n <? 10)%N then acc' else nat_digits f (n / 10)%N acc'
  end.

Definition N_to_string (n : N) : jsstring :=
  nat_digits (S (N.to_nat (N.log2 n))) n [].

(** [String(z)] for an integer. *)
Definition Z_to_string (z : Z) : jsstring :=
  match z with
  | Z0 => [48%N]
  | Zpos p => N_to_string (Npos p)
  | Zneg p => 45%N :: N_to_string (Npos p)
  end.

(** *** [String(x)] for a number *)

Definition pow10 (k : Z) : Q := Qpower 10 k.

(** The decimal exponent of a positive rational: 10^e <= a < 10^(e+1),
    reached from an estimate that is a step or two off at most. *)
Fixpoint ilog10_from (fuel : nat) (a : Q) (e : Z) : Z :=
  match fuel with
  | O => e
  | S f =>
      if Qle_bool (pow10 (e + 1)) a then ilog10_from f a (e + 1)
      else if Qle_bool (pow10 e) a then e
      else ilog10_from f a (e - 1)
  end.

Definition ilog10 (a : Q) : Z :=
  ilog10_from 4 a (ilog2 a * 30103 / 100000).

(** The decimal [s * 10^e] reads back as the double [x]. *)
Definition reads_back (x : Q) (s e : Z) : bool :=
  match round64 (inject_Z s * pow10 e) with
  | Fin y => Qeq_bool y x
  | _ => false
  end.

(** Of the two multiples of [10^e] around [x], one that reads back as [x]:
    the closer one when both do, the even one on a tie. *)
Definition nearest_decimal (x : Q) (e : Z) : option Z :=
  let c := Qfloor (x * pow10 (- e)) in
  match reads_back x c e, reads_back x (c + 1) e with
  | false, false => None
  | true, false => Some c
  | false, true => Some (c + 1)%Z
  | true, true =>
      match (x - inject_Z c * pow10 e
             ?= inject_Z (c + 1) * pow10 e - x)%Q with
      | Lt => Some c
      | Gt => Some (c + 1)%Z
      | Eq => if Z.even c then Some c else Some (c + 1)%Z
      end
  end.

(** The shortest decimal that reads back as [x]: its digits [s] and the
    exponent [n], [x] being about [0.s * 10^n]; [k] digits are tried, then
    one more.  Seventeen digits always do. *)
Fixpoint shortest_decimal (fuel : nat) (x : Q) (n0 k : Z) : Z * Z :=
  match fuel with
  | O => (0, 0)%Z
  | S f =>
      match nearest_decimal x (n0 - k) with
      | Some s => if (s =? 10 ^ k)%Z then (1, n0 + 1)%Z else (s, n0)
      | None => shortest_decimal f x n0 (k + 1)
      end
  end.

(** The digits [s] and the exponent [n] laid out as [Number::toString]
    does: in full up to 21 integer digits and down to 6 leading zeros,
    with an exponent otherwise. *)
Definition layout (s n : Z) : jsstring :=
  let ds := Z_to_string s in
  let k := Z.of_nat (length ds) in
  if ((k <=? n) && (n <=? 21))%Z then ds ++ repeat 48%N (Z.to_nat (n - k))
  else if ((0 <? n) && (n <=? 21))%Z then
    firstn (Z.to_nat n) ds ++ [46%N] ++ skipn (Z.to_nat n) ds
  else if ((-6 <? n) && (n <=? 0))%Z then
    [48%N; 46%N] ++ repeat 48%N (Z.to_nat (- n)) ++ ds
  else
    let e := (n - 1)%Z in
    let mantissa :=
      match ds with
      | d :: ((_ :: _) as rest) => d :: 46%N :: rest
      | _ => ds
      end in
    mantissa ++ [101%N] ++ [if (e <? 0)%Z then 45%N else 43%N]
    ++ Z_to_string (Z.abs e).

Definition positive_toString (x : Q) : jsstring :=
  let '(s, n) := shortest_decimal 17 x (ilog10 x + 1) 1 in layout s n.

(** [String(x)].  An integer below 2^53 in magnitude is its own shortest
    decimal, and is written in full. *)
Definition Number_toString (x : jsnum) : jsstring :=
  match x with
  | NaN => js "NaN"
  | Inf false => js "Infinity"
  | Inf true => js "-Infinity"
  | Fin q =>
      let r := Qred q in
      if ((Zpos (Qden r) =? 1) && (Z.abs (Qnum r) <? 2 ^ 53))%Z
      then Z_to_string (Qnum r)
      else if Qis_neg r then 45%N :: positive_toString (Qabs r)
      else positive_toString r
  end.

(** *** [Number(s)] for a string: the StringNumericLiteral grammar *)

(** ExponentPart, optional, up to the end of the literal. *)
Definition parse_exponent (s : jsstring) : option Z :=
  match s with
  | [] => Some 0%Z
  | e :: r =>
      if ((e =? 101) || (e =? 69))%N then
        let '(neg, r') :=
          match r with
          | sign :: r' =>
              if (sign =? 43)%N then (false, r')
              else if (sign =? 45)%N then (true, r')
              else (false, r)
          | [] => (false, r)
          end in
        let '(ds, rest) := span is_digit r' in
        match ds, rest with
        | _ :: _, [] =>
            Some (if neg then (- digits_value ds)%Z else digits_value ds)
        | _, _ => None
        end
      else None
  end.

(** StrUnsignedDecimalLiteral: [Infinity], or digits with an optional
    fraction and an optional exponent; at least one digit around the dot.
    The value is the double nearest to the decimal. *)
Definition parse_unsigned_decimal (s : jsstring) : jsnum :=
  if str_eqb s (js "Infinity") then Inf false
  else
    let '(ip, r1) := span is_digit s in
    let '(fp, r2) :=
      match r1 with
      | dot :: r => if (dot =? 46)%N then span is_digit r else ([], r1)
      | [] => ([], r1)
      end in
    match ip ++ fp with
    | [] => NaN
    | mant =>
        match parse_exponent r2 with
        | Some e =>
            round64 (inject_Z (digits_value mant)
                     * pow10 (e - Z.of_nat (length fp)))%Q
        | None => NaN
        end
    end.

Definition radix_digit (c : N) : option Z :=
  if is_digit c then Some (Z.of_N (c - 48))
  else if ((97 <=? c) && (c <=? 102))%N then Some (Z.of_N (c - 87))
  else if ((65 <=? c) && (c <=? 70))%N then Some (Z.of_N (c - 55))
  else None.

Fixpoint radix_value (radix : Z) (s : jsstring) (acc : Z) : option Z :=
  match s with
  | [] => Some acc
  | c :: r =>
      match radix_digit c with
      | Some d =>
          if (d <? radix)%Z then radix_value radix r (acc * radix + d)%Z
          else None
      | None => None
      end
  end.

(** NonDecimalIntegerLiteral: [0x], [0o] or [0b] and at least one digit. *)
Definition parse_non_decimal (s : jsstring) : option jsnum :=
  match s with
  | zero :: x :: ((_ :: _) as ds) =>
      let radix :=
        if negb (zero =? 48)%N then None
        else if ((x =? 120) || (x =? 88))%N then Some 16%Z
        else if ((x =? 111) || (x =? 79))%N then Some 8%Z
        else if ((x =? 98) || (x =? 66))%N then Some 2%Z
        else None in
      match radix with
      | Some b =>
          option_map (fun z => round64 (inject_Z z)) (radix_value b ds 0%Z)
      | None => None
      end
  | _ => None
  end.

(** [Number(s)]: blanks trimmed, the empty text is 0, a sign goes with a
    decimal literal only. *)
Definition StringToNumber (s : jsstring) : jsnum :=
  match trim s with
  | [] => num_of_Z 0
  | c :: r =>
      if (c =? 43)%N then parse_unsigned_decimal r
      else if (c =? 45)%N then num_neg (parse_unsigned_decimal r)
      else
        match parse_non_decimal (c :: r) with
        | Some n => n
        | None => parse_unsigned_decimal (c :: r)
        end
  end.

(** ** Regular expressions

    The patterns of the source are terms of [re]; [rmatch] is the
    backtracking matcher of the language, in continuation-passing style:
    repetition and option are greedy and give back what the rest of the
    pattern needs, and an iteration that consumes nothing is not retried. *)

Inductive re : Type :=
| Eps
| Chr (p : N -> bool)
| Seq (a b : re)
| Opt (a : re)
| Star (a : re)
| Group (i : nat) (a : re)
| Bol
| Eol
| WordB.

Definition Plus (a : re) : re := Seq a (Star a).

(** A literal text, character by character. *)
Fixpoint Lit (s : jsstring) : re :=
  match s with
  | [] => Eps
  | c :: r => Seq (Chr (N.eqb c)) (Lit r)
  end.

(** The same under the [i] flag: ASCII letters match in both cases. *)
Definition fold_case (c : N) : N := if is_lower c then (c - 32)%N else c.

Fixpoint LitI (s : jsstring) : re :=
  match s with
  | [] => Eps
  | c :: r => Seq (Chr (fun x => (fold_case x =? fold_case c)%N)) (LitI r)
  end.

Record mstate : Type := {
  m_prev : option N;                 (* the character before the position *)
  m_rest : jsstring;                 (* the input from the position on *)
  m_caps : list (nat * jsstring)     (* the groups closed so far, last first *)
}.

Definition advance (c : N) (rest : jsstring) (st : mstate) : mstate :=
  {| m_prev := Some c; m_rest := rest; m_caps := m_caps st |}.

(** Closing group [i]: it holds what was consumed since [st0]. *)
Definition close_group (i : nat) (st0 st : mstate) : mstate :=
  {| m_prev := m_prev st;
     m_rest := m_rest st;
     m_caps := (i, firstn (length (m_rest st0) - length (m_rest st)) (m_rest st0))
               :: m_caps st |}.

Definition word_at (c : option N) : bool :=
  match c with Some x => is_word x | None => false end.

Fixpoint rmatch (r : re) (k : mstate -> option mstate) (st : mstate)
  : option mstate :=
  match r with
  | Eps => k st
  | Chr p =>
      match m_rest st with
      | c :: rest => if p c then k (advance c rest st) else None
      | [] => None
      end
  | Seq a b => rmatch a (rmatch b k) st
  | Opt a =>
      match rmatch a k st with
      | Some out => Some out
      | None => k st
      end
  | Star a =>
      (fix loop (fuel : nat) (st : mstate) : option mstate :=
         match fuel with
         | O => k st
         | S fuel' =>
             match rmatch a (fun st' =>
                     if length (m_rest st') <? length (m_rest st)
                     then loop fuel' st' else None) st with
             | Some out => Some out
             | None => k st
             end
         end) (length (m_rest st)) st
  | Group i a => rmatch a (fun st' => k (close_group i st st')) st
  | Bol => match m_prev st with None => k st | Some _ => None end
  | Eol => match m_rest st with [] => k st | _ :: _ => None end
  | WordB =>
      if xorb (word_at (m_prev st)) (word_at (hd_error (m_rest st)))
      then k st else None
  end.

(** The leftmost match: every start position in turn. *)
Fixpoint rsearch (r : re) (prev : option N) (s : jsstring) : option mstate :=
  match rmatch r Some {| m_prev := prev; m_rest := s; m_caps := [] |} with
  | Some out => Some out
  | None =>
      match s with
      | [] => None
      | c :: rest => rsearch r (Some c) rest
      end
  end.

(** [text.match(r)] without the [g] flag. *)
Definition re_match (r : re) (text : jsstring) : option mstate :=
  rsearch r None text.

(** [r.test(text)] *)
Definition re_test (r : re) (text : jsstring) : bool :=
  match re_match r text with Some _ => true | None => false end.

Fixpoint lookup_cap (i : nat) (caps : list (nat * jsstring)) : option jsstring :=
  match caps with
  | [] => None
  | (j, s) :: r => if j =? i then Some s else lookup_cap i r
  end.

(** [m[i]]: [None] is [undefined]. *)
Definition cap (i : nat) (m : mstate) : option jsstring :=
  lookup_cap i (m_caps m).

Definition digit : re := Chr is_digit.
Definition blank : re := Chr is_ws.

(** [/(\d+)\s*hours?/] *)
Definition RE_HOURS : re :=
  Seq (Group 1 (Plus digit))
      (Seq (Star blank) (Seq (Lit (js "hour")) (Opt (Lit (js "s"))))).

(** [/(\d+)\s*minutes?/] *)
Definition RE_MINUTES : re :=
  Seq (Group 1 (Plus digit))
      (Seq (Star blank) (Seq (Lit (js "minute")) (Opt (Lit (js "s"))))).

(** [/(\d+)\s*mins?\b/] *)
Definition RE_MIN_SHORT : re :=
  Seq (Group 1 (Plus digit))
      (Seq (Star blank) (Seq (Lit (js "min")) (Seq (Opt (Lit (js "s"))) WordB))).

(** [/(\d+)/] *)
Definition RE_NUMBER : re := Group 1 (Plus digit).

(** [/^\d{4}-\d{2}-\d{2}$/] *)
Definition RE_ISO_DATE : re :=
  Seq Bol
   (Seq digit (Seq digit (Seq digit (Seq digit
   (Seq (Lit (js "-")) (Seq digit (Seq digit
   (Seq (Lit (js "-")) (Seq digit (Seq digit Eol)))))))))).

(** [/^([A-Za-z]+)\s+(\d{1,2}),\s*(\d{4})$/] *)
Definition RE_LONG_MONTH : re :=
  Seq Bol
   (Seq (Group 1 (Plus (Chr is_alpha)))
   (Seq (Plus blank)
   (Seq (Group 2 (Seq digit (Opt digit)))
   (Seq (Lit (js ","))
   (Seq (Star blank)
   (Seq (Group 3 (Seq digit (Seq digit (Seq digit digit)))) Eol)))))).

(** [COURSE_PAGE_RE]:
    [/^https:\/\/frontendmasters\.com\/courses\/[^/?#]+\/?/i] *)
Definition COURSE_PAGE_RE : re :=
  Seq Bol
   (Seq (LitI (js "https://frontendmasters.com/courses/"))
   (Seq (Plus (Chr (fun c => negb ((c =? 47) || (c =? 63) || (c =? 35))%N)))
        (Opt (LitI (js "/"))))).

(** [Number(v)] for a string or [undefined]. *)
Definition ToNumber (v : option jsstring) : jsnum :=
  match v with
  | Some s => StringToNumber s
  | None => NaN
  end.

(** ** Exceptions *)

(** A thrown value: an [Error], a [TypeError], or a value that is not an
    instance of [Error], kept as the text [String(value || '')]. *)
Inductive exn : Type :=
| Error (message : jsstring)
| TypeError (message : jsstring)
| NotAnError (text : jsstring).

(** [error instanceof Error ? error.message : 'Unknown error.'] *)
Definition exn_message (e : exn) : jsstring :=
  match e with
  | Error m => m
  | TypeError m => m
  | NotAnError _ => js "Unknown error."
  end.

Inductive result (A : Type) : Type :=
| Ok (a : A)
| Throw (e : exn).

Arguments Ok {A} a.
Arguments Throw {A} e.

Definition bind {A B : Type} (r : result A) (f : A -> result B) : result B :=
  match r with
  | Ok a => f a
  | Throw e => Throw e
  end.

(** ** The document, through the queries of the code *)

(** An element, seen through [querySelector('p')?.textContent]. *)
Record Wrapper : Type := {
  w_paragraph : option jsstring
}.

(** An [h3] of the page. *)
Record Heading : Type := {
  h_textContent : jsstring;
  h_closest_content : option Wrapper;    (* closest('.content') *)
  h_parentElement : option Wrapper
}.

Record Anchor : Type := {
  a_textContent : jsstring;
  a_href : option jsstring               (* getAttribute('href') *)
}.

(** An [a.timestamp] with the texts of its [span]s. *)
Record TimestampLink : Type := {
  ts_spans : list jsstring;
  ts_href : option jsstring
}.

(** A [li.Course-Lesson-List-Item]. *)
Record LessonItem : Type := {
  li_title_a : option Anchor;            (* '.title a' *)
  li_description : option jsstring;      (* '.description' *)
  li_timestamp : option TimestampLink;   (* 'a.timestamp' *)
  li_thumbnail : option Anchor           (* 'a.thumbnail' *)
}.

(** A node of [querySelectorAll('.Course-Lesson-Group, ul.Course-Lesson-List')]. *)
Record Node : Type := {
  matches_group : bool;                  (* matches('.Course-Lesson-Group') *)
  matches_list : bool;                   (* matches('ul.Course-Lesson-List') *)
  n_h3 : option jsstring;                (* 'h3' *)
  n_duration : option jsstring;          (* '.duration' *)
  n_items : list LessonItem              (* 'li.Course-Lesson-List-Item' *)
}.

Record Document : Type := {
  d_header_h1 : option jsstring;         (* '.Course-Header-Details h1' *)
  d_h3 : list Heading;                   (* all 'h3' *)
  d_content_p : option jsstring;         (* '.content p' *)
  d_tutor : option jsstring;   (* '.FM-Round-Thumbnail-Item .text .main a' *)
  d_header_meta : option jsstring;       (* '.Course-Header-Meta' *)
  d_group_duration : list jsstring;      (* all '.group .duration' *)
  d_sequence : list Node
}.

(** ** The records of the export *)

Record CourseData : Type := {
  courseTitle : jsstring;
  courseDescription : jsstring;
  tutor : jsstring;
  totalDuration : jsstring;
  publishedDate : jsstring;
  sectionCount : option Z;
  lessonCount : option Z;
  courseUrl : option jsstring
}.

Record LessonData : Type := {
  id : Z;
  title : jsstring;
  description : jsstring;
  duration : jsstring;
  timeRange : jsstring;
  lessonUrl : jsstring;
  sectionId : Z;
  sectionTitle : jsstring;
  sectionDuration : jsstring
}.

Record SectionRecord : Type := {
  sec_id : Z;
  sec_title : jsstring;
  sec_duration : jsstring
}.

Record Payload : Type := {
  p_courseData : CourseData;
  p_lessons : list LessonData
}.

Record ExtractCoursePayloadResult : Type := {
  slug : jsstring;
  payload : Payload
}.

(** [new Set(values)]: the distinct values in insertion order. *)
Definition Set_add (s : list Z) (x : Z) : list Z :=
  if existsb (Z.eqb x) s then s else s ++ [x].

Definition Set_new (values : list Z) : list Z := fold_left Set_add values [].

Definition Set_size (s : list Z) : Z := Z.of_nat (length s).

(** ** The host *)

Class Host : Type := {
  (** [window.location.origin] *)
  location_origin : jsstring;
  (** [new URL(href, base).href], [None] when the constructor throws *)
  URL_href : jsstring -> jsstring -> option jsstring;
  (** the lower-case mapping of a code unit outside ASCII *)
  lower_beyond_ascii : N -> jsstring
}.

Section Content.
Context {host : Host}.

(** [s.toLowerCase()] *)
Definition toLowerCase (s : jsstring) : jsstring :=
  flat_map (fun c => if is_upper c then [(c + 32)%N]
                     else if (c <? 128)%N then [c]
                     else lower_beyond_ascii c) s.

Definition COLON : N := 58.
Definition DASH : N := 45.
Definition SLASH : N := 47.

(** [timestampToSeconds]: [None] is the [null] result. *)
Definition timestampToSeconds (value : option jsstring) : option jsnum :=
  let parts := map StringToNumber (split_on COLON (cleanText value)) in
  if (length parts =? 0) || existsb Number_isNaN parts then None
  else
    match parts with
    | [p0; p1; p2] =>
        Some (num_add (num_add (num_mul p0 (num_of_Z 3600))
                               (num_mul p1 (num_of_Z 60))) p2)
    | [p0; p1] => Some (num_add (num_mul p0 (num_of_Z 60)) p1)
    | [p0] => Some p0
    | _ => None
    end.

(** [getDurationFromTimeRange] *)
Definition getDurationFromTimeRange (value : option jsstring) : jsstring :=
  let range := cleanText value in
  if negb (truthy range) then []
  else
    let parts := map (fun item => cleanText (Some item)) (split_on DASH range) in
    if negb (length parts =? 2) then []
    else
      match timestampToSeconds (nth_error parts 0),
            timestampToSeconds (nth_error parts 1) with
      | Some start, Some end_ =>
          if num_ltb end_ start then []
          else Number_toString
                 (Math_round (num_div (num_sub end_ start) (num_of_Z 60)))
      | _, _ => []
      end.

(** [extractMinutes] *)
Definition extractMinutes (value : option jsstring) : jsstring :=
  let text := toLowerCase (cleanText value) in
  if negb (truthy text) then []
  else
    let hoursMatch := re_match RE_HOURS text in
    let minutesMatch := re_match RE_MINUTES text in
    let minShortMatch := re_match RE_MIN_SHORT text in
    match hoursMatch, minutesMatch with
    | None, None =>
        match minShortMatch with
        | Some m => Number_toString (ToNumber (cap 1 m))
        | None =>
            match re_match RE_NUMBER text with
            | Some m => Number_toString (ToNumber (cap 1 m))
            | None => []
            end
        end
    | _, _ =>
        let hours :=
          match hoursMatch with
          | Some m => ToNumber (cap 1 m)
          | None => num_of_Z 0
          end in
        let minutes :=
          match minutesMatch with
          | Some m => ToNumber (cap 1 m)
          | None => num_of_Z 0
          end in
        Number_toString (num_add (num_mul hours (num_of_Z 60)) minutes)
    end.

(** [getCourseSlug]: [parts[0]] must be [courses] and [parts[1]] exist. *)
Definition getCourseSlug (pathname : jsstring) : jsstring :=
  let parts := filter truthy (split_on SLASH pathname) in
  match parts with
  | p0 :: p1 :: _ => if str_eqb p0 (js "courses") then p1 else []
  | _ => []
  end.

(** [toAbsoluteUrl] *)
Definition toAbsoluteUrl (value : option jsstring) : jsstring :=
  let href := cleanText value in
  if negb (truthy href) then []
  else
    match URL_href href location_origin with
    | Some url => url
    | None => []
    end.

(** [buildCourseUrl] *)
Definition buildCourseUrl (slug : jsstring) : jsstring :=
  if negb (truthy slug) then []
  else location_origin ++ js "/courses/" ++ slug ++ js "/".

(** *** The month table

    [monthMap] is an object literal: a lookup that misses the twelve own
    properties goes on to [Object.prototype]. *)

Inductive prop_value : Type :=
| PString (s : jsstring)
| PNative (name : jsstring)     (* a built-in function *)
| PObject.                      (* a plain object *)

Definition prop_truthy (v : option prop_value) : bool :=
  match v with
  | Some (PString s) => truthy s
  | Some _ => true
  | None => false
  end.

(** The text a template literal gives a value. *)
Definition template_of (v : option prop_value) : jsstring :=
  match v with
  | Some (PString s) => s
  | Some (PNative name) => js "function " ++ name ++ js "() { [native code] }"
  | Some PObject => js "[object Object]"
  | None => js "undefined"
  end.

Definition template_str (v : option jsstring) : jsstring :=
  match v with
  | Some s => s
  | None => js "undefined"
  end.

Fixpoint assoc (key : jsstring) (props : list (jsstring * prop_value))
  : option prop_value :=
  match props with
  | [] => None
  | (k, v) :: r => if str_eqb k key then Some v else assoc key r
  end.

Definition Object_prototype : list (jsstring * prop_value) :=
  [ (js "constructor", PNative (js "Object"));
    (js "__defineGetter__", PNative (js "__defineGetter__"));
    (js "__defineSetter__", PNative (js "__defineSetter__"));
    (js "hasOwnProperty", PNative (js "hasOwnProperty"));
    (js "__lookupGetter__", PNative (js "__lookupGetter__"));
    (js "__lookupSetter__", PNative (js "__lookupSetter__"));
    (js "isPrototypeOf", PNative (js "isPrototypeOf"));
    (js "propertyIsEnumerable", PNative (js "propertyIsEnumerable"));
    (js "toString", PNative (js "toString"));
    (js "valueOf", PNative (js "valueOf"));
    (js "__proto__", PObject);
    (js "toLocaleString", PNative (js "toLocaleString")) ].

Definition monthMap : list (jsstring * prop_value) :=
  [ (js "january", PString (js "01"));
    (js "february", PString (js "02"));
    (js "march", PString (js "03"));
    (js "april", PString (js "04"));
    (js "may", PString (js "05"));
    (js "june", PString (js "06"));
    (js "july", PString (js "07"));
    (js "august", PString (js "08"));
    (js "september", PString (js "09"));
    (js "october", PString (js "10"));
    (js "november", PString (js "11"));
    (js "december", PString (js "12")) ].

(** [obj[key]] on an object literal. *)
Definition get_property (own : list (jsstring * prop_value)) (key : jsstring)
  : option prop_value :=
  match assoc key own with
  | Some v => Some v
  | None => assoc key Object_prototype
  end.

(** [normalizePublishedDate].  [longMonthMatch[1].toLowerCase()] is a
    method call on a group: it throws when the group is [undefined]. *)
Definition normalizePublishedDate (value : option jsstring) : result jsstring :=
  let text := cleanText value in
  if negb (truthy text) then Ok []
  else if re_test RE_ISO_DATE text then Ok text
  else
    match re_match RE_LONG_MONTH text with
    | Some longMonthMatch =>
        match cap 1 longMonthMatch with
        | None =>
            Throw (TypeError
              (js "Cannot read properties of undefined (reading 'toLowerCase')"))
        | Some g1 =>
            let month := get_property monthMap (toLowerCase g1) in
            let day :=
              padStart0 2 (Number_toString (ToNumber (cap 2 longMonthMatch))) in
            let year := cap 3 longMonthMatch in
            if prop_truthy month
            then Ok (template_str year ++ js "-" ++ template_of month
                     ++ js "-" ++ day)
            else Ok []
        end
    | None => Ok []
    end.

(** [getCourseDescription] *)
Definition getCourseDescription (doc : Document) : jsstring :=
  let descriptionHeading :=
    find (fun item =>
            str_eqb (toLowerCase (cleanText (Some (h_textContent item))))
                    (js "course description")) (d_h3 doc) in
  let paragraph :=
    match descriptionHeading with
    | Some h =>
        let wrapper :=
          match h_closest_content h with
          | Some w => Some w
          | None => h_parentElement h
          end in
        match wrapper with
        | Some w => w_paragraph w
        | None => None
        end
    | None => None
    end in
  match paragraph with
  | Some text => cleanText (Some text)
  | None =>
      cleanText (Some (match d_content_p doc with
                       | Some text => text
                       | None => []
                       end))
  end.

(** [getPublishedDate] *)
Definition getPublishedDate (doc : Document) : jsstring :=
  let publishedNode :=
    find (fun node =>
            includes (js "published") (toLowerCase (cleanText (Some node))))
         (d_group_duration doc) in
  match publishedNode with
  | None => []
  | Some node =>
      let text := cleanText (Some node) in
      let parts := split_on COLON text in
      if 1 <? length parts
      then cleanText (Some (join (js ":") (tl parts)))
      else text
  end.

(** [extractCourseData] *)
Definition extractCourseData (doc : Document) : result CourseData :=
  let title := cleanText (d_header_h1 doc) in
  let description := getCourseDescription doc in
  let tutor := cleanText (d_tutor doc) in
  let totalDuration := extractMinutes (Some (or_empty (d_header_meta doc))) in
  bind (normalizePublishedDate (Some (getPublishedDate doc)))
    (fun publishedDate =>
       Ok {| courseTitle := title;
             courseDescription := description;
             tutor := tutor;
             totalDuration := totalDuration;
             publishedDate := publishedDate;
             sectionCount := None;
             lessonCount := None;
             courseUrl := None |}).

(** [extractTimeRange] *)
Definition extractTimeRange (lessonItem : LessonItem) : jsstring :=
  match li_timestamp lessonItem with
  | None => []
  | Some timestampLink =>
      match ts_spans timestampLink with
      | [] => []
      | span0 :: _ => cleanText (Some span0)
      end
  end.

(** [extractLessonUrl]: the first anchor present, then its [href]. *)
Definition extractLessonUrl (lessonItem : LessonItem) : jsstring :=
  let href :=
    match li_title_a lessonItem with
    | Some a => a_href a
    | None =>
        match li_timestamp lessonItem with
        | Some t => ts_href t
        | None =>
            match li_thumbnail lessonItem with
            | Some a => a_href a
            | None => None
            end
        end
    end in
  toAbsoluteUrl href.

(** *** The document walker *)

(** The variables of [extractLessons], and one ghost field: the sections
    created so far, in the order of their creation.  Nothing reads it. *)
Record walker : Type := {
  lessons : list LessonData;
  nextSectionId : Z;
  nextLessonId : Z;
  currentSection : option SectionRecord;
  opened : list SectionRecord
}.

Definition walker_init : walker :=
  {| lessons := []; nextSectionId := 1001; nextLessonId := 1;
     currentSection := None; opened := [] |}.

(** The section a header node opens. *)
Definition header_section (w : walker) (node : Node) : SectionRecord :=
  {| sec_id := nextSectionId w;
     sec_title := cleanText (n_h3 node);
     sec_duration := extractMinutes (n_duration node) |}.

(** The section made up for a lesson list that comes before any header. *)
Definition synthetic_section (w : walker) : SectionRecord :=
  {| sec_id := nextSectionId w; sec_title := []; sec_duration := [] |}.

(** The record pushed for one lesson item. *)
Definition lesson_record (section : SectionRecord) (nextLessonId : Z)
    (lessonItem : LessonItem) : LessonData :=
  let title :=
    cleanText (option_map a_textContent (li_title_a lessonItem)) in
  let description := cleanText (li_description lessonItem) in
  let timeRange := extractTimeRange lessonItem in
  let duration := getDurationFromTimeRange (Some timeRange) in
  let lessonUrl := extractLessonUrl lessonItem in
  {| id := nextLessonId;
     title := title;
     description := description;
     duration := duration;
     timeRange := timeRange;
     lessonUrl := lessonUrl;
     sectionId := sec_id section;
     sectionTitle := sec_title section;
     sectionDuration := sec_duration section |}.

(** The body of the inner loop: one lesson item. *)
Definition push_lesson (section : SectionRecord) (acc : list LessonData * Z)
    (lessonItem : LessonItem) : list LessonData * Z :=
  let '(lessons, nextLessonId) := acc in
  (lessons ++ [lesson_record section nextLessonId lessonItem],
   (nextLessonId + 1)%Z).

(** The body of the outer loop: one node of the sequence. *)
Definition walk_node (w : walker) (node : Node) : walker :=
  if matches_group node then
    {| lessons := lessons w;
       nextSectionId := (nextSectionId w + 1)%Z;
       nextLessonId := nextLessonId w;
       currentSection := Some (header_section w node);
       opened := opened w ++ [header_section w node] |}
  else if negb (matches_list node) then w
  else
    let '(section, nextSectionId, opened) :=
      match currentSection w with
      | Some s => (s, nextSectionId w, opened w)
      | None => (synthetic_section w, (nextSectionId w + 1)%Z,
                 opened w ++ [synthetic_section w])
      end in
    let '(lessons, nextLessonId) :=
      fold_left (push_lesson section) (n_items node)
                (lessons w, nextLessonId w) in
    {| lessons := lessons;
       nextSectionId := nextSectionId;
       nextLessonId := nextLessonId;
       currentSection := Some section;
       opened := opened |}.

Definition walk_from (w : walker) (sequence : list Node) : walker :=
  fold_left walk_node sequence w.

Definition walk (sequence : list Node) : walker :=
  walk_from walker_init sequence.

(** [extractLessons] *)
Definition extractLessons (doc : Document) : list LessonData :=
  lessons (walk (d_sequence doc)).

(** *** The payload assembler *)

Definition NOT_A_COURSE_URL : exn :=
  Error (js "URL is not in /courses/<course-slug>/ format.").

Definition COURSE_NOT_FOUND : exn :=
  Error (js "Course information could not be found on the page.").

(** [extractCoursePayload]; [pathname] is [window.location.pathname]. *)
Definition extractCoursePayload (pathname : jsstring) (doc : Document)
  : result ExtractCoursePayloadResult :=
  let slug := getCourseSlug pathname in
  if negb (truthy slug) then Throw NOT_A_COURSE_URL
  else
    bind (extractCourseData doc) (fun courseData =>
      if negb (truthy (courseTitle courseData)) then Throw COURSE_NOT_FOUND
      else
        let lessons := extractLessons doc in
        let sectionIds :=
          Set_new (filter (fun sectionId => Number_isFinite (num_of_Z sectionId))
                          (map sectionId lessons)) in
        Ok {| slug := slug;
              payload :=
                {| p_courseData :=
                     {| courseTitle := courseTitle courseData;
                        courseDescription := courseDescription courseData;
                        tutor := tutor courseData;
                        totalDuration := totalDuration courseData;
                        publishedDate := publishedDate courseData;
                        sectionCount := Some (Set_size sectionIds);
                        lessonCount := Some (Z.of_nat (length lessons));
                        courseUrl := Some (buildCourseUrl slug) |};
                   p_lessons := lessons |} |}).

(** The response of the content script to a request. *)
Record Response : Type := {
  ok : bool;
  data : option ExtractCoursePayloadResult;
  error : option jsstring
}.

(** [handleExtractMessage]: the value passed to [sendResponse], if any;
    [message] is the [type] of the message. *)
Definition handleExtractMessage (message : option jsstring)
    (pathname : jsstring) (doc : Document) : option Response :=
  match message with
  | Some type =>
      if negb (str_eqb type (js "extract-course-data")) then None
      else
        match extractCoursePayload pathname doc with
        | Ok data => Some {| ok := true; data := Some data; error := None |}
        | Throw e =>
            Some {| ok := false; data := None;
                    error := Some (exn_message e) |}
        end
  | None => None
  end.

End Content.

(** ** The popup *)

(** *** The task list *)

(** A value of a message, as far as its truthiness and [String(value)]
    go; [undefined] is the [None] of the place that holds the value. *)
Inductive jsvalue : Type :=
| VNull
| VBool (b : bool)
| VNumber (n : jsnum)
| VString (s : jsstring)
| VObject (text : jsstring).   (* an object or an array, [text] its [String] *)

(** A lesson as the popup reads it: every field may be missing. *)
Record LessonView : Type := {
  v_id : option jsvalue;
  v_title : option jsvalue;
  v_duration : option jsvalue;
  v_lessonUrl : option jsvalue
}.

Record ExtractedPayload : Type := {
  v_lessons : option (list (option LessonView))
}.

Record Task : Type := {
  content : jsstring;
  task_description : jsstring
}.

(** Truthiness: [null], [false], 0, NaN and the empty string are falsy. *)
Definition value_truthy (v : jsvalue) : bool :=
  match v with
  | VNull => false
  | VBool b => b
  | VNumber NaN => false
  | VNumber (Inf _) => true
  | VNumber (Fin q) => negb (Qis_zero q)
  | VString s => truthy s
  | VObject _ => true
  end.

(** [String(value)] *)
Definition String_of (v : jsvalue) : jsstring :=
  match v with
  | VNull => js "null"
  | VBool true => js "true"
  | VBool false => js "false"
  | VNumber n => Number_toString n
  | VString s => s
  | VObject text => text
  end.

(** [lesson && lesson.f ? String(lesson.f) : '']; a lesson that is falsy
    is [None]. *)
Definition string_field (f : LessonView -> option jsvalue)
    (lesson : option LessonView) : jsstring :=
  match lesson with
  | Some l =>
      match f l with
      | Some v => if value_truthy v then String_of v else []
      | None => []
      end
  | None => []
  end.

(** One task of [buildV2Payload]; the id is tested against [undefined]
    only. *)
Definition task_of (lesson : option LessonView) : Task :=
  let id :=
    match lesson with
    | Some l =>
        match v_id l with
        | Some v => String_of v
        | None => []
        end
    | None => []
    end in
  let title := string_field v_title lesson in
  let duration := string_field v_duration lesson in
  let lessonUrl := string_field v_lessonUrl lesson in
  {| content := id ++ js ". " ++ title ++ js " []";
     task_description :=
       js "- Duration: " ++ duration ++ js " min" ++ [10%N] ++ js "- Url: "
       ++ lessonUrl |}.

(** [buildV2Payload]: the [tasks] of the result. *)
Definition buildV2Payload (payload : option ExtractedPayload) : list Task :=
  let lessons :=
    match payload with
    | Some p =>
        match v_lessons p with
        | Some ls => ls
        | None => []
        end
    | None => []
    end in
  map task_of lessons.

(** What the popup sees of the payload the content script sends. *)
Definition view_of (l : LessonData) : LessonView :=
  {| v_id := Some (VNumber (num_of_Z (id l)));
     v_title := Some (VString (title l));
     v_duration := Some (VString (duration l));
     v_lessonUrl := Some (VString (lessonUrl l)) |}.

Definition received (p : Payload) : ExtractedPayload :=
  {| v_lessons := Some (map (fun l => Some (view_of l)) (p_lessons p)) |}.

Section Popup.

(** *** The request orchestrator *)

Record Tab : Type := {
  tab_id : option Z;                (* [None]: not a number *)
  tab_url : option jsstring         (* [None]: not a string *)
}.

(** [isCoursePageUrl] *)
Definition isCoursePageUrl (url : option jsstring) : bool :=
  match url with
  | Some u => re_test COURSE_PAGE_RE u
  | None => false
  end.

(** [assertValidCourseTab]: the id of the checked tab. *)
Definition assertValidCourseTab (tab : option Tab) : result Z :=
  match tab with
  | Some t =>
      match tab_id t with
      | Some tabId =>
          if negb (isCoursePageUrl (tab_url t))
          then Throw (Error (js
            "A Frontend Masters course page must be open in the active tab."))
          else Ok tabId
      | None => Throw (Error (js "Active tab not found."))
      end
  | None => Throw (Error (js "Active tab not found."))
  end.

(** [getErrorMessage] *)
Definition getErrorMessage (e : exn) : jsstring :=
  match e with
  | Error m => m
  | TypeError m => m
  | NotAnError text => text
  end.

Definition NO_RECEIVER : jsstring := js "Receiving end does not exist".

(** [isMissingReceiverError] *)
Definition isMissingReceiverError (e : exn) : bool :=
  includes NO_RECEIVER (getErrorMessage e).

(** [parseExtractResponse] *)
Definition parseExtractResponse (response : option Response)
  : result (option ExtractCoursePayloadResult) :=
  match response with
  | Some r =>
      if negb (ok r) then
        Throw (Error (match error r with
                      | Some e => if truthy e then e
                                  else js "Could not read page data."
                      | None => js "Could not read page data."
                      end))
      else Ok (data r)
  | None => Throw (Error (js "Could not read page data."))
  end.

(** The calls into the browser, each with the type of what it answers. *)
Inductive chromeE : Type -> Type :=
| SendMessage (tabId : Z) (type : jsstring)
    : chromeE (exn + option Response)      (* a rejection, or the response *)
| CanUseScriptingApi : chromeE bool
| ExecuteScript (tabId : Z) (files : list jsstring) : chromeE (exn + unit)
| ReloadTab (tabId : Z)
    : chromeE (option jsstring)            (* the message of [lastError] *)
| TabUpdates (timeoutMs : Z)
    : chromeE (list (Z * jsstring)).
    (* the [onUpdated] events, tab and status, that reach the listener
       before the timer of [timeoutMs] fires *)

(** An asynchronous computation. *)
Inductive async (A : Type) : Type :=
| Return (a : A)
| Reject (e : exn)
| Await {X : Type} (call : chromeE X) (k : X -> async A).

Arguments Return {A} a.
Arguments Reject {A} e.
Arguments Await {A X} call k.

Fixpoint andThen {A B : Type} (m : async A) (f : A -> async B) : async B :=
  match m with
  | Return a => f a
  | Reject e => Reject e
  | Await call k => Await call (fun x => andThen (k x) f)
  end.

(** [try { m } catch (error) { handler }] *)
Fixpoint tryCatch {A : Type} (m : async A) (handler : exn -> async A)
  : async A :=
  match m with
  | Return a => Return a
  | Reject e => handler e
  | Await call k => Await call (fun x => tryCatch (k x) handler)
  end.

Definition settle {A : Type} (r : result A) : async A :=
  match r with
  | Ok a => Return a
  | Throw e => Reject e
  end.

(** [await chrome.tabs.sendMessage(tabId, {type: 'extract-course-data'})] *)
Definition sendMessage (tabId : Z) : async (option Response) :=
  Await (SendMessage tabId (js "extract-course-data"))
        (fun r => match r with
                  | inl e => Reject e
                  | inr response => Return response
                  end).

(** [reloadTab] *)
Definition reloadTab (tabId : Z) : async unit :=
  Await (ReloadTab tabId)
        (fun lastError => match lastError with
                          | Some message => Reject (Error message)
                          | None => Return tt
                          end).

Definition RELOAD_TIMED_OUT : exn :=
  Error (js "Tab reload timed out. Please reload the page manually and try again.").

(** [waitForTabComplete]: the first of the timer and of an update of the
    tab to [complete] settles the promise. *)
Definition waitForTabComplete (tabId : Z) (timeoutMs : Z) : async unit :=
  Await (TabUpdates timeoutMs)
        (fun updates =>
           if existsb (fun '(updatedTabId, status) =>
                         (updatedTabId =? tabId)%Z
                         && str_eqb status (js "complete")) updates
           then Return tt
           else Reject RELOAD_TIMED_OUT).

(** [refreshTabAndWait] *)
Definition refreshTabAndWait (tabId : Z) : async unit :=
  andThen (reloadTab tabId) (fun _ => waitForTabComplete tabId 15000).

(** [chrome.scripting.executeScript({target: {tabId}, files})] *)
Definition executeScript (tabId : Z) (files : list jsstring) : async unit :=
  Await (ExecuteScript tabId files)
        (fun r => match r with
                  | inl e => Reject e
                  | inr _ => Return tt
                  end).

(** [requestCourseData] *)
Definition requestCourseData (tab : option Tab)
  : async (option ExtractCoursePayloadResult) :=
  andThen (settle (assertValidCourseTab tab)) (fun courseTab =>
    tryCatch
      (andThen (sendMessage courseTab) (fun response =>
         settle (parseExtractResponse response)))
      (fun error =>
         if negb (isMissingReceiverError error) then Reject error
         else
           andThen
             (Await CanUseScriptingApi (fun scripting =>
                if scripting
                then executeScript courseTab [js "content.js"]
                else refreshTabAndWait courseTab))
             (fun _ =>
                andThen (sendMessage courseTab) (fun retryResponse =>
                  settle (parseExtractResponse retryResponse))))).

(** *** Running a computation against the browser *)

Inductive action : Type :=
| ASend (tabId : Z)
| AProbe
| AInject (tabId : Z) (files : list jsstring)
| AReload (tabId : Z)
| AWait (timeoutMs : Z).

Definition action_of {X : Type} (call : chromeE X) : action :=
  match call with
  | SendMessage tabId _ => ASend tabId
  | CanUseScriptingApi => AProbe
  | ExecuteScript tabId files => AInject tabId files
  | ReloadTab tabId => AReload tabId
  | TabUpdates timeoutMs => AWait timeoutMs
  end.

(** The browser: what it answers to a call, given the calls made before. *)
Definition browser : Type := forall X : Type, list action -> chromeE X -> X.

(** The calls made, in order, and the way the promise settles. *)
Fixpoint run {A : Type} (env : browser) (m : async A) (past : list action)
  : list action * result A :=
  match m with
  | Return a => (past, Ok a)
  | Reject e => (past, Throw e)
  | Await call k => run env (k (env _ past call)) (past ++ [action_of call])
  end.

End Popup.

(** ** Definitions the statements use *)

(** [start; start + 1; ...], [n] terms. *)
Fixpoint Zseq (start : Z) (n : nat) : list Z :=
  match n with
  | O => []
  | S k => start :: Zseq (start + 1) k
  end.

(** The two roles of a node of the sequence: the header test comes first. *)
Definition is_header (node : Node) : bool := matches_group node.

Definition is_lesson_list (node : Node) : bool :=
  negb (matches_group node) && matches_list node.


(** What gives rise to a section, in traversal order: a header ([Some]), or
    the first lesson list met while no section is current ([None]). *)
Fixpoint section_sources (fresh : bool) (sequence : list Node)
  : list (option Node) :=
  match sequence with
  | [] => []
  | node :: rest =>
      if is_header node then Some node :: section_sources false rest
      else if is_lesson_list node then
        (if fresh then [None] else []) ++ section_sources false rest
      else section_sources fresh rest
  end.

Definition items_of (node : Node) : list LessonItem :=
  if is_lesson_list node then n_items node else [].


Section SpecDefinitions.
Context {host : Host}.

Definition section_of_source (sid : Z) (src : option Node) : SectionRecord :=
  match src with
  | Some node =>
      {| sec_id := sid;
         sec_title := cleanText (n_h3 node);
         sec_duration := extractMinutes (n_duration node) |}
  | None => {| sec_id := sid; sec_title := []; sec_duration := [] |}
  end.

Fixpoint number_sections (sid : Z) (srcs : list (option Node))
  : list SectionRecord :=
  match srcs with
  | [] => []
  | src :: rest => section_of_source sid src :: number_sections (sid + 1) rest
  end.

End SpecDefinitions.

(** ** Invariants of the walk *)

(** The lesson counter and the ids given so far. *)
Definition ids_inv (w : walker) : Prop :=
  map id (lessons w) = Zseq 1 (length (lessons w))
  /\ nextLessonId w = (1 + Z.of_nat (length (lessons w)))%Z.


(** Sections follow the lessons: ids and section ids stay below the
    counters, section ids grow with lesson ids, lessons of one section agree
    on its title and duration, and the current section is the last one. *)
Definition agrees_with (s : SectionRecord) (l : LessonData) : Prop :=
  sectionTitle l = sec_title s /\ sectionDuration l = sec_duration s.

Definition section_inv (w : walker) : Prop :=
  (forall l, In l (lessons w) ->
     (id l < nextLessonId w)%Z /\ (sectionId l < nextSectionId w)%Z)
  /\ (forall a b, In a (lessons w) -> In b (lessons w) ->
        (id a <= id b)%Z -> (sectionId a <= sectionId b)%Z)
  /\ (forall a b, In a (lessons w) -> In b (lessons w) ->
        sectionId a = sectionId b ->
        sectionTitle a = sectionTitle b
        /\ sectionDuration a = sectionDuration b)
  /\ match currentSection w with
     | Some s =>
         (sec_id s < nextSectionId w)%Z
         /\ forall l, In l (lessons w) ->
              (sectionId l <= sec_id s)%Z
              /\ (sectionId l = sec_id s -> agrees_with s l)
     | None => lessons w = []
     end.

(** Every section a lesson names was created, and so was the current one. *)
Definition owner_inv (w : walker) : Prop :=
  (forall l, In l (lessons w) -> In (sectionId l) (map sec_id (opened w)))
  /\ match currentSection w with
     | Some s => In s (opened w)
     | None => True
     end.

(** The sections created that own a lesson of [ls]. *)
Definition owns_a_lesson (ls : list LessonData) (s : SectionRecord) : bool :=
  existsb (fun l => (sectionId l =? sec_id s)%Z) ls.

(** ** The task list as the specification words it *)

(** A lesson whose fields, where present, have the types of the export: a
    number for the id, strings for the rest. *)
Record LessonFields : Type := {
  f_id : option jsnum;
  f_title : option jsstring;
  f_duration : option jsstring;
  f_lessonUrl : option jsstring
}.

Definition as_view (l : LessonFields) : LessonView :=
  {| v_id := option_map VNumber (f_id l);
     v_title := option_map VString (f_title l);
     v_duration := option_map VString (f_duration l);
     v_lessonUrl := option_map VString (f_lessonUrl l) |}.

(** A missing field is rendered as the empty string. *)
Definition task_spec (l : LessonFields) : Task :=
  {| content :=
       match f_id l with Some n => Number_toString n | None => [] end
       ++ js ". " ++ or_empty (f_title l) ++ js " []";
     task_description :=
       js "- Duration: " ++ or_empty (f_duration l) ++ js " min" ++ [10%N]
       ++ js "- Url: " ++ or_empty (f_lessonUrl l) |}.

(** The task of a lesson of the export payload, its id in decimal
    digits. *)
Definition task_of_lesson (l : LessonData) : Task :=
  {| content := Z_to_string (id l) ++ js ". " ++ title l ++ js " []";
     task_description :=
       js "- Duration: " ++ duration l ++ js " min" ++ [10%N]
       ++ js "- Url: " ++ lessonUrl l |}.

(** The integers that are doubles without rounding. *)
Definition safe_integer (z : Z) : Prop := (Z.abs z < 2 ^ 53)%Z.

(** ** A host and a page to run the code on *)

Definition sample_host : Host :=
  {| location_origin := js "https://frontendmasters.com";
     URL_href := fun href base =>
       Some (if starts_with (js "/") href then base ++ href else href);
     lower_beyond_ascii := fun c => [c] |}.

Definition sample_item (name range : string) : LessonItem :=
  {| li_title_a := Some {| a_textContent := js name;
                           a_href := Some (js "/courses/demo/intro/") |};
     li_description := None;
     li_timestamp := Some {| ts_spans := [js range]; ts_href := None |};
     li_thumbnail := None |}.

Definition header_node (name time : string) : Node :=
  {| matches_group := true; matches_list := false;
     n_h3 := Some (js name); n_duration := Some (js time); n_items := [] |}.

Definition list_node (items : list LessonItem) : Node :=
  {| matches_group := false; matches_list := true;
     n_h3 := None; n_duration := None; n_items := items |}.

(** Two headers, the first with no lesson under it, then two lessons. *)
Definition sample_doc : Document :=
  {| d_header_h1 := Some (js " Demo  Course ");
     d_h3 := [];
     d_content_p := None;
     d_tutor := None;
     d_header_meta := Some (js "2 hours 15 minutes");
     d_group_duration := [js "Published: March 3, 2022"];
     d_sequence :=
       [ header_node "Empty" " ";
         header_node "Basics" "45 mins";
         list_node [sample_item "Hello" "00:00:00-00:03:00";
                    sample_item "World" "00:03:00-00:10:30"] ] |}.


(** ** Words of the specification about the time normalizers *)

(** A non-empty run of decimal digits. *)
Definition digit_run (s : jsstring) : Prop :=
  s <> [] /\ forallb is_digit s = true.

(** A segment that is a plain integer once its blanks are trimmed. *)
Definition plain_integer (seg : jsstring) : bool :=
  match trim seg with
  | [] => false
  | t => forallb is_digit t
  end.

(** ** Words of the specification about durations *)

(** A pattern without the group [i]. *)
Fixpoint lacks_group (i : nat) (r : re) : bool :=
  match r with
  | Seq a b => lacks_group i a && lacks_group i b
  | Opt a | Star a => lacks_group i a
  | Group j a => negb (j =? i) && lacks_group i a
  | Eps | Chr _ | Bol | Eol | WordB => true
  end.

(** The integer written by group 1 of the first match of a pattern. *)
Definition first_number (r : re) (text : jsstring) : option Z :=
  match re_match r text with
  | Some m => Some (digits_value (or_empty (cap 1 m)))
  | None => None
  end.

Definition or_zero (n : option Z) : Z :=
  match n with
  | Some z => z
  | None => 0%Z
  end.

(** The double nearest to an integer: what [Number] makes of its digits. *)
Definition Number_of_Z (z : Z) : jsnum := round64 (inject_Z z).

(** A number that is a natural number or the positive infinity. *)
Definition natural_or_infinite (x : jsnum) : Prop :=
  x = Inf false \/ exists z, (0 <= z)%Z /\ x = num_of_Z z.

(** The minutes a text states, in integers: labelled hours and minutes
    first, then "N min", then the first bare integer. *)
Definition minutes_of (text : jsstring) : option Z :=
  match first_number RE_HOURS text, first_number RE_MINUTES text with
  | None, None =>
      match first_number RE_MIN_SHORT text with
      | Some n => Some n
      | None => first_number RE_NUMBER text
      end
  | hours, minutes => Some (or_zero hours * 60 + or_zero minutes)%Z
  end.

Section DurationSpec.
Context {host : Host}.

(** The duration as the specification words it, computed on numbers as
    the code computes: [String(hours * 60 + minutes)], else [String(N)]. *)
Definition parseDurationText (value : option jsstring) : jsstring :=
  let text := toLowerCase (cleanText value) in
  match first_number RE_HOURS text, first_number RE_MINUTES text with
  | None, None =>
      match first_number RE_MIN_SHORT text with
      | Some n => Number_toString (Number_of_Z n)
      | None =>
          match first_number RE_NUMBER text with
          | Some n => Number_toString (Number_of_Z n)
          | None => []
          end
      end
  | hours, minutes =>
      Number_toString
        (num_add (num_mul (Number_of_Z (or_zero hours)) (num_of_Z 60))
                 (Number_of_Z (or_zero minutes)))
  end.

End DurationSpec.

(** The first maximal run of digits of a text, if it has a digit. *)
Definition first_digit_run (text : jsstring) : option jsstring :=
  let '(_, rest) := span (fun c => negb (is_digit c)) text in
  match span is_digit rest with
  | ([], _) => None
  | (ds, _) => Some ds
  end.

(** The position after the longest run of characters of a class that
    starts at [st], whose input is [s]. *)
Fixpoint after_run (p : N -> bool) (st : mstate) (s : jsstring) : mstate :=
  match s with
  | c :: rest => if p c then after_run p (advance c rest st) rest else st
  | [] => st
  end.

(** ** The texts a pattern consumes *)

Inductive star_of (L : jsstring -> Prop) : jsstring -> Prop :=
| star_nil : star_of L []
| star_more u v : L u -> star_of L v -> star_of L (u ++ v).

(** The language of a pattern, assertions aside. *)
Fixpoint lang (r : re) (w : jsstring) : Prop :=
  match r with
  | Eps | Bol | Eol | WordB => w = []
  | Chr p => exists c, w = [c] /\ p c = true
  | Seq a b => exists u v, w = u ++ v /\ lang a u /\ lang b v
  | Opt a => w = [] \/ lang a w
  | Star a => star_of (lang a) w
  | Group _ a => lang a w
  end.

(** The rest of a labelled duration: blanks, the label, an optional "s". *)
Definition label_tail (label : jsstring) (w : jsstring) : Prop :=
  exists ws, forallb is_ws ws = true
             /\ (w = ws ++ label \/ w = ws ++ label ++ js "s").

(** The character before the position once [w] is consumed. *)
Definition prev_after (w : jsstring) (prev : option N) : option N :=
  match rev w with
  | c :: _ => Some c
  | [] => prev
  end.

(** ** Words of the specification about dates *)

(** The shape YYYY-MM-DD, character by character. *)
Definition is_iso_date (text : jsstring) : bool :=
  match text with
  | [y1; y2; y3; y4; d1; m1; m2; d2; a1; a2] =>
      is_digit y1 && is_digit y2 && is_digit y3 && is_digit y4
      && (d1 =? DASH)%N && is_digit m1 && is_digit m2
      && (d2 =? DASH)%N && is_digit a1 && is_digit a2
  | _ => false
  end.

(** The twelve entries of the month table, as a function. *)
Definition month_number (name : jsstring) : option jsstring :=
  match assoc name monthMap with
  | Some (PString mm) => Some mm
  | _ => None
  end.

Definition inherited (name : jsstring) : bool :=
  match assoc name Object_prototype with
  | Some _ => true
  | None => false
  end.

(** ** Words of the specification about failures *)



(** ** Words of the specification about the request protocol *)

Definition REQUEST : jsstring := js "extract-course-data".

(** How a request settles, from what the browser answers to the send. *)
Definition request_outcome (answer : exn + option Response)
  : result (option ExtractCoursePayloadResult) :=
  match answer with
  | inl e => Throw e
  | inr response => parseExtractResponse response
  end.

(** The first request failed in the way that starts a recovery. *)
Definition starts_recovery (r : result (option ExtractCoursePayloadResult))
  : bool :=
  match r with
  | Throw e => isMissingReceiverError e
  | Ok _ => false
  end.

(** An update of the tab to [complete] arrived before the timer. *)
Definition tab_completes (tabId : Z) (updates : list (Z * jsstring)) : bool :=
  existsb (fun '(updatedTabId, status) =>
             (updatedTabId =? tabId)%Z && str_eqb status (js "complete"))
          updates.

(** The calls one invocation can make: one request; or one request, the
    probe of the scripting capability, one recovery (an injection, or a
    reload and a wait of 15000 ms), and at most one more request, the
    last call. *)
Definition protocol_traces (tabId : Z) : list (list action) :=
  let inject := AInject tabId [js "content.js"] in
  [ [ASend tabId];
    [ASend tabId; AProbe; inject];
    [ASend tabId; AProbe; inject; ASend tabId];
    [ASend tabId; AProbe; AReload tabId];
    [ASend tabId; AProbe; AReload tabId; AWait 15000];
    [ASend tabId; AProbe; AReload tabId; AWait 15000; ASend tabId] ].

Definition is_recovery (a : action) : bool :=
  match a with
  | AInject _ _ | AReload _ => true
  | _ => false
  end.

Definition is_send (a : action) : bool :=
  match a with
  | ASend _ => true
  | _ => false
  end.

(** The recovery and the retry, from the calls made so far. *)
Definition recovery_run (env : browser) (tabId : Z) (past : list action)
  : list action * result (option ExtractCoursePayloadResult) :=
  let probed := past ++ [AProbe] in
  let inject := AInject tabId [js "content.js"] in
  if env _ past CanUseScriptingApi then
    match env _ probed (ExecuteScript tabId [js "content.js"]) with
    | inl e => (probed ++ [inject], Throw e)
    | inr _ =>
        (probed ++ [inject; ASend tabId],
         request_outcome
           (env _ (probed ++ [inject]) (SendMessage tabId REQUEST)))
    end
  else
    match env _ probed (ReloadTab tabId) with
    | Some message => (probed ++ [AReload tabId], Throw (Error message))
    | None =>
        if tab_completes tabId
             (env _ (probed ++ [AReload tabId]) (TabUpdates 15000))
        then
          (probed ++ [AReload tabId; AWait 15000; ASend tabId],
           request_outcome
             (env _ (probed ++ [AReload tabId; AWait 15000])
                  (SendMessage tabId REQUEST)))
        else (probed ++ [AReload tabId; AWait 15000], Throw RELOAD_TIMED_OUT)
    end.

(** A course tab, and browsers to run the orchestrator against. *)
Definition sample_tab : option Tab :=
  Some {| tab_id := Some 7%Z;
          tab_url := Some (js "https://frontendmasters.com/courses/demo/") |}.

Definition ok_response : Response :=
  {| ok := true; data := None; error := None |}.

(** No listener yet; scripting is available, and the injection is
    refused. *)
Definition refusing_browser : browser :=
  fun X past call =>
    match call in chromeE T return T with
    | SendMessage _ _ =>
        inl (Error (js "Could not establish connection. Receiving end does not exist."))
    | CanUseScriptingApi => true
    | ExecuteScript _ _ =>
        inl (Error (js "Cannot access contents of the page."))
    | ReloadTab _ => None
    | TabUpdates _ => []
    end.

(** No listener yet, no scripting, and the reload fails: the tab is gone. *)
Definition lost_tab_browser : browser :=
  fun X past call =>
    match call in chromeE T return T with
    | SendMessage _ _ =>
        inl (Error (js "Could not establish connection. Receiving end does not exist."))
    | CanUseScriptingApi => false
    | ExecuteScript _ _ => inr tt
    | ReloadTab _ => Some (js "No tab with id: 7.")
    | TabUpdates _ => []
    end.

(** No listener yet, no scripting; the reload never completes. *)
Definition stalled_browser : browser :=
  fun X past call =>
    match call in chromeE T return T with
    | SendMessage _ _ =>
        inl (Error (js "Could not establish connection. Receiving end does not exist."))
    | CanUseScriptingApi => false
    | ExecuteScript _ _ => inr tt
    | ReloadTab _ => None
    | TabUpdates _ => [(7%Z, js "loading")]
    end.

(** ** Cleaned texts *)

(** No zero-width space, and every blank is one space followed by a
    character that is not blank; [final] says whether a blank may end the
    text. *)
Fixpoint spaced (final : bool) (s : jsstring) : bool :=
  match s with
  | [] => true
  | c :: r =>
      negb (c =? ZWSP)%N
      && (if is_ws c
          then (c =? SPACE)%N
               && match r with
                  | c' :: _ => negb (is_ws c')
                  | [] => final
                  end
          else true)
      && spaced final r
  end.

(** The texts [cleanText] leaves alone: no blank at either end, single
    spaces inside, no zero-width space. *)
Definition is_clean (s : jsstring) : bool :=
  match s with
  | [] => true
  | c :: _ => negb (is_ws c) && spaced false s
  end.

(** The text without the blanks that end it. *)
Fixpoint strip_end (s : jsstring) : jsstring :=
  match s with
  | [] => []
  | c :: r =>
      match strip_end r with
      | [] => if is_ws c then [] else [c]
      | r' => c :: r'
      end
  end.

(** ** The published label *)

Section PublishedSpec.
Context {host : Host}.

(** The test of [getPublishedDate] on the text of a candidate node. *)
Definition mentions_published (node : jsstring) : bool :=
  includes (js "published") (toLowerCase (cleanText (Some node))).

End PublishedSpec.

(** ** The lessons of a section *)

Section LessonSpec.
Context {host : Host}.

(** What a lesson takes from its item alone: title, description, time
    range, duration and URL. *)
Definition item_fields (item : LessonItem)
  : jsstring * jsstring * jsstring * jsstring * jsstring :=
  (cleanText (option_map a_textContent (li_title_a item)),
   cleanText (li_description item),
   extractTimeRange item,
   getDurationFromTimeRange (Some (extractTimeRange item)),
   extractLessonUrl item).

Definition lesson_fields (l : LessonData)
  : jsstring * jsstring * jsstring * jsstring * jsstring :=
  (title l, description l, timeRange l, duration l, lessonUrl l).

(** The records of the items of one section, numbered from [n]. *)
Definition lessons_under (section : SectionRecord) (n : Z)
    (items : list LessonItem) : list LessonData :=
  map (fun '(i, item) => lesson_record section i item)
      (combine (Zseq n (length items)) items).

End LessonSpec.

(** ** The page behind the tab *)

Section PageSpec.
Context {host : Host}.

(** How the popup sees the outcome of the extraction in the page. *)
Definition extraction_outcome (pathname : jsstring) (doc : Document)
  : result (option ExtractCoursePayloadResult) :=
  match extractCoursePayload pathname doc with
  | Ok r => Ok (Some r)
  | Throw e => Throw e
  end.

(** A tab whose page has no listener until the content script is injected
    or the tab is reloaded; then the content script answers. *)
Definition late_page (pathname : jsstring) (doc : Document) : browser :=
  fun X past call =>
    match call in chromeE T return T with
    | SendMessage _ type =>
        if existsb is_recovery past
        then inr (handleExtractMessage (Some type) pathname doc)
        else inl (Error (js
               "Could not establish connection. Receiving end does not exist."))
    | CanUseScriptingApi => true
    | ExecuteScript _ _ => inr tt
    | ReloadTab _ => None
    | TabUpdates _ => []
    end.

End PageSpec.

(** ** Course page addresses *)

Definition COURSE_PREFIX : jsstring :=
  js "https://frontendmasters.com/courses/".

(** The characters that end the slug of an address: [/], [?] and [#]. *)
Definition is_separator (c : N) : bool :=
  ((c =? 47) || (c =? 63) || (c =? 35))%N.

(** Equal up to the case of ASCII letters. *)
Definition same_ignoring_case (a b : jsstring) : Prop :=
  map fold_case a = map fold_case b.

(** ** The wait for a reloaded tab, callback by callback *)

(** The state of one call of [waitForTabComplete]: its variable
    [finished], whether the timer of [timeoutId] is still pending, whether
    [onUpdated] is registered, and how the promise has settled, if it
    has. *)
Record waiting : Type := {
  finished : bool;
  timer_pending : bool;
  listener_added : bool;
  settled : option (result unit)
}.

(** Once the executor of the promise has run. *)
Definition waiting_start : waiting :=
  {| finished := false; timer_pending := true; listener_added := true;
     settled := None |}.

(** [cleanup()] *)
Definition cleanup (w : waiting) : waiting :=
  if finished w then w
  else {| finished := true;
          timer_pending := false;         (* clearTimeout(timeoutId) *)
          listener_added := false;        (* removeListener(onUpdated) *)
          settled := settled w |}.

(** [resolve()] and [reject(e)]: only the first call settles a promise. *)
Definition settle_once (r : result unit) (w : waiting) : waiting :=
  match settled w with
  | Some _ => w
  | None => {| finished := finished w;
               timer_pending := timer_pending w;
               listener_added := listener_added w;
               settled := Some r |}
  end.

(** The callback of the timer. *)
Definition on_timeout (w : waiting) : waiting :=
  settle_once (Throw RELOAD_TIMED_OUT) (cleanup w).

(** [onUpdated(updatedTabId, changeInfo)]; [status] is
    [changeInfo.status], [None] when the change has none. *)
Definition onUpdated (tabId : Z) (updatedTabId : Z)
    (status : option jsstring) (w : waiting) : waiting :=
  if (updatedTabId =? tabId)%Z
     && match status with
        | Some s => str_eqb s (js "complete")
        | None => false
        end
  then settle_once (Ok tt) (cleanup w)
  else w.

(** What the event loop can bring: the timer, or an update of some tab. *)
Inductive loop_event : Type :=
| TimerFires
| TabUpdated (updatedTabId : Z) (status : option jsstring).

(** A pending timer runs its callback, once; an update reaches [onUpdated]
    as long as it is registered. *)
Definition deliver (tabId : Z) (w : waiting) (ev : loop_event) : waiting :=
  match ev with
  | TimerFires =>
      if timer_pending w
      then on_timeout {| finished := finished w;
                         timer_pending := false;
                         listener_added := listener_added w;
                         settled := settled w |}
      else w
  | TabUpdated updatedTabId status =>
      if listener_added w then onUpdated tabId updatedTabId status w else w
  end.

(** The events that settle the wait for [tabId]. *)
Definition decisive (tabId : Z) (ev : loop_event) : bool :=
  match ev with
  | TimerFires => true
  | TabUpdated updatedTabId status =>
      (updatedTabId =? tabId)%Z
      && match status with
         | Some s => str_eqb s (js "complete")
         | None => false
         end
  end.

Definition outcome_of (ev : loop_event) : result unit :=
  match ev with
  | TimerFires => Throw RELOAD_TIMED_OUT
  | TabUpdated _ _ => Ok tt
  end.

(** The state once the promise has settled with [r]. *)
Definition waiting_over (r : result unit) : waiting :=
  {| finished := true; timer_pending := false; listener_added := false;
     settled := Some r |}.

(** The updates the browser reports, as events of the loop. *)
Definition update_events (updates : list (Z * jsstring)) : list loop_event :=
  map (fun '(updatedTabId, status) => TabUpdated updatedTabId (Some status))
      updates.

(** ** The load guard of the content script *)

(** The page as the content script changes it: the flag
    [window.__fmCourseJsonExporterLoaded] and the number of listeners the
    script has added to [chrome.runtime.onMessage]. *)
Record page_window : Type := {
  exporter_loaded : bool;
  message_listeners : nat
}.

Definition fresh_window : page_window :=
  {| exporter_loaded := false; message_listeners := 0 |}.

(** One execution of [content.js] in the page. *)
Definition run_content_script (w : page_window) : page_window :=
  if exporter_loaded w then w
  else {| exporter_loaded := true;
          message_listeners := S (message_listeners w) |}.

(** ** The export flow of the popup *)

(** What the popup can catch: a value as [exn] has it, or a
    [DOMException], an [Error] with a [name] of its own. *)
Inductive thrown : Type :=
| Thrown (e : exn)
| DOMException (name message : jsstring).

(** What is written to a file or a blob: [JSON.stringify(value, null, 2)]
    for the payload, or for the object whose [tasks] is the task list.
    The value is kept in place of its text. *)
Inductive json_text : Type :=
| PayloadJson (payload : Payload)
| TasksJson (tasks : list Task).

(** The calls of the popup: the two DOM nodes, the tab query, the folder
    picker and its file handles, the downloads, and the calls of
    [requestCourseData].  Handles are numbers. *)
Inductive popupE : Type -> Type :=
| SetDisabled (disabled : bool) : popupE unit
| SetStatus (message : jsstring) (isError : bool) : popupE unit
| QueryActiveTab : popupE (thrown + list Tab)
| HasDirectoryPicker : popupE bool
| ShowDirectoryPicker : popupE (thrown + Z)
| Chrome {X : Type} (call : chromeE X) : popupE X
| GetFileHandle (dir : Z) (fileName : jsstring) : popupE (thrown + Z)
| CreateWritable (file : Z) : popupE (thrown + Z)
| WriteText (writable : Z) (text : json_text) : popupE (thrown + unit)
| CloseWritable (writable : Z) : popupE (thrown + unit)
| CreateObjectURL (text : json_text) : popupE jsstring
| Download (url fileName : jsstring) : popupE (thrown + unit)
| RevokeLater (url : jsstring) (ms : Z) : popupE unit.

Inductive ui (A : Type) : Type :=
| Done (a : A)
| Raise (t : thrown)
| Call {X : Type} (call : popupE X) (k : X -> ui A).

Arguments Done {A} a.
Arguments Raise {A} t.
Arguments Call {A X} call k.

Fixpoint uiThen {A B : Type} (m : ui A) (f : A -> ui B) : ui B :=
  match m with
  | Done a => f a
  | Raise t => Raise t
  | Call call k => Call call (fun x => uiThen (k x) f)
  end.

(** [try { m } catch (error) { handler }] *)
Fixpoint uiCatch {A : Type} (m : ui A) (handler : thrown -> ui A) : ui A :=
  match m with
  | Done a => Done a
  | Raise t => handler t
  | Call call k => Call call (fun x => uiCatch (k x) handler)
  end.

(** [try { m } finally { f }] *)
Fixpoint uiFinally {A : Type} (m : ui A) (f : ui unit) : ui A :=
  match m with
  | Done a => uiThen f (fun _ => Done a)
  | Raise t => uiThen f (fun _ => Raise t)
  | Call call k => Call call (fun x => uiFinally (k x) f)
  end.

(** A computation of the orchestrator, run inside the popup. *)
Fixpoint lift {A : Type} (m : async A) : ui A :=
  match m with
  | @Return _ a => Done a
  | @Reject _ e => Raise (Thrown e)
  | @Await _ _ call k => Call (Chrome call) (fun x => lift (k x))
  end.

(** [await] of a call that may reject. *)
Definition attempt {X : Type} (call : popupE (thrown + X)) : ui X :=
  Call call (fun r => match r with
                      | inl t => Raise t
                      | inr x => Done x
                      end).

Definition perform (call : popupE unit) : ui unit :=
  Call call (fun _ => Done tt).

Definition check {A : Type} (r : result A) : ui A :=
  match r with
  | Ok a => Done a
  | Throw e => Raise (Thrown e)
  end.

(** The signs that open the final status texts. *)
Definition CHECK_MARK : jsstring := [9989%N].
Definition WARNING_SIGN : jsstring := [9888%N; 65039%N].
Definition CROSS_MARK : jsstring := [10060%N].

Definition CANCELLED : jsstring :=
  WARNING_SIGN ++ js " Folder selection was cancelled.".

Section ExportFlow.

(** The message of the [TypeError] the engine raises when the result of
    the request is [undefined] and is destructured. *)
Variable destructuring_message : jsstring.

(** [setStatus]; [isError] is [Boolean(isError)]. *)
Definition setStatus (message : jsstring) (isError : bool) : ui unit :=
  perform (SetStatus message isError).

(** [getActiveTab]: [tabs[0] || null]. *)
Definition getActiveTab : ui (option Tab) :=
  uiThen (attempt QueryActiveTab) (fun tabs => Done (hd_error tabs)).

(** [saveWithDirectoryPicker] *)
Definition saveWithDirectoryPicker (rootDirHandle : Z) (fileName : jsstring)
    (text : json_text) : ui unit :=
  uiThen (attempt (GetFileHandle rootDirHandle fileName)) (fun fileHandle =>
  uiThen (attempt (CreateWritable fileHandle)) (fun writable =>
  uiThen (attempt (WriteText writable text)) (fun _ =>
  attempt (CloseWritable writable)))).

(** [saveWithDownload] *)
Definition saveWithDownload (fileName : jsstring) (text : json_text)
  : ui unit :=
  Call (CreateObjectURL text) (fun blobUrl =>
    uiFinally (attempt (Download blobUrl fileName))
              (perform (RevokeLater blobUrl 1500))).

(** The [try] block of [onExportClick].  [assertValidCourseTab] returns
    the tab it was given, so [activeTab] is [tab]. *)
Definition exportBody : ui unit :=
  uiThen (setStatus (js "Checking active page...") false) (fun _ =>
  uiThen getActiveTab (fun tab =>
  uiThen (check (assertValidCourseTab tab)) (fun _ =>
  uiThen
    (Call HasDirectoryPicker (fun present =>
       if present
       then uiThen (setStatus (js "Select project folder...") false) (fun _ =>
            uiThen (attempt ShowDirectoryPicker) (fun dir => Done (Some dir)))
       else Done None))
    (fun chosenRootDirectory =>
  uiThen (setStatus (js "Reading course data...") false) (fun _ =>
  uiThen (lift (requestCourseData tab)) (fun result =>
  match result with
  | None => Raise (Thrown (TypeError destructuring_message))
  | Some r =>
      let v2Payload := buildV2Payload (Some (received (payload r))) in
      let baseFileName := slug r ++ js ".json" in
      let v2FileName := slug r ++ js "-v2.json" in
      match chosenRootDirectory with
      | Some dir =>
          uiThen (saveWithDirectoryPicker dir baseFileName
                    (PayloadJson (payload r))) (fun _ =>
          uiThen (saveWithDirectoryPicker dir v2FileName
                    (TasksJson v2Payload)) (fun _ =>
          setStatus (CHECK_MARK ++ js " Saved: " ++ baseFileName ++ js ", "
                     ++ v2FileName) false))
      | None =>
          uiThen (saveWithDownload baseFileName (PayloadJson (payload r)))
            (fun _ =>
          uiThen (saveWithDownload v2FileName (TasksJson v2Payload)) (fun _ =>
          setStatus (CHECK_MARK ++ js " Downloaded: " ++ baseFileName
                     ++ js ", " ++ v2FileName) false))
      end
  end)))))).

(** The [catch] block of [onExportClick]. *)
Definition exportFailed (error : thrown) : ui unit :=
  match error with
  | DOMException name message =>
      if str_eqb name (js "AbortError") then setStatus CANCELLED false
      else setStatus (CROSS_MARK ++ js " " ++ message) true
  | Thrown e => setStatus (CROSS_MARK ++ js " " ++ exn_message e) true
  end.

(** [onExportClick] *)
Definition onExportClick : ui unit :=
  uiThen (perform (SetDisabled true)) (fun _ =>
    uiFinally (uiCatch exportBody exportFailed)
              (perform (SetDisabled false))).

End ExportFlow.

(** *** Running the popup *)

(** A call with what matters of its answer: the handle a call gave, or
    whether it succeeded. *)
Inductive logged : Type :=
| LDisabled (disabled : bool)
| LStatus (message : jsstring) (isError : bool)
| LQueryTab
| LProbePicker
| LShowPicker (dir : option Z)
| LChrome (a : action)
| LGetFileHandle (dir : Z) (fileName : jsstring) (file : option Z)
| LCreateWritable (file : Z) (writable : option Z)
| LWrite (writable : Z) (text : json_text) (written : bool)
| LClose (writable : Z) (closed : bool)
| LObjectURL (text : json_text) (url : jsstring)
| LDownload (url fileName : jsstring) (started : bool)
| LRevokeLater (url : jsstring) (ms : Z).

Definition fulfilled {X : Type} (answer : thrown + X) : option X :=
  match answer with
  | inl _ => None
  | inr x => Some x
  end.

Definition succeeded {X : Type} (answer : thrown + X) : bool :=
  match answer with
  | inl _ => false
  | inr _ => true
  end.

Definition log_of {X : Type} (call : popupE X) : X -> logged :=
  match call in popupE T return T -> logged with
  | SetDisabled disabled => fun _ => LDisabled disabled
  | SetStatus message isError => fun _ => LStatus message isError
  | QueryActiveTab => fun _ => LQueryTab
  | HasDirectoryPicker => fun _ => LProbePicker
  | ShowDirectoryPicker => fun answer => LShowPicker (fulfilled answer)
  | Chrome call => fun _ => LChrome (action_of call)
  | GetFileHandle dir fileName =>
      fun answer => LGetFileHandle dir fileName (fulfilled answer)
  | CreateWritable file => fun answer => LCreateWritable file (fulfilled answer)
  | WriteText writable text =>
      fun answer => LWrite writable text (succeeded answer)
  | CloseWritable writable => fun answer => LClose writable (succeeded answer)
  | CreateObjectURL text => fun url => LObjectURL text url
  | Download url fileName =>
      fun answer => LDownload url fileName (succeeded answer)
  | RevokeLater url ms => fun _ => LRevokeLater url ms
  end.

(** The world around the popup: what it answers to a call, given the
    calls made before. *)
Definition shell : Type := forall X : Type, list logged -> popupE X -> X.

(** The calls made, in order, and how the computation ends. *)
Fixpoint run_ui {A : Type} (env : shell) (m : ui A) (past : list logged)
  : list logged * (A + thrown) :=
  match m with
  | Done a => (past, inl a)
  | Raise t => (past, inr t)
  | Call call k =>
      let answer := env _ past call in
      run_ui env (k answer) (past ++ [log_of call answer])
  end.

(** The browser as the orchestrator sees it from inside the popup, after
    the calls of [past]. *)
Definition chrome_view (env : shell) (past : list logged) : browser :=
  fun X requests call => env X (past ++ map LChrome requests) (Chrome call).

(** *** What a run did, aspect by aspect *)

(** The values given to [exportButton.disabled]. *)
Definition buttons (trace : list logged) : list bool :=
  flat_map (fun l => match l with LDisabled b => [b] | _ => [] end) trace.

(** The status texts shown, with their error styling. *)
Definition statuses (trace : list logged) : list (jsstring * bool) :=
  flat_map (fun l => match l with
                     | LStatus message isError => [(message, isError)]
                     | _ => []
                     end) trace.

(** The calls the orchestrator made. *)
Definition requests (trace : list logged) : list action :=
  flat_map (fun l => match l with LChrome a => [a] | _ => [] end) trace.

Definition is_file_call (l : logged) : bool :=
  match l with
  | LGetFileHandle _ _ _ | LCreateWritable _ _ | LWrite _ _ _ | LClose _ _
  | LObjectURL _ _ | LDownload _ _ _ | LRevokeLater _ _ => true
  | _ => false
  end.

(** The calls that touch files, blobs and downloads. *)
Definition file_calls (trace : list logged) : list logged :=
  filter is_file_call trace.

(** One file written in full through the folder picker. *)
Definition written_file (dir : Z) (fileName : jsstring) (text : json_text)
    (file writable : Z) : list logged :=
  [ LGetFileHandle dir fileName (Some file);
    LCreateWritable file (Some writable);
    LWrite writable text true;
    LClose writable true ].

(** One download started, its blob address to be revoked 1500 ms later. *)
Definition downloaded_file (fileName : jsstring) (text : json_text)
    (url : jsstring) : list logged :=
  [ LObjectURL text url; LDownload url fileName true; LRevokeLater url 1500 ].

Definition SAVED (r : ExtractCoursePayloadResult) : jsstring :=
  CHECK_MARK ++ js " Saved: " ++ slug r ++ js ".json, " ++ slug r
  ++ js "-v2.json".

Definition DOWNLOADED (r : ExtractCoursePayloadResult) : jsstring :=
  CHECK_MARK ++ js " Downloaded: " ++ slug r ++ js ".json, " ++ slug r
  ++ js "-v2.json".

(** The status texts that report a success. *)
Definition reports_success (message : jsstring) : bool :=
  starts_with CHECK_MARK message.

(** A shell in which everything succeeds: the active tab is a course
    page, seen as [page] by the orchestrator; a folder is chosen when the
    picker exists; every file call and every download goes through. *)
Definition friendly_shell (picker : bool) (page : browser) : shell :=
  fun X past call =>
    match call in popupE T return T with
    | SetDisabled _ => tt
    | SetStatus _ _ => tt
    | QueryActiveTab =>
        inr [ {| tab_id := Some 7%Z;
                 tab_url :=
                   Some (js "https://frontendmasters.com/courses/demo/") |} ]
    | HasDirectoryPicker => picker
    | ShowDirectoryPicker => inr 1%Z
    | Chrome call => page _ (requests past) call
    | GetFileHandle _ fileName => inr (Z.of_nat (length past))
    | CreateWritable file => inr (file + 100)%Z
    | WriteText _ _ => inr tt
    | CloseWritable _ => inr tt
    | CreateObjectURL _ => js "blob:export"
    | Download _ _ => inr tt
    | RevokeLater _ _ => tt
    end.

(** The answers of the folder picker: the folder chosen, or [None] when
    the picker rejected. *)
Definition picked (trace : list logged) : list (option Z) :=
  flat_map (fun l => match l with LShowPicker dir => [dir] | _ => [] end)
           trace.

(** The blob addresses created, and those scheduled for revocation with
    their delay. *)
Definition blobs (trace : list logged) : list jsstring :=
  flat_map (fun l => match l with LObjectURL _ url => [url] | _ => [] end)
           trace.

Definition revocations (trace : list logged) : list (jsstring * Z) :=
  flat_map (fun l => match l with
                     | LRevokeLater url ms => [(url, ms)]
                     | _ => []
                     end) trace.

(** The writable streams created, those written to in full, and those on
    which [close] was called. *)
Definition streams (trace : list logged) : list Z :=
  flat_map (fun l => match l with
                     | LCreateWritable _ (Some writable) => [writable]
                     | _ => []
                     end) trace.

Definition written (trace : list logged) : list Z :=
  flat_map (fun l => match l with
                     | LWrite writable _ true => [writable]
                     | _ => []
                     end) trace.

Definition closings (trace : list logged) : list Z :=
  flat_map (fun l => match l with LClose writable _ => [writable] | _ => [] end)
           trace.

(** The JSON texts handed to a file or to a blob, and the file names
    asked for. *)
Definition texts (trace : list logged) : list json_text :=
  flat_map (fun l => match l with
                     | LWrite _ text _ | LObjectURL text _ => [text]
                     | _ => []
                     end) trace.

Definition file_names (trace : list logged) : list jsstring :=
  flat_map (fun l => match l with
                     | LGetFileHandle _ fileName _
                     | LDownload _ fileName _ => [fileName]
                     | _ => []
                     end) trace.

Section ListeningSpec.
Context {host : Host}.

(** The content script of the page at [pathname] with document [doc]
    answers every extraction request sent to a tab. *)
Definition page_listens (env : shell) (pathname : jsstring) (doc : Document)
  : Prop :=
  forall past tabId,
    env _ past (Chrome (SendMessage tabId REQUEST))
    = inr (handleExtractMessage (Some REQUEST) pathname doc).

(** A tab whose content script listens from the start. *)
Definition listening_page (pathname : jsstring) (doc : Document) : browser :=
  fun X past call =>
    match call in chromeE T return T with
    | SendMessage _ type =>
        inr (handleExtractMessage (Some type) pathname doc)
    | CanUseScriptingApi => true
    | ExecuteScript _ _ => inr tt
    | ReloadTab _ => None
    | TabUpdates _ => []
    end.

End ListeningSpec.

(** * Properties *)

(** ** The document walker *)

Lemma Zseq_length start n : length (Zseq start n) = n.
Proof. revert start; induction n; intros; simpl; auto. Qed.

Lemma Zseq_app start n m :
  Zseq start (n + m) = Zseq start n ++ Zseq (start + Z.of_nat n) m.
Proof.
  revert start; induction n as [|n IH]; intros start.
  - simpl. now rewrite Z.add_0_r.
  - cbn [Nat.add Zseq app]. rewrite IH. do 3 f_equal. lia.
Qed.

Lemma Zseq_In start n z :
  In z (Zseq start n) <-> (start <= z < start + Z.of_nat n)%Z.
Proof.
  revert start; induction n as [|n IH]; intros start.
  - simpl. lia.
  - cbn [Zseq In]. rewrite IH. lia.
Qed.

Lemma Zseq_nth start n i z :
  nth_error (Zseq start n) i = Some z -> z = (start + Z.of_nat i)%Z.
Proof.
  revert start i; induction n as [|n IH]; intros start [|i]; simpl; try discriminate.
  - intros [= <-]. lia.
  - intros H. apply IH in H. lia.
Qed.

Ltac walker_simpl :=
  cbn [lessons nextSectionId nextLessonId currentSection opened].

Section WalkerFacts.
Context {host : Host}.

Lemma fold_push section items : forall ls n,
  fold_left (push_lesson section) items (ls, n)
  = (ls ++ map (fun '(i, item) => lesson_record section i item)
              (combine (Zseq n (length items)) items),
     (n + Z.of_nat (length items))%Z).
Proof.
  induction items as [|item items IH]; intros ls n.
  - simpl. now rewrite app_nil_r, Z.add_0_r.
  - cbn [fold_left push_lesson]. rewrite IH.
    cbn [length Zseq combine map]. rewrite <- app_assoc.
    cbn [app]. f_equal. lia.
Qed.

Lemma pushed_ids section items n :
  map id (map (fun '(i, item) => lesson_record section i item)
              (combine (Zseq n (length items)) items))
  = Zseq n (length items).
Proof.
  revert n; induction items as [|item items IH]; intros n; simpl; auto.
  now rewrite IH.
Qed.

Lemma pushed_length section items n :
  length (map (fun '(i, item) => lesson_record section i item)
              (combine (Zseq n (length items)) items))
  = length items.
Proof.
  rewrite length_map, length_combine, Zseq_length. apply Nat.min_id.
Qed.

Lemma pushed_section section items n l :
  In l (map (fun '(i, item) => lesson_record section i item)
            (combine (Zseq n (length items)) items)) ->
  sectionId l = sec_id section /\ sectionTitle l = sec_title section
  /\ sectionDuration l = sec_duration section.
Proof.
  rewrite in_map_iff. intros [[i item] [<- _]]. now simpl.
Qed.

(** One step of the walk, with the inner loop unfolded. *)
Lemma walk_node_header w node :
  is_header node = true ->
  walk_node w node
  = {| lessons := lessons w;
       nextSectionId := (nextSectionId w + 1)%Z;
       nextLessonId := nextLessonId w;
       currentSection := Some (header_section w node);
       opened := opened w ++ [header_section w node] |}.
Proof. unfold is_header, walk_node. now intros ->. Qed.

Lemma walk_node_other w node :
  is_header node = false -> is_lesson_list node = false ->
  walk_node w node = w.
Proof.
  unfold is_header, is_lesson_list, walk_node. intros -> H.
  simpl in H. now rewrite H.
Qed.

Lemma walk_node_list w node :
  is_lesson_list node = true ->
  let section := match currentSection w with
                 | Some s => s
                 | None => synthetic_section w
                 end in
  walk_node w node
  = {| lessons :=
         lessons w ++ map (fun '(i, item) => lesson_record section i item)
           (combine (Zseq (nextLessonId w) (length (n_items node)))
                    (n_items node));
       nextSectionId :=
         match currentSection w with
         | Some _ => nextSectionId w
         | None => (nextSectionId w + 1)%Z
         end;
       nextLessonId := (nextLessonId w + Z.of_nat (length (n_items node)))%Z;
       currentSection := Some section;
       opened :=
         match currentSection w with
         | Some _ => opened w
         | None => opened w ++ [synthetic_section w]
         end |}.
Proof.
  unfold is_lesson_list, walk_node. intros H.
  apply andb_true_iff in H as [Hg Hl].
  apply negb_true_iff in Hg. rewrite Hg, Hl. simpl.
  destruct (currentSection w); rewrite fold_push; reflexivity.
Qed.

Lemma node_role node :
  {is_header node = true}
  + {is_header node = false /\ is_lesson_list node = true}
  + {is_header node = false /\ is_lesson_list node = false}.
Proof.
  unfold is_header, is_lesson_list.
  destruct (matches_group node), (matches_list node); simpl; auto.
Qed.

Lemma walk_from_app w a b :
  walk_from w (a ++ b) = walk_from (walk_from w a) b.
Proof. apply fold_left_app. Qed.


Lemma ids_inv_step w node : ids_inv w -> ids_inv (walk_node w node).
Proof.
  intros [Hids Hnext].
  destruct (node_role node) as [[H|[H1 H2]]|[H1 H2]].
  - rewrite walk_node_header by assumption. now split.
  - rewrite walk_node_list by assumption. unfold ids_inv. walker_simpl.
    rewrite map_app, length_app, pushed_ids, pushed_length, Zseq_app, Hids, Hnext.
    split; [reflexivity | lia].
  - rewrite walk_node_other by assumption. now split.
Qed.

Lemma ids_inv_walk sequence : forall w, ids_inv w -> ids_inv (walk_from w sequence).
Proof.
  induction sequence as [|node rest IH]; intros w Hw; [exact Hw|].
  apply IH, ids_inv_step, Hw.
Qed.


(** The sections created, from any state of the walk. *)
Lemma walk_from_opened sequence : forall w,
  opened (walk_from w sequence)
  = opened w
    ++ number_sections (nextSectionId w)
         (section_sources
            (match currentSection w with None => true | Some _ => false end)
            sequence).
Proof.
  induction sequence as [|node rest IH]; intros w.
  - simpl. now rewrite app_nil_r.
  - cbn [walk_from fold_left section_sources].
    fold (walk_from (walk_node w node) rest). rewrite IH.
    destruct (node_role node) as [[H|[H1 H2]]|[H1 H2]].
    + rewrite walk_node_header by assumption. rewrite H. simpl.
      now rewrite <- app_assoc.
    + rewrite walk_node_list by assumption. rewrite H1, H2. simpl.
      destruct (currentSection w); simpl; [reflexivity|].
      now rewrite <- app_assoc.
    + rewrite walk_node_other by assumption. now rewrite H1, H2.
Qed.

Lemma number_sections_ids sid srcs :
  map sec_id (number_sections sid srcs) = Zseq sid (length srcs).
Proof.
  revert sid; induction srcs as [|src rest IH]; intros sid; simpl; auto.
  rewrite IH. now destruct src.
Qed.






End WalkerFacts.


Section SectionFacts.
Context {host : Host}.

Lemma pushed_id_range section items n l :
  In l (map (fun '(i, item) => lesson_record section i item)
            (combine (Zseq n (length items)) items)) ->
  (n <= id l < n + Z.of_nat (length items))%Z.
Proof.
  rewrite in_map_iff. intros [[i item] [<- Hin]].
  apply in_combine_l, Zseq_In in Hin. exact Hin.
Qed.

Lemma section_inv_init : section_inv walker_init.
Proof.
  unfold section_inv. simpl. repeat split; intros; contradiction.
Qed.

Lemma section_inv_step w node : section_inv w -> section_inv (walk_node w node).
Proof.
  intros (Hbound & Hmono & Hsame & Hcur).
  destruct (node_role node) as [[H|[H1 H2]]|[H1 H2]].
  - rewrite walk_node_header by assumption. unfold section_inv. walker_simpl.
    unfold header_section. cbn [sec_id sec_title sec_duration].
    split; [|split; [|split; [|split]]].
    + intros l Hl. apply Hbound in Hl. lia.
    + exact Hmono.
    + exact Hsame.
    + lia.
    + intros l Hl. apply Hbound in Hl. split; lia.
  - rewrite walk_node_list by assumption.
    set (s := match currentSection w with
              | Some s => s
              | None => synthetic_section w
              end).
    set (pushed := map (fun '(i, item) => lesson_record s i item)
                     (combine (Zseq (nextLessonId w) (length (n_items node)))
                              (n_items node))).
    set (next := match currentSection w with
                 | Some _ => nextSectionId w
                 | None => (nextSectionId w + 1)%Z
                 end).
    assert (Hs : (sec_id s < next)%Z
                 /\ forall l, In l (lessons w) ->
                      (sectionId l <= sec_id s)%Z
                      /\ (sectionId l = sec_id s -> agrees_with s l)).
    { subst s next. destruct (currentSection w) as [s|].
      - exact Hcur.
      - rewrite Hcur. unfold synthetic_section. simpl. split; [lia|].
        intros l []. }
    destruct Hs as [Hlt Hold].
    assert (Hge : (nextSectionId w <= next)%Z)
      by (subst next; destruct (currentSection w); lia).
    assert (Hnew : forall l, In l pushed ->
              (nextLessonId w <= id l
               < nextLessonId w + Z.of_nat (length (n_items node)))%Z
              /\ sectionId l = sec_id s /\ agrees_with s l).
    { intros l Hl. split; [now apply pushed_id_range in Hl|].
      apply pushed_section in Hl. unfold agrees_with. tauto. }
    unfold section_inv. walker_simpl.
    split; [|split; [|split; [|split]]].
    + intros l Hl. apply in_app_or in Hl as [Hl|Hl].
      * apply Hbound in Hl. lia.
      * apply Hnew in Hl. lia.
    + intros a b Ha Hb Hab.
      apply in_app_or in Ha as [Ha|Ha]; apply in_app_or in Hb as [Hb|Hb].
      * now apply Hmono.
      * apply Hold in Ha. apply Hnew in Hb. lia.
      * apply Hnew in Ha. apply Hbound in Hb. lia.
      * apply Hnew in Ha. apply Hnew in Hb. lia.
    + intros a b Ha Hb Hab.
      apply in_app_or in Ha as [Ha|Ha]; apply in_app_or in Hb as [Hb|Hb].
      * now apply Hsame.
      * apply Hnew in Hb as (_ & Eb & Tb & Db).
        apply Hold in Ha as [_ Ha]. rewrite Eb in Hab.
        destruct (Ha Hab) as [Ta Da]. now rewrite Ta, Da, Tb, Db.
      * apply Hnew in Ha as (_ & Ea & Ta & Da).
        apply Hold in Hb as [_ Hb]. rewrite Ea in Hab. symmetry in Hab.
        destruct (Hb Hab) as [Tb Db]. now rewrite Ta, Da, Tb, Db.
      * apply Hnew in Ha as (_ & _ & Ta & Da).
        apply Hnew in Hb as (_ & _ & Tb & Db). now rewrite Ta, Da, Tb, Db.
    + exact Hlt.
    + intros l Hl. apply in_app_or in Hl as [Hl|Hl].
      * now apply Hold.
      * apply Hnew in Hl as (_ & El & Al). split; [lia | now intros _].
  - now rewrite walk_node_other.
Qed.

Lemma section_inv_walk sequence : forall w,
  section_inv w -> section_inv (walk_from w sequence).
Proof.
  induction sequence as [|node rest IH]; intros w Hw; [exact Hw|].
  apply IH, section_inv_step, Hw.
Qed.

End SectionFacts.

(** C10.  In the lessons [extractLessons] produces, section ids do not
    decrease as lesson ids grow, and two lessons with the same section id
    carry the same section title and the same section duration. *)
Theorem lesson_sections_consistent {host : Host} (doc : Document) :
  (forall a b, In a (extractLessons doc) -> In b (extractLessons doc) ->
     (id a <= id b)%Z -> (sectionId a <= sectionId b)%Z)
  /\ (forall a b, In a (extractLessons doc) -> In b (extractLessons doc) ->
        sectionId a = sectionId b ->
        sectionTitle a = sectionTitle b
        /\ sectionDuration a = sectionDuration b).
Proof.
  unfold extractLessons, walk.
  destruct (section_inv_walk (d_sequence doc) section_inv_init)
    as (_ & Hmono & Hsame & _).
  split; assumption.
Qed.

(** ** The payload assembler *)

Lemma Set_add_In s x y : In y (Set_add s x) <-> In y s \/ y = x.
Proof.
  unfold Set_add. destruct (existsb (Z.eqb x) s) eqn:E.
  - apply existsb_exists in E as [z [Hz Hxz]]. apply Z.eqb_eq in Hxz. subst z.
    split; [tauto|]. intros [H| ->]; assumption.
  - rewrite in_app_iff. simpl. intuition.
Qed.

Lemma Set_add_NoDup s x : NoDup s -> NoDup (Set_add s x).
Proof.
  intros Hs. unfold Set_add. destruct (existsb (Z.eqb x) s) eqn:E; [exact Hs|].
  apply NoDup_app; [exact Hs | repeat constructor; intros [] |].
  intros y Hy [<-|[]].
  assert (existsb (Z.eqb x) s = true); [|congruence].
  apply existsb_exists. exists x. split; [exact Hy | apply Z.eqb_refl].
Qed.

Lemma Set_fold_In values : forall s y,
  In y (fold_left Set_add values s) <-> In y s \/ In y values.
Proof.
  induction values as [|x values IH]; intros s y; simpl.
  - tauto.
  - rewrite IH, Set_add_In. intuition.
Qed.

Lemma Set_fold_NoDup values : forall s,
  NoDup s -> NoDup (fold_left Set_add values s).
Proof.
  induction values as [|x values IH]; intros s Hs; simpl; [exact Hs|].
  apply IH, Set_add_NoDup, Hs.
Qed.

(** The size of the set is the number of distinct values. *)
Lemma Set_size_distinct values :
  Set_size (Set_new values) = Z.of_nat (length (nodup Z.eq_dec values)).
Proof.
  unfold Set_size, Set_new. f_equal. apply Permutation_length.
  apply NoDup_Permutation.
  - apply Set_fold_NoDup. constructor.
  - apply NoDup_nodup.
  - intros y. rewrite Set_fold_In, nodup_In. simpl. tauto.
Qed.

Lemma filter_finite_ids (values : list Z) :
  filter (fun sectionId => Number_isFinite (num_of_Z sectionId)) values = values.
Proof.
  induction values as [|v values IH]; [reflexivity|].
  cbn [filter]. unfold num_of_Z at 1. cbn [Number_isFinite]. now rewrite IH.
Qed.

Lemma Zseq_NoDup start n : NoDup (Zseq start n).
Proof.
  revert start; induction n as [|n IH]; intros start; simpl; constructor.
  - rewrite Zseq_In. lia.
  - apply IH.
Qed.

Section OwnerFacts.
Context {host : Host}.

Lemma owner_inv_step w node : owner_inv w -> owner_inv (walk_node w node).
Proof.
  intros [Hls Hcur].
  destruct (node_role node) as [[H|[H1 H2]]|[H1 H2]].
  - rewrite walk_node_header by assumption. unfold owner_inv. walker_simpl.
    split.
    + intros l Hl. rewrite map_app, in_app_iff. left. now apply Hls.
    + apply in_app_iff. right. now left.
  - rewrite walk_node_list by assumption. unfold owner_inv. walker_simpl.
    assert (Hs : In (match currentSection w with
                     | Some s => s
                     | None => synthetic_section w
                     end)
                    (match currentSection w with
                     | Some _ => opened w
                     | None => opened w ++ [synthetic_section w]
                     end)).
    { destruct (currentSection w); [exact Hcur|].
      apply in_app_iff. right. now left. }
    split; [|exact Hs].
    intros l Hl. apply in_app_or in Hl as [Hl|Hl].
    + apply Hls in Hl. destruct (currentSection w); [exact Hl|].
      rewrite map_app, in_app_iff. now left.
    + apply pushed_section in Hl as [-> _]. now apply in_map.
  - now rewrite walk_node_other.
Qed.

Lemma owner_inv_walk sequence : forall w,
  owner_inv w -> owner_inv (walk_from w sequence).
Proof.
  induction sequence as [|node rest IH]; intros w Hw; [exact Hw|].
  apply IH, owner_inv_step, Hw.
Qed.

Lemma owners_filter ls (secs : list SectionRecord) :
  map sec_id (filter (owns_a_lesson ls) secs)
  = filter (fun sid => existsb (fun l => (sectionId l =? sid)%Z) ls)
           (map sec_id secs).
Proof.
  induction secs as [|s secs IH]; simpl; [reflexivity|].
  unfold owns_a_lesson at 1. destruct (existsb _ ls); simpl; now rewrite IH.
Qed.

(** The distinct section ids of the lessons are the ids of the sections
    created that own a lesson. *)
Lemma distinct_sections_owned sequence :
  length (nodup Z.eq_dec (map sectionId (lessons (walk sequence))))
  = length (filter (owns_a_lesson (lessons (walk sequence)))
                   (opened (walk sequence))).
Proof.
  rewrite <- (length_map sec_id (filter _ _)), owners_filter.
  apply Permutation_length, NoDup_Permutation.
  - apply NoDup_nodup.
  - apply NoDup_filter.
    unfold walk. rewrite walk_from_opened.
    change (opened walker_init) with (@nil SectionRecord). cbn [app].
    rewrite number_sections_ids. apply Zseq_NoDup.
  - intros sid. rewrite nodup_In, filter_In, existsb_exists, in_map_iff.
    split.
    + intros (l & <- & Hl). split.
      * now apply (owner_inv_walk sequence (w := walker_init)); [split|].
      * exists l. split; [exact Hl | apply Z.eqb_refl].
    + intros (_ & l & Hl & E). apply Z.eqb_eq in E. now exists l.
Qed.

End OwnerFacts.

(** C2.  When extraction succeeds, [sectionCount] is the number of
    distinct section ids among the lessons of the payload, which is the
    number of sections created that own a lesson (a header with no lesson
    under it took an id and is not counted), and [lessonCount] is the
    length of the lesson list. *)
Theorem payload_counts {host : Host} (pathname : jsstring) (doc : Document)
    (r : ExtractCoursePayloadResult) :
  extractCoursePayload pathname doc = Ok r ->
  let courseData := p_courseData (payload r) in
  let ls := p_lessons (payload r) in
  sectionCount courseData
  = Some (Z.of_nat (length (nodup Z.eq_dec (map sectionId ls))))
  /\ lessonCount courseData = Some (Z.of_nat (length ls))
  /\ ls = extractLessons doc
  /\ sectionCount courseData
     = Some (Z.of_nat (length (filter (owns_a_lesson ls)
                                      (opened (walk (d_sequence doc))))))
  /\ length (filter (owns_a_lesson ls) (opened (walk (d_sequence doc))))
     <= length (opened (walk (d_sequence doc))).
Proof.
  unfold extractCoursePayload.
  destruct (truthy (getCourseSlug pathname)); [|discriminate].
  destruct (extractCourseData doc) as [cd|e]; [|discriminate].
  cbn [negb bind]. destruct (truthy (courseTitle cd)); [|discriminate].
  cbn [negb]. intros [= <-]. cbn [payload p_courseData p_lessons sectionCount lessonCount].
  rewrite filter_finite_ids, Set_size_distinct.
  unfold extractLessons. rewrite distinct_sections_owned.
  repeat split. apply filter_length_le.
Qed.

Lemma payload_counts_witness :
  exists r,
    extractCoursePayload (host := sample_host) (js "/courses/demo/") sample_doc
    = Ok r
    /\ sectionCount (p_courseData (payload r))
       = Some (Z.of_nat (length (nodup Z.eq_dec
                                   (map sectionId (p_lessons (payload r))))))
    /\ lessonCount (p_courseData (payload r))
       = Some (Z.of_nat (length (p_lessons (payload r)))).
Proof.
  eexists. split; [vm_compute; reflexivity|].
  split; eapply (payload_counts (host := sample_host) (js "/courses/demo/")
                   sample_doc); vm_compute; reflexivity.
Defined.

(** On the sample page two sections are created and one is counted. *)
Example empty_header_not_counted :
  option_map (fun r => sectionCount (p_courseData (payload r)))
    (match extractCoursePayload (host := sample_host) (js "/courses/demo/")
             sample_doc with Ok r => Some r | Throw _ => None end)
  = Some (Some 1%Z)
  /\ map sec_id (opened (walk (host := sample_host) (d_sequence sample_doc)))
     = [1001%Z; 1002%Z]
  /\ map sectionId (extractLessons (host := sample_host) sample_doc)
     = [1002%Z; 1002%Z].
Proof. vm_compute. repeat split. Qed.

(** ** Doubles *)

Lemma Qred_inject_Z z : Qred (inject_Z z) = inject_Z z.
Proof.
  unfold Qred, inject_Z.
  generalize (Z.ggcd_gcd z 1) (Z.ggcd_correct_divisors z 1).
  destruct (Z.ggcd z 1) as [g [a b]]. cbn [fst snd].
  rewrite Z.gcd_1_r. intros -> [Ha Hb].
  assert (Ea : a = z) by lia. assert (Eb : b = 1%Z) by lia.
  now subst a b.
Qed.

Lemma Qred_eq_Z q z : q == inject_Z z -> Qred q = inject_Z z.
Proof.
  intros H. rewrite (Qred_complete _ _ H). apply Qred_inject_Z.
Qed.

(** *** Powers of two *)

Lemma pow2_pos k : (0 < pow2 k)%Q.
Proof. unfold pow2. apply Qpower_0_lt. reflexivity. Qed.

Lemma pow2_plus a b : pow2 (a + b) == pow2 a * pow2 b.
Proof. unfold pow2. apply Qpower_plus. discriminate. Qed.

Lemma pow2_Z k : (0 <= k)%Z -> pow2 k == inject_Z (2 ^ k).
Proof.
  intros H. unfold pow2. rewrite Zpower_Qpower by exact H. reflexivity.
Qed.

Lemma pow2_ge_1 k : (0 <= k)%Z -> (1 <= pow2 k)%Q.
Proof.
  intros H. rewrite (pow2_Z H). change 1%Q with (inject_Z 1).
  rewrite <- Zle_Qle. pose proof (Z.pow_pos_nonneg 2 k). lia.
Qed.

Lemma pow2_le a b : (a <= b)%Z -> (pow2 a <= pow2 b)%Q.
Proof.
  intros H. replace b with (a + (b - a))%Z by lia. rewrite pow2_plus.
  pose proof (pow2_pos a). pose proof (@pow2_ge_1 (b - a) ltac:(lia)).
  nra.
Qed.

Lemma pow2_opp k : pow2 k * pow2 (- k) == 1.
Proof.
  rewrite <- pow2_plus. replace (k + - k)%Z with 0%Z by lia. reflexivity.
Qed.

Lemma Q_as_quotient (a : Q) :
  a * inject_Z (Zpos (Qden a)) == inject_Z (Qnum a).
Proof.
  destruct a as [p d]. cbn [Qnum Qden]. unfold Qeq, Qmult, inject_Z.
  cbn [Qnum Qden]. lia.
Qed.

Lemma log2_bounds (p : Z) :
  (0 < p)%Z ->
  (pow2 (Z.log2 p) <= inject_Z p)%Q /\ (inject_Z p < pow2 (Z.log2 p + 1))%Q.
Proof.
  intros H. destruct (Z.log2_spec p H) as [Hl Hu].
  pose proof (Z.log2_nonneg p) as Hn.
  rewrite !pow2_Z by lia. rewrite <- Zle_Qle, <- Zlt_Qlt.
  split; [exact Hl|]. now rewrite <- Z.add_1_r in Hu.
Qed.

Lemma ilog2_lower a : (0 < a)%Q -> (pow2 (ilog2 a) <= a)%Q.
Proof.
  intros Ha. unfold ilog2.
  destruct (Qle_bool _ a) eqn:E; [now apply Qle_bool_iff|].
  assert (Hp : (0 < Qnum a)%Z) by (unfold Qlt in Ha; cbn in Ha; lia).
  destruct (log2_bounds Hp) as [Hl _].
  destruct (@log2_bounds (Zpos (Qden a)) eq_refl) as [_ Hu].
  pose proof (Q_as_quotient a) as Hq.
  set (lp := Z.log2 (Qnum a)) in *. set (ld := Z.log2 (Zpos (Qden a))) in *.
  replace (lp - ld - 1)%Z with (lp + - (ld + 1))%Z by lia.
  rewrite pow2_plus.
  pose proof (pow2_opp (ld + 1)) as Ho.
  pose proof (pow2_pos lp). pose proof (pow2_pos (ld + 1)).
  pose proof (pow2_pos (- (ld + 1))).
  assert (HD : (0 < inject_Z (Zpos (Qden a)))%Q) by reflexivity.
  set (D := inject_Z (Zpos (Qden a))) in *. set (P := inject_Z (Qnum a)) in *.
  set (X := pow2 lp) in *. set (Y := pow2 (ld + 1)) in *.
  set (Y' := pow2 (- (ld + 1))) in *.
  apply Qnot_lt_le. intros Hlt.
  assert (a * D < X * Y' * D)%Q by nra.
  assert (X * Y' * D < X * Y' * Y)%Q by nra.
  nra.
Qed.


(** *** Rounding *)

Lemma round_half_even_floor x :
  (Qfloor x <= round_half_even x <= Qfloor x + 1)%Z.
Proof.
  unfold round_half_even.
  destruct (x - inject_Z (Qfloor x) ?= 1 # 2)%Q;
    [destruct (Z.even (Qfloor x))|..]; lia.
Qed.

Lemma round_half_even_above x j :
  (inject_Z j <= x)%Q -> (j <= round_half_even x)%Z.
Proof.
  intros H. pose proof (round_half_even_floor x) as [Hf _].
  apply Qfloor_resp_le in H. rewrite Qfloor_Z in H. lia.
Qed.

Lemma round_half_even_below x j :
  (x <= inject_Z j)%Q -> (round_half_even x <= j)%Z.
Proof.
  intros H. pose proof (round_half_even_floor x) as [_ Hc].
  pose proof (Qfloor_le x) as Hfl.
  pose proof (Qfloor_resp_le _ _ H) as Hfj. rewrite Qfloor_Z in Hfj.
  destruct (Z.eq_dec (Qfloor x) j) as [E|N]; [|lia].
  unfold round_half_even.
  assert (Hx : (x - inject_Z (Qfloor x) ?= 1 # 2)%Q = Lt).
  { apply (proj1 (Qlt_alt _ _)). rewrite E in *. set (qj := inject_Z j) in *.
    clearbody qj. lra. }
  rewrite Hx. lia.
Qed.

Lemma inject_Z_pow2 j k :
  (0 <= k)%Z -> inject_Z j * pow2 k == inject_Z (j * 2 ^ k).
Proof. intros H. rewrite (pow2_Z H), inject_Z_mult. reflexivity. Qed.

(** The double nearest to [a] lies between the multiples of [2^k] around
    [a], for every [k] that is fine enough for doubles of the size of [a]. *)
Lemma round_magnitude_grid a k j :
  (0 < a)%Q -> (a < pow2 (k + 53))%Q -> (-1074 <= k)%Z ->
  ((inject_Z j * pow2 k <= a)%Q ->
   (inject_Z j * pow2 k <= round_magnitude a)%Q)
  /\ ((a <= inject_Z j * pow2 k)%Q ->
      (round_magnitude a <= inject_Z j * pow2 k)%Q).
Proof.
  intros Ha Hk Hmin. unfold round_magnitude.
  set (u := (Z.max (ilog2 a) (-1022) - 52)%Z).
  assert (Hu : (u <= k)%Z).
  { assert (ilog2 a < k + 53)%Z; [|lia].
    apply Z.lt_nge. intros Hge.
    pose proof (ilog2_lower Ha). pose proof (pow2_le Hge). lra. }
  assert (Hj : inject_Z j * pow2 k == inject_Z (j * 2 ^ (k - u)) * pow2 u).
  { rewrite <- inject_Z_pow2 by lia. rewrite <- Qmult_assoc, <- pow2_plus.
    now replace (k - u + u)%Z with k by lia. }
  rewrite !Hj. set (J := (j * 2 ^ (k - u))%Z).
  pose proof (pow2_pos u) as Hpu. pose proof (pow2_pos (- u)) as Hpu'.
  pose proof (pow2_opp u) as Ho.
  set (n := round_half_even (a * pow2 (- u))).
  split; intros H.
  - assert (Hn : (J <= n)%Z).
    { apply round_half_even_above.
      set (U := pow2 u) in *. set (U' := pow2 (- u)) in *.
      set (QJ := inject_Z J) in *.
      assert (QJ * U * U' <= a * U')%Q by nra. nra. }
    rewrite Zle_Qle in Hn. fold n in Hn |- *. set (qn := inject_Z n) in *. set (QJ := inject_Z J) in *. nra.
  - assert (Hn : (n <= J)%Z).
    { apply round_half_even_below.
      set (U := pow2 u) in *. set (U' := pow2 (- u)) in *.
      set (QJ := inject_Z J) in *.
      assert (a * U' <= QJ * U * U')%Q by nra. nra. }
    rewrite Zle_Qle in Hn. fold n in Hn |- *. set (qn := inject_Z n) in *. set (QJ := inject_Z J) in *. nra.
Qed.

Lemma round_magnitude_exact a k j :
  (0 < a)%Q -> (a < pow2 (k + 53))%Q -> (-1074 <= k)%Z ->
  a == inject_Z j * pow2 k -> round_magnitude a == a.
Proof.
  intros Ha Hk Hmin E.
  destruct (@round_magnitude_grid a k j Ha Hk Hmin) as [Hl Hu].
  apply Qle_antisym.
  - rewrite E at 2. apply Hu. rewrite E. apply Qle_refl.
  - rewrite E at 1. apply Hl. rewrite E. apply Qle_refl.
Qed.

Lemma Fin_inj p q : Fin p = Fin q -> p = q.
Proof. now intros [= ->]. Qed.

Lemma Qis_zero_iff q : Qis_zero q = true <-> q == 0.
Proof.
  unfold Qis_zero, Qeq. cbn [Qnum Qden]. rewrite Z.eqb_eq. lia.
Qed.

Lemma Qis_neg_iff q : Qis_neg q = true <-> (q < 0)%Q.
Proof.
  unfold Qis_neg, Qlt. cbn [Qnum Qden]. rewrite Z.ltb_lt. lia.
Qed.

Lemma round_magnitude_nonneg a : (0 <= a)%Q -> (0 <= round_magnitude a)%Q.
Proof.
  intros Ha. unfold round_magnitude.
  set (u := (Z.max (ilog2 a) (-1022) - 52)%Z).
  pose proof (pow2_pos u). pose proof (pow2_pos (- u)).
  assert (Hn : (0 <= round_half_even (a * pow2 (- u)))%Z).
  { apply round_half_even_above. change (inject_Z 0) with 0%Q. nra. }
  rewrite Zle_Qle in Hn. change (inject_Z 0) with 0%Q in Hn. nra.
Qed.

(** How [round64] rounds a positive rational. *)
Lemma round64_positive q :
  (0 < q)%Q ->
  round64 q
  = if Qle_bool (pow2 1024) (round_magnitude (Qred q)) then Inf false
    else Fin (Qred (round_magnitude (Qred q))).
Proof.
  intros Hq. unfold round64.
  assert (Hr : (0 < Qred q)%Q) by now rewrite Qred_correct.
  replace (Qis_zero (Qred q)) with false.
  2:{ symmetry. apply not_true_is_false. rewrite Qis_zero_iff. lra. }
  replace (Qis_neg (Qred q)) with false.
  2:{ symmetry. apply not_true_is_false. rewrite Qis_neg_iff. lra. }
  replace (Qabs (Qred q)) with (Qred q); [reflexivity|].
  destruct (Qred q) as [[|p|p] d]; try reflexivity.
  exfalso. unfold Qlt in Hr. cbn in Hr. lia.
Qed.

(** A positive rational of the size of a double with last bit [2^k] is
    rounded to a finite double that no multiple of [2^k] separates from
    it. *)
Lemma round64_between q k :
  (0 < q)%Q -> (q < pow2 (k + 53))%Q -> (-1074 <= k <= 970)%Z ->
  exists R,
    round64 q = Fin R
    /\ forall j,
         ((inject_Z j * pow2 k <= q)%Q -> (inject_Z j * pow2 k <= R)%Q)
         /\ ((q <= inject_Z j * pow2 k)%Q -> (R <= inject_Z j * pow2 k)%Q).
Proof.
  intros Hq Hk Hrange. rewrite (round64_positive Hq).
  assert (Hr : (0 < Qred q)%Q) by now rewrite Qred_correct.
  assert (Hk' : (Qred q < pow2 (k + 53))%Q) by now rewrite Qred_correct.
  assert (Hgrid := fun j => @round_magnitude_grid (Qred q) k j Hr Hk'
                             ltac:(lia)).
  set (r := round_magnitude (Qred q)) in *.
  assert (Hfin : Qle_bool (pow2 1024) r = false).
  { apply not_true_is_false. rewrite Qle_bool_iff. intros Hover.
    destruct (Hgrid (2 ^ 53)%Z) as [_ Hu].
    rewrite <- (@pow2_Z 53) in Hu by lia. rewrite <- pow2_plus in Hu.
    replace (53 + k)%Z with (k + 53)%Z in Hu by lia.
    pose proof (Hu (Qlt_le_weak _ _ Hk')) as Hle.
    assert (Hs : (k + 53 + 1 <= 1024)%Z) by lia.
    pose proof (pow2_le Hs) as Hp.
    rewrite pow2_plus in Hp. pose proof (pow2_pos (k + 53)).
    change (pow2 1) with 2%Q in Hp. lra. }
  rewrite Hfin. exists (Qred r). split; [reflexivity|].
  intros j. destruct (Hgrid j) as [Hl Hu].
  rewrite (Qred_correct q) in Hl, Hu. rewrite !Qred_correct.
  split; assumption.
Qed.

(** An integer below 2^53 in magnitude is a double. *)
Lemma round64_Z q z :
  q == inject_Z z -> (Z.abs z < 2 ^ 53)%Z -> round64 q = num_of_Z z.
Proof.
  intros E Hz. destruct (Z.eq_dec z 0) as [->|Hnz].
  - unfold round64. rewrite (Qred_eq_Z E). reflexivity.
  - assert (Habs : (0 < inject_Z (Z.abs z))%Q).
    { change 0%Q with (inject_Z 0). rewrite <- Zlt_Qlt. lia. }
    assert (Hlt : (inject_Z (Z.abs z) < pow2 (0 + 53))%Q).
    { rewrite pow2_Z by lia. rewrite <- Zlt_Qlt. exact Hz. }
    destruct (@round64_between (inject_Z (Z.abs z)) 0 Habs Hlt ltac:(lia))
      as (R & HR & Hgrid).
    destruct (Hgrid (Z.abs z)) as [Hl Hu].
    change (pow2 0) with 1%Q in Hl, Hu. rewrite Qmult_1_r in Hl, Hu.
    assert (ER : R == inject_Z (Z.abs z)).
    { apply Qle_antisym; [apply Hu | apply Hl]; apply Qle_refl. }
    rewrite (round64_positive Habs) in HR.
    unfold round64. rewrite (Qred_eq_Z E).
    replace (Qis_zero (inject_Z z)) with false
      by (symmetry; apply Z.eqb_neq; exact Hnz).
    change (Qabs (inject_Z z)) with (inject_Z (Z.abs z)).
    rewrite Qred_inject_Z in HR.
    destruct (Qle_bool (pow2 1024) (round_magnitude (inject_Z (Z.abs z))));
      [discriminate HR|].
    apply Fin_inj in HR. unfold num_of_Z. f_equal. apply Qred_eq_Z.
    assert (Erm : round_magnitude (inject_Z (Z.abs z)) == inject_Z (Z.abs z)).
    { rewrite <- (Qred_correct (round_magnitude _)), HR. exact ER. }
    clear ER. rename Erm into ER.
    destruct (Qis_neg (inject_Z z)) eqn:Hneg.
    + apply Qis_neg_iff in Hneg. change 0%Q with (inject_Z 0) in Hneg.
      rewrite <- Zlt_Qlt in Hneg. rewrite ER.
      rewrite <- inject_Z_opp. replace (- Z.abs z)%Z with z by lia.
      reflexivity.
    + rewrite ER. replace (Z.abs z) with z; [reflexivity|].
      assert (~ (z < 0)%Z); [|lia].
      intros Hlt0. apply not_true_iff_false in Hneg. apply Hneg.
      apply Qis_neg_iff. change 0%Q with (inject_Z 0).
      now rewrite <- Zlt_Qlt.
Qed.

(** Rounding keeps a number that is not negative so. *)
Lemma round64_nonneg q :
  (0 <= q)%Q ->
  round64 q = Inf false \/ exists r, round64 q = Fin r /\ (0 <= r)%Q.
Proof.
  intros Hq. destruct (Qeq_dec q 0) as [E|N].
  - right. exists 0%Q. split; [|apply Qle_refl].
    apply (@round64_Z q 0 E). reflexivity.
  - assert (Hpos : (0 < q)%Q) by (apply Qle_lteq in Hq as [H|H];
      [exact H | elim N; now symmetry]).
    rewrite (round64_positive Hpos).
    destruct (Qle_bool _ _); [now left|]. right.
    eexists. split; [reflexivity|]. rewrite Qred_correct.
    apply round_magnitude_nonneg. rewrite Qred_correct. exact Hq.
Qed.


Lemma Qfloor_unique x m :
  (inject_Z m <= x)%Q -> (x < inject_Z (m + 1))%Q -> Qfloor x = m.
Proof.
  intros Hl Hu.
  pose proof (Qfloor_le x) as H1. pose proof (Qlt_floor x) as H2.
  assert (Ha : (inject_Z (Qfloor x) < inject_Z (m + 1))%Q) by lra.
  assert (Hb : (inject_Z m < inject_Z (Qfloor x + 1))%Q) by lra.
  rewrite <- Zlt_Qlt in Ha, Hb. lia.
Qed.

(** The rounding and the printing on numbers whose doubles are known. *)
Example round64_examples :
  round64 (1 # 10) = Fin (3602879701896397 # 36028797018963968)
  /\ round64 (inject_Z 9007199254740993) = num_of_Z 9007199254740992
  /\ round64 (inject_Z 9007199254740995) = num_of_Z 9007199254740996
  /\ round64 (inject_Z (10 ^ 23)) = num_of_Z 99999999999999991611392
  /\ round64 (inject_Z (10 ^ 400)) = Inf false
  /\ round64 (- inject_Z (10 ^ 400)) = Inf true
  /\ round64 (pow2 (-1075)) = Fin 0
  /\ round64 (3 * pow2 (-1075)) = Fin (Qred (pow2 (-1073))).
Proof. vm_compute. repeat split. Qed.

Example Number_toString_examples :
  map (fun q => Number_toString (round64 q))
      [1 # 10; 15 # 2; - (5 # 4); 1 # 3; 1 # 10000000; 1 # 1000000;
       inject_Z (10 ^ 21); inject_Z (10 ^ 21) - 1; inject_Z (10 ^ 23);
       inject_Z (2 ^ 53); inject_Z (2 ^ 60); 123456789012345678901 # 1;
       pow2 (-1074); pow2 1023 * (2 - pow2 (-52))]%Q
  = map js
      ["0.1"; "7.5"; "-1.25"; "0.3333333333333333"; "1e-7"; "0.000001";
       "1e+21"; "1e+21"; "1e+23";
       "9007199254740992"; "1152921504606847000"; "123456789012345680000";
       "5e-324"; "1.7976931348623157e+308"]%string.
Proof. vm_compute. reflexivity. Qed.

(** On integers below 2^53 the shortest decimal is the integer in full. *)
Example integers_in_full :
  forallb (fun z => str_eqb (positive_toString (inject_Z z)) (Z_to_string z))
          [1; 7; 10; 12; 100; 1200; 12345; 1000000; 99999999;
           4503599627370496; 9007199254740990; 9007199254740991]%Z
  = true.
Proof. vm_compute. reflexivity. Qed.

(** ** The task list *)

Lemma Number_toString_Z z :
  safe_integer z -> Number_toString (num_of_Z z) = Z_to_string z.
Proof.
  intros Hz. unfold Number_toString, num_of_Z. rewrite Qred_inject_Z.
  cbn [inject_Z Qnum Qden]. apply Z.ltb_lt in Hz. now rewrite Hz.
Qed.

Lemma string_field_as_view (f : LessonFields -> option jsstring)
    (g : LessonView -> option jsvalue) l :
  g (as_view l) = option_map VString (f l) ->
  string_field g (Some (as_view l)) = or_empty (f l).
Proof.
  intros E. unfold string_field. rewrite E.
  destruct (f l) as [[|c s]|]; reflexivity.
Qed.

Lemma task_of_present l : task_of (Some (as_view l)) = task_spec l.
Proof.
  unfold task_of, task_spec.
  rewrite (string_field_as_view f_title v_title l eq_refl).
  rewrite (string_field_as_view f_duration v_duration l eq_refl).
  rewrite (string_field_as_view f_lessonUrl v_lessonUrl l eq_refl).
  cbn [as_view v_id]. now destruct (f_id l).
Qed.

Lemma string_field_received (s : jsstring) (g : LessonView -> option jsvalue) l :
  g l = Some (VString s) -> string_field g (Some l) = s.
Proof.
  intros E. unfold string_field. rewrite E. now destruct s.
Qed.

Lemma task_of_received l :
  safe_integer (id l) -> task_of (Some (view_of l)) = task_of_lesson l.
Proof.
  intros Hid. unfold task_of, task_of_lesson.
  rewrite (@string_field_received (title l) v_title (view_of l) eq_refl).
  rewrite (@string_field_received (duration l) v_duration (view_of l) eq_refl).
  rewrite (@string_field_received (lessonUrl l) v_lessonUrl (view_of l) eq_refl).
  cbn [view_of v_id String_of]. now rewrite (Number_toString_Z Hid).
Qed.

Lemma In_Zseq x n : forall start,
  In x (Zseq start n) -> (start <= x < start + Z.of_nat n)%Z.
Proof.
  induction n as [|n IH]; intros start; cbn [Zseq]; [contradiction|].
  intros [<- | H]; [lia|]. apply IH in H. lia.
Qed.

(** The ids of the lessons of a page are counters. *)
Lemma extractLessons_ids {host : Host} doc l :
  In l (extractLessons doc) ->
  (1 <= id l <= Z.of_nat (length (extractLessons doc)))%Z.
Proof.
  intros Hl. unfold extractLessons in *.
  assert (ids_inv (walk (d_sequence doc))) as [Hid _].
  { apply ids_inv_walk. split; reflexivity. }
  apply (in_map id) in Hl. rewrite Hid in Hl. apply In_Zseq in Hl. lia.
Qed.

(** C9.  [buildV2Payload] makes one task per lesson, in the order of the
    lessons: the content is "{id}. {title} []" and the description
    "- Duration: {duration} min\n- Url: {url}", the id written by [String]
    and a missing field being rendered as the empty string; a payload
    without a lesson array gives no task.  On the payload the content
    script sends the id is a counter and is written in decimal digits: so
    for every list of lessons whose ids are below 2^53, and for the lessons
    of every page with fewer than 2^53 lessons.  [String] writes an id that
    is not such a counter in its own way: 10^21 as "1e+21", [null] as
    "null"; only a missing id is left out. *)
Theorem buildV2Payload_projection :
  (forall ls : list LessonFields,
     buildV2Payload
       (Some {| v_lessons := Some (map (fun l => Some (as_view l)) ls) |})
     = map task_spec ls)
  /\ (forall ls : list (option LessonView),
        buildV2Payload (Some {| v_lessons := Some ls |}) = map task_of ls
        /\ length (buildV2Payload (Some {| v_lessons := Some ls |}))
           = length ls)
  /\ buildV2Payload None = []
  /\ buildV2Payload (Some {| v_lessons := None |}) = []
  /\ (forall p : Payload,
        (forall l, In l (p_lessons p) -> safe_integer (id l)) ->
        buildV2Payload (Some (received p)) = map task_of_lesson (p_lessons p))
  /\ (forall (host : Host) (doc : Document) (cd : CourseData),
        (Z.of_nat (length (extractLessons doc)) < 2 ^ 53)%Z ->
        buildV2Payload
          (Some (received {| p_courseData := cd;
                             p_lessons := extractLessons doc |}))
        = map task_of_lesson (extractLessons doc))
  /\ task_of (Some {| v_id := None; v_title := None;
                      v_duration := None; v_lessonUrl := None |})
     = {| content := js ".  []";
          task_description := js "- Duration:  min" ++ [10%N] ++ js "- Url: " |}
  /\ task_of None = task_of (Some {| v_id := None; v_title := None;
                                     v_duration := None; v_lessonUrl := None |})
  /\ content (task_of (Some {| v_id := Some (VNumber (num_of_Z 12));
                               v_title := Some (VString (js "Intro"));
                               v_duration := Some (VString (js "3"));
                               v_lessonUrl := None |}))
     = js "12. Intro []"
  /\ content (task_of (Some {| v_id := Some (VNumber (num_of_Z (10 ^ 21)));
                               v_title := Some (VString (js "T"));
                               v_duration := None; v_lessonUrl := None |}))
     = js "1e+21. T []"
  /\ content (task_of (Some {| v_id := Some VNull;
                               v_title := Some (VString (js "T"));
                               v_duration := None; v_lessonUrl := None |}))
     = js "null. T []".
Proof.
  assert (Hrec : forall p : Payload,
            (forall l, In l (p_lessons p) -> safe_integer (id l)) ->
            buildV2Payload (Some (received p))
            = map task_of_lesson (p_lessons p)).
  { intros p Hp. unfold buildV2Payload, received. cbn [v_lessons].
    rewrite map_map. apply map_ext_in. intros l Hl.
    apply task_of_received, Hp, Hl. }
  split; [|split; [|split; [|split; [|split; [exact Hrec|split]]]]].
  - intros ls. unfold buildV2Payload. cbn [v_lessons]. rewrite map_map.
    apply map_ext. intros l. apply task_of_present.
  - intros ls. unfold buildV2Payload. cbn [v_lessons].
    split; [reflexivity | apply length_map].
  - reflexivity.
  - reflexivity.
  - intros host doc cd Hn. apply Hrec. cbn [p_lessons]. intros l Hl.
    apply extractLessons_ids in Hl. unfold safe_integer. lia.
  - repeat split; vm_compute; reflexivity.
Qed.

(** ** Numbers and digits *)

Ltac bool_cases :=
  repeat match goal with
         | |- context [(?a <=? ?b)%N] => destruct (N.leb_spec a b); try lia
         | |- context [(?a =? ?b)%N] => destruct (N.eqb_spec a b); try lia
         | |- context [(?a <? ?b)%N] => destruct (N.ltb_spec a b); try lia
         end.

Lemma is_digit_range c : is_digit c = true <-> (48 <= c <= 57)%N.
Proof.
  unfold is_digit. rewrite andb_true_iff, !N.leb_le. tauto.
Qed.

Lemma digit_not_ws c : is_digit c = true -> is_ws c = false.
Proof.
  rewrite is_digit_range. intros H. unfold is_ws. bool_cases; reflexivity.
Qed.

Lemma drop_ws_id c s : is_ws c = false -> drop_ws (c :: s) = c :: s.
Proof. intros H. simpl. now rewrite H. Qed.

Lemma trim_digit_run s : digit_run s -> trim s = s.
Proof.
  intros [Hne Hall]. unfold trim.
  assert (Hd : forall t, t <> [] -> forallb is_digit t = true -> drop_ws t = t).
  { intros [|c t] Ht Hf; [contradiction|].
    apply drop_ws_id, digit_not_ws. simpl in Hf.
    now apply andb_true_iff in Hf. }
  rewrite (Hd s Hne Hall). rewrite Hd.
  - apply rev_involutive.
  - intros E. apply Hne. apply (f_equal (@rev N)) in E.
    now rewrite rev_involutive in E.
  - rewrite forallb_forall in *. intros c Hc. apply Hall. now apply in_rev.
Qed.

Lemma span_digits s : forallb is_digit s = true -> span is_digit s = (s, []).
Proof.
  induction s as [|c s IH]; simpl; [reflexivity|].
  intros H. apply andb_true_iff in H as [Hc Hs]. now rewrite Hc, IH.
Qed.

Lemma digit_run_not_prefixed s :
  digit_run s -> parse_non_decimal s = None.
Proof.
  intros [_ Hall]. destruct s as [|c0 [|x [|d s]]]; try reflexivity.
  simpl in Hall. apply andb_true_iff in Hall as [_ Hall].
  apply andb_true_iff in Hall as [Hx _]. apply is_digit_range in Hx.
  unfold parse_non_decimal. destruct (negb (c0 =? 48)%N); [reflexivity|].
  bool_cases; reflexivity.
Qed.

Lemma digits_value_nonneg s : (0 <= digits_value s)%Z.
Proof.
  unfold digits_value.
  assert (H : forall acc, (0 <= acc)%Z ->
            (0 <= fold_left (fun a c => 10 * a + digit_of c) s acc)%Z).
  { induction s as [|c s IH]; intros acc Hacc; cbn [fold_left]; [exact Hacc|].
    apply IH. unfold digit_of. lia. }
  apply H. lia.
Qed.

Lemma round64_comp p q : p == q -> round64 p = round64 q.
Proof. intros E. unfold round64. now rewrite (Qred_complete _ _ E). Qed.

Lemma Number_of_Z_safe z : safe_integer z -> Number_of_Z z = num_of_Z z.
Proof. intros Hz. apply round64_Z; [reflexivity | exact Hz]. Qed.

(** [Number] on a run of digits is the double nearest to the integer the
    digits write. *)
Lemma StringToNumber_digits s :
  digit_run s -> StringToNumber s = Number_of_Z (digits_value s).
Proof.
  intros Hs. unfold StringToNumber. rewrite (trim_digit_run Hs).
  pose proof (digit_run_not_prefixed Hs) as Hnd.
  destruct Hs as [Hne Hall].
  assert (Hpd : parse_unsigned_decimal s = Number_of_Z (digits_value s)).
  { unfold parse_unsigned_decimal.
    destruct (str_eqb s (js "Infinity")) eqn:E.
    - unfold str_eqb in E. destruct (jsstring_eq_dec s (js "Infinity")) as [->|];
        [discriminate Hall | discriminate E].
    - rewrite (span_digits _ Hall). rewrite app_nil_r.
      destruct s as [|c s]; [contradiction|].
      cbn [parse_exponent length Z.of_nat Z.sub].
      apply round64_comp. change (pow10 (0 - 0)) with 1%Q.
      apply Qmult_1_r. }
  destruct s as [|c s]; [contradiction|]. rewrite Hnd.
  simpl in Hall. apply andb_true_iff in Hall as [Hc _].
  apply is_digit_range in Hc. bool_cases; exact Hpd.
Qed.

(** Below 2^53 the integer itself. *)
Lemma StringToNumber_safe s :
  digit_run s -> safe_integer (digits_value s) ->
  StringToNumber s = num_of_Z (digits_value s).
Proof.
  intros Hs Hv. rewrite (StringToNumber_digits Hs).
  now apply Number_of_Z_safe.
Qed.

Lemma num_mul_Z a b :
  safe_integer (a * b) ->
  num_mul (num_of_Z a) (num_of_Z b) = num_of_Z (a * b).
Proof.
  intros H. unfold num_mul, num_of_Z. apply round64_Z; [|exact H].
  now rewrite inject_Z_mult.
Qed.

Lemma num_add_Z a b :
  safe_integer (a + b) ->
  num_add (num_of_Z a) (num_of_Z b) = num_of_Z (a + b).
Proof.
  intros H. unfold num_add, num_of_Z. apply round64_Z; [|exact H].
  now rewrite inject_Z_plus.
Qed.

Lemma num_sub_Z a b :
  safe_integer (a - b) ->
  num_sub (num_of_Z a) (num_of_Z b) = num_of_Z (a - b).
Proof.
  intros H. unfold num_sub, num_neg, num_of_Z at 2.
  rewrite (Qred_eq_Z (z := (- b)%Z)) by (rewrite inject_Z_opp; reflexivity).
  fold (num_of_Z (- b)). now rewrite num_add_Z.
Qed.

Lemma num_ltb_Z a b : num_ltb (num_of_Z a) (num_of_Z b) = (a <? b)%Z.
Proof.
  unfold num_ltb, num_of_Z, Qcompare, inject_Z. cbn [Qnum Qden].
  rewrite !Z.mul_1_r. unfold Z.ltb. reflexivity.
Qed.

(** Rounding a whole number of seconds to minutes: the quotient by 60 is
    a double that no half-integer separates from the exact quotient. *)
Lemma round_minutes d :
  (0 <= d < 2 ^ 52)%Z ->
  Math_round (num_div (num_of_Z d) (num_of_Z 60)) = num_of_Z ((d + 30) / 60).
Proof.
  intros Hd. unfold num_div, num_of_Z.
  change (Qis_zero (inject_Z 60)) with false. cbv iota.
  destruct (Z.eq_dec d 0) as [->|Hnz]; [reflexivity|].
  set (m := ((d + 30) / 60)%Z).
  assert (Hm : (60 * m - 30 <= d <= 60 * m + 29)%Z).
  { unfold m. pose proof (Z.div_mod (d + 30) 60 ltac:(lia)).
    pose proof (Z.mod_pos_bound (d + 30) 60 ltac:(lia)). lia. }
  set (q := (inject_Z d / inject_Z 60)%Q).
  assert (Eq60 : q * 60 == inject_Z d) by (unfold q; field).
  assert (Hdq : (0 < inject_Z d)%Q).
  { change 0%Q with (inject_Z 0). rewrite <- Zlt_Qlt. lia. }
  assert (Hq : (0 < q)%Q) by lra.
  assert (Hd52 : (inject_Z d < inject_Z (2 ^ 52))%Q)
    by (rewrite <- Zlt_Qlt; lia).
  assert (Hlow : (inject_Z (60 * m) <= inject_Z d + inject_Z 30)%Q)
    by (rewrite <- inject_Z_plus, <- Zle_Qle; lia).
  assert (Hhigh : (inject_Z d <= inject_Z (60 * m + 29))%Q)
    by (rewrite <- Zle_Qle; lia).
  rewrite inject_Z_mult in Hlow.
  rewrite inject_Z_plus, inject_Z_mult in Hhigh.
  change (inject_Z 60) with 60%Q in Hlow, Hhigh.
  change (inject_Z 30) with 30%Q in Hlow.
  change (inject_Z 29) with 29%Q in Hhigh.
  change (inject_Z (2 ^ 52)) with (pow2 52) in Hd52.
  set (qm := inject_Z m) in *.
  assert (H52 : (q < pow2 (-1 + 53))%Q).
  { change (pow2 (-1 + 53)) with (pow2 52). lra. }
  assert (H47 : (q < pow2 (-6 + 53))%Q).
  { change (pow2 (-6 + 53)) with (inject_Z (2 ^ 47)).
    change (pow2 52) with (inject_Z (2 ^ 52)) in Hd52.
    assert (inject_Z (2 ^ 52) == 32 * inject_Z (2 ^ 47)) by reflexivity.
    assert (0 < inject_Z (2 ^ 47))%Q by reflexivity.
    lra. }
  destruct (@round64_between q (-1) Hq H52 ltac:(lia)) as (R & HR & Hg1).
  destruct (@round64_between q (-6) Hq H47 ltac:(lia)) as (R' & HR' & Hg6).
  rewrite HR in HR'. apply Fin_inj in HR'. subst R'.
  rewrite HR. cbn [Math_round].
  change (Fin (inject_Z (Qfloor (R + (1 # 2)))) = Fin (inject_Z m)).
  do 2 f_equal.
  destruct (Hg1 (2 * m + -1)%Z) as [Hl _].
  destruct (Hg6 (64 * m + 31)%Z) as [_ Hu].
  rewrite inject_Z_plus, inject_Z_mult in Hl.
  rewrite inject_Z_plus, inject_Z_mult in Hu.
  change (pow2 (-1)) with (1 # 2) in Hl. change (pow2 (-6)) with (1 # 64) in Hu.
  change (inject_Z 2) with 2%Q in Hl.
  change (inject_Z (-1)) with (- (1))%Q in Hl.
  change (inject_Z 64) with 64%Q in Hu. change (inject_Z 31) with 31%Q in Hu.
  fold qm in Hl, Hu.
  apply Qfloor_unique; [|rewrite inject_Z_plus; change (inject_Z 1) with 1%Q];
    fold qm.
  - assert ((2 * qm + - (1)) * (1 # 2) <= R)%Q by (apply Hl; lra). lra.
  - assert (R <= (64 * qm + 31) * (1 # 64))%Q by (apply Hu; lra). lra.
Qed.

(** ** The time normalizers *)

Lemma split_on_nonempty sep s : split_on sep s <> [].
Proof.
  destruct s as [|c s]; simpl; [discriminate|].
  destruct (c =? sep)%N; [discriminate|].
  destruct (split_on sep s); discriminate.
Qed.

Lemma existsb_NaN segs :
  existsb Number_isNaN (map StringToNumber segs) = true
  <-> exists seg, In seg segs /\ StringToNumber seg = NaN.
Proof.
  rewrite existsb_exists. split.
  - intros (x & Hx & Hn). apply in_map_iff in Hx as (seg & <- & Hseg).
    exists seg. split; [exact Hseg|].
    destruct (StringToNumber seg); [reflexivity | discriminate..].
  - intros (seg & Hseg & Hn). exists NaN. split; [|reflexivity].
    rewrite <- Hn. now apply in_map.
Qed.

Lemma not_NaN x : x <> NaN -> Number_isNaN x = false.
Proof. destruct x; [contradiction | reflexivity..]. Qed.

Lemma round64_not_NaN q : round64 q <> NaN.
Proof.
  unfold round64. destruct (Qis_zero _); [discriminate|].
  destruct (Qle_bool _ _); discriminate.
Qed.

Lemma safe_natural z : (0 <= z < 2 ^ 53)%Z -> safe_integer z.
Proof. unfold safe_integer. lia. Qed.

(** C5, as the code has it.  [timestampToSeconds] returns [null] exactly
    when the cleaned text split on ':' has more than three segments or a
    segment that [Number] turns into NaN; there is always at least one
    segment, and an empty or blank segment is the number 0.  Otherwise one
    segment is its value, two are 60*m + s and three 3600*h + 60*m + s, in
    the arithmetic of doubles.  A segment that is a run of decimal digits
    is the double nearest to the integer the digits write, and as long as
    the seconds stay below 2^53 the results are these integers: beyond,
    they are rounded ("9007199254740993" is 9007199254740992), and a text
    such as "1e400" is Infinity. *)
Theorem timestampToSeconds_by_Number (v : option jsstring) :
  let segments := split_on COLON (cleanText v) in
  segments <> []
  /\ (timestampToSeconds v = None
      <-> 3 < length segments
          \/ exists seg, In seg segments /\ StringToNumber seg = NaN)
  /\ (forall seg, trim seg = [] -> StringToNumber seg = num_of_Z 0)
  /\ (forall s, segments = [s] -> StringToNumber s <> NaN ->
        timestampToSeconds v = Some (StringToNumber s))
  /\ (forall m s, segments = [m; s] ->
        StringToNumber m <> NaN -> StringToNumber s <> NaN ->
        timestampToSeconds v
        = Some (num_add (num_mul (StringToNumber m) (num_of_Z 60))
                        (StringToNumber s)))
  /\ (forall h m s, segments = [h; m; s] ->
        StringToNumber h <> NaN -> StringToNumber m <> NaN ->
        StringToNumber s <> NaN ->
        timestampToSeconds v
        = Some (num_add (num_add (num_mul (StringToNumber h) (num_of_Z 3600))
                                 (num_mul (StringToNumber m) (num_of_Z 60)))
                        (StringToNumber s)))
  /\ (forall s, digit_run s ->
        StringToNumber s = Number_of_Z (digits_value s)
        /\ StringToNumber s <> NaN)
  /\ (forall s, segments = [s] -> digit_run s ->
        (digits_value s < 2 ^ 53)%Z ->
        timestampToSeconds v = Some (num_of_Z (digits_value s)))
  /\ (forall m s, segments = [m; s] -> digit_run m -> digit_run s ->
        (60 * digits_value m + digits_value s < 2 ^ 53)%Z ->
        timestampToSeconds v
        = Some (num_of_Z (60 * digits_value m + digits_value s)))
  /\ (forall h m s, segments = [h; m; s] ->
        digit_run h -> digit_run m -> digit_run s ->
        (3600 * digits_value h + 60 * digits_value m + digits_value s
         < 2 ^ 53)%Z ->
        timestampToSeconds v
        = Some (num_of_Z (3600 * digits_value h + 60 * digits_value m
                          + digits_value s)))
  /\ timestampToSeconds (Some (js "01:02:03")) = Some (num_of_Z 3723)
  /\ timestampToSeconds (Some (js "9007199254740993"))
     = Some (num_of_Z 9007199254740992)
  /\ timestampToSeconds (Some (js "1e400")) = Some (Inf false).
Proof.
  intros segments.
  assert (Hne : segments <> []) by apply split_on_nonempty.
  assert (H1 : forall s, segments = [s] -> StringToNumber s <> NaN ->
                 timestampToSeconds v = Some (StringToNumber s)).
  { intros s E Hs. unfold timestampToSeconds. fold segments. rewrite E.
    cbn [map length Nat.eqb existsb orb]. now rewrite (not_NaN Hs). }
  assert (H2 : forall m s, segments = [m; s] ->
                 StringToNumber m <> NaN -> StringToNumber s <> NaN ->
                 timestampToSeconds v
                 = Some (num_add (num_mul (StringToNumber m) (num_of_Z 60))
                                 (StringToNumber s))).
  { intros m s E Hm Hs. unfold timestampToSeconds. fold segments. rewrite E.
    cbn [map length Nat.eqb existsb orb].
    now rewrite (not_NaN Hm), (not_NaN Hs). }
  assert (H3 : forall h m s, segments = [h; m; s] ->
                 StringToNumber h <> NaN -> StringToNumber m <> NaN ->
                 StringToNumber s <> NaN ->
                 timestampToSeconds v
                 = Some (num_add
                           (num_add (num_mul (StringToNumber h) (num_of_Z 3600))
                                    (num_mul (StringToNumber m) (num_of_Z 60)))
                           (StringToNumber s))).
  { intros h m s E Hh Hm Hs. unfold timestampToSeconds. fold segments.
    rewrite E. cbn [map length Nat.eqb existsb orb].
    now rewrite (not_NaN Hh), (not_NaN Hm), (not_NaN Hs). }
  assert (Hr : forall s, digit_run s ->
                 StringToNumber s = Number_of_Z (digits_value s)
                 /\ StringToNumber s <> NaN).
  { intros s Hs. rewrite (StringToNumber_digits Hs). split; [reflexivity|].
    apply round64_not_NaN. }
  assert (Hd : forall s, digit_run s -> (digits_value s < 2 ^ 53)%Z ->
                 StringToNumber s = num_of_Z (digits_value s)
                 /\ StringToNumber s <> NaN).
  { intros s Hs Hb. rewrite (StringToNumber_safe Hs).
    - split; [reflexivity | discriminate].
    - apply safe_natural. pose proof (digits_value_nonneg s). lia. }
  split; [exact Hne|].
  split; [|split; [intros seg E; unfold StringToNumber; now rewrite E|]].
  - unfold timestampToSeconds. fold segments.
    destruct (existsb Number_isNaN (map StringToNumber segments)) eqn:E.
    + rewrite orb_true_r. split; [intros _ | reflexivity].
      right. now apply existsb_NaN.
    + assert (Hno : ~ exists seg, In seg segments /\ StringToNumber seg = NaN).
      { intros Hx. apply existsb_NaN in Hx. congruence. }
      rewrite orb_false_r.
      destruct segments as [|a [|b [|c [|d rest]]]]; [contradiction|..];
        cbn [map length Nat.eqb].
      * split; [discriminate | intros [H|H]; [simpl in H; lia | contradiction]].
      * split; [discriminate | intros [H|H]; [simpl in H; lia | contradiction]].
      * split; [discriminate | intros [H|H]; [simpl in H; lia | contradiction]].
      * split; [intros _; left; simpl; lia | reflexivity].
  - split; [exact H1|]. split; [exact H2|]. split; [exact H3|].
    split; [exact Hr|].
    split; [|split; [|split]].
    + intros s E Hs Hb. destruct (Hd s Hs Hb) as [Es Ns].
      now rewrite (H1 s E Ns), Es.
    + intros m s E Hm Hs Hb.
      pose proof (digits_value_nonneg m). pose proof (digits_value_nonneg s).
      destruct (Hd m Hm ltac:(lia)) as [Em Nm].
      destruct (Hd s Hs ltac:(lia)) as [Es Ns].
      rewrite (H2 m s E Nm Ns), Em, Es.
      rewrite num_mul_Z by (apply safe_natural; lia).
      rewrite num_add_Z by (apply safe_natural; lia).
      do 2 f_equal. lia.
    + intros h m s E Hh Hm Hs Hb.
      pose proof (digits_value_nonneg h).
      pose proof (digits_value_nonneg m). pose proof (digits_value_nonneg s).
      destruct (Hd h Hh ltac:(lia)) as [Eh Nh].
      destruct (Hd m Hm ltac:(lia)) as [Em Nm].
      destruct (Hd s Hs ltac:(lia)) as [Es Ns].
      rewrite (H3 h m s E Nh Nm Ns), Eh, Em, Es.
      rewrite !num_mul_Z by (apply safe_natural; lia).
      rewrite !num_add_Z by (apply safe_natural; lia).
      do 2 f_equal. lia.
    + repeat split; vm_compute; reflexivity.
Qed.

(** A segment that is not a plain integer, and a number all the same: the
    fraction 1.5, and the empty text. *)
Lemma timestampToSeconds_counterexample :
  split_on COLON (cleanText (Some (js "1.5"))) = [js "1.5"]
  /\ plain_integer (js "1.5") = false
  /\ timestampToSeconds (Some (js "1.5")) = Some (Fin (3 # 2))
  /\ split_on COLON (cleanText (Some [])) = [[]]
  /\ plain_integer [] = false
  /\ timestampToSeconds (Some []) = Some (Fin 0).
Proof. vm_compute. repeat split. Qed.


Lemma truthy_true s : truthy s = true <-> s <> [].
Proof. destruct s; simpl; split; congruence. Qed.

(** C4, as the code has it.  [getDurationFromTimeRange] gives the empty
    string for an empty cleaned text; it splits the cleaned text on every
    '-' and gives the empty string unless there are exactly two parts,
    cleaned again, either of which may be empty; it converts both with
    [timestampToSeconds] and gives the empty string if one is [null] or
    the end is before the start, and else [String(Math.round((end - start)
    / 60))], computed on doubles.  For whole seconds a <= b less than 2^52
    apart this is the integer (b - a + 30) div 60 in decimal digits.
    "01:02:00-01:05:00" gives "3", "05:00-02:00" gives the empty string;
    with fractions "247.9-337.9" gives "1", the difference of the two
    doubles being just below 90, and "0-1e23" gives
    "1.6666666666666665e+21". *)
Theorem getDurationFromTimeRange_by_parts (v : option jsstring) :
  let range := cleanText v in
  let parts := map (fun item => cleanText (Some item)) (split_on DASH range) in
  (range = [] -> getDurationFromTimeRange v = [])
  /\ (length parts <> 2 -> getDurationFromTimeRange v = [])
  /\ (forall p0 p1, range <> [] -> parts = [p0; p1] ->
        (timestampToSeconds (Some p0) = None
         \/ timestampToSeconds (Some p1) = None ->
         getDurationFromTimeRange v = [])
        /\ (forall start end_,
              timestampToSeconds (Some p0) = Some start ->
              timestampToSeconds (Some p1) = Some end_ ->
              (num_ltb end_ start = true -> getDurationFromTimeRange v = [])
              /\ (num_ltb end_ start = false ->
                  getDurationFromTimeRange v
                  = Number_toString
                      (Math_round (num_div (num_sub end_ start)
                                           (num_of_Z 60))))))
  /\ (forall p0 p1 a b, range <> [] -> parts = [p0; p1] ->
        timestampToSeconds (Some p0) = Some (num_of_Z a) ->
        timestampToSeconds (Some p1) = Some (num_of_Z b) ->
        ((b < a)%Z -> getDurationFromTimeRange v = [])
        /\ ((0 <= b - a < 2 ^ 52)%Z ->
            getDurationFromTimeRange v = Z_to_string ((b - a + 30) / 60)))
  /\ getDurationFromTimeRange (Some (js "01:02:00-01:05:00")) = js "3"
  /\ getDurationFromTimeRange (Some (js "05:00-02:00")) = []
  /\ getDurationFromTimeRange (Some (js "247.9-337.9")) = js "1"
  /\ getDurationFromTimeRange (Some (js "0-1e23"))
     = js "1.6666666666666665e+21".
Proof.
  intros range parts.
  assert (Hgen : forall p0 p1, range <> [] -> parts = [p0; p1] ->
            getDurationFromTimeRange v
            = match timestampToSeconds (Some p0),
                    timestampToSeconds (Some p1) with
              | Some start, Some end_ =>
                  if num_ltb end_ start then []
                  else Number_toString
                         (Math_round (num_div (num_sub end_ start)
                                              (num_of_Z 60)))
              | _, _ => []
              end).
  { intros p0 p1 Hr Hp. unfold getDurationFromTimeRange.
    fold range. fold parts. apply truthy_true in Hr. rewrite Hr, Hp.
    reflexivity. }
  split; [|split; [|split; [|split; [|split; [|split; [|split]]]]]].
  - intros Hr. unfold getDurationFromTimeRange. fold range. now rewrite Hr.
  - intros Hl. unfold getDurationFromTimeRange. fold range. fold parts.
    destruct (truthy range); [|reflexivity]. cbn [negb].
    destruct (length parts =? 2) eqn:E; [|reflexivity].
    apply Nat.eqb_eq in E. contradiction.
  - intros p0 p1 Hr Hp. rewrite (Hgen p0 p1 Hr Hp). split.
    + intros [-> | ->]; [reflexivity|].
      now destruct (timestampToSeconds (Some p0)).
    + intros start end_ -> ->. split; now intros ->.
  - intros p0 p1 a b Hr Hp Ha Hb. rewrite (Hgen p0 p1 Hr Hp), Ha, Hb.
    rewrite num_ltb_Z. split; intros Hab.
    + apply Z.ltb_lt in Hab. now rewrite Hab.
    + replace (b <? a)%Z with false by (symmetry; apply Z.ltb_ge; lia).
      rewrite num_sub_Z by (unfold safe_integer; lia).
      rewrite round_minutes by exact Hab.
      apply Number_toString_Z. unfold safe_integer.
      assert (0 <= (b - a + 30) / 60 <= b - a + 30)%Z; [|lia].
      split; [apply Z.div_pos; lia|].
      apply Z.div_le_upper_bound; lia.
  - vm_compute. reflexivity.
  - vm_compute. reflexivity.
  - vm_compute. reflexivity.
  - vm_compute. reflexivity.
Qed.

(** A range whose first part is empty has a duration: the empty part counts
    as second 0. *)
Lemma getDurationFromTimeRange_counterexample :
  map (fun item => cleanText (Some item))
      (split_on DASH (cleanText (Some (js "-90"))))
  = [[]; js "90"]
  /\ getDurationFromTimeRange (Some (js "-90")) = js "2"
  /\ getDurationFromTimeRange (Some (js "-90")) <> [].
Proof. vm_compute. repeat split. discriminate. Qed.

(** ** The matcher *)

(** A match goes on into its continuation, and a group the pattern lacks
    is then what it was. *)
Lemma rmatch_continues r : forall k st out,
  rmatch r k st = Some out ->
  exists st', k st' = Some out
    /\ forall i, lacks_group i r = true ->
         lookup_cap i (m_caps st') = lookup_cap i (m_caps st).
Proof.
  induction r as [|p|a IHa b IHb|a IHa|a IHa|j a IHa| | |];
    intros k st out H.
  - now exists st.
  - cbn [rmatch] in H. destruct (m_rest st) as [|c rest]; [discriminate|].
    destruct (p c); [|discriminate]. now exists (advance c rest st).
  - cbn [rmatch] in H.
    apply IHa in H as (st1 & H1 & E1). apply IHb in H1 as (st2 & H2 & E2).
    exists st2. split; [exact H2|]. intros i Hi. cbn [lacks_group] in Hi.
    apply andb_true_iff in Hi as [Ha Hb]. now rewrite E2, E1.
  - cbn [rmatch] in H. destruct (rmatch a k st) eqn:E.
    + injection H as <-. now apply IHa in E.
    + now exists st.
  - revert H. cbn [rmatch]. generalize (length (m_rest st)). intros fuel.
    revert st. induction fuel as [|fuel IHf]; intros st H.
    + now exists st.
    + match type of H with
      | match ?m with _ => _ end = _ => destruct m eqn:E
      end.
      * injection H as <-. apply IHa in E as (st1 & H1 & E1).
        destruct (length (m_rest st1) <? length (m_rest st)); [|discriminate].
        apply IHf in H1 as (st2 & H2 & E2).
        exists st2. split; [exact H2|]. intros i Hi.
        rewrite (E2 i Hi). now apply E1.
      * now exists st.
  - cbn [rmatch] in H. apply IHa in H as (st1 & H1 & E1).
    exists (close_group j st st1). split; [exact H1|].
    intros i Hi. cbn [lacks_group] in Hi. apply andb_true_iff in Hi as [Hj Ha].
    apply negb_true_iff in Hj. unfold close_group.
    cbn [m_caps lookup_cap]. rewrite Hj. now apply E1.
  - cbn [rmatch] in H. destruct (m_prev st); [discriminate|]. now exists st.
  - cbn [rmatch] in H. destruct (m_rest st); [|discriminate]. now exists st.
  - cbn [rmatch] in H.
    destruct (xorb _ _); [|discriminate]. now exists st.
Qed.

(** A greedy run of characters of one class. *)
Lemma rmatch_star_chr p k st out :
  rmatch (Star (Chr p)) k st = Some out ->
  exists run st',
    forallb p run = true /\ m_rest st = run ++ m_rest st'
    /\ m_caps st' = m_caps st /\ k st' = Some out.
Proof.
  cbn [rmatch]. generalize (length (m_rest st)). intros fuel. revert st.
  induction fuel as [|fuel IH]; intros st H.
  - exists [], st. now repeat split.
  - destruct (m_rest st) as [|c rest] eqn:Er.
    + exists [], st. rewrite Er. now repeat split.
    + destruct (p c) eqn:Ec.
      * cbn [advance m_rest] in H.
        assert (Hlt : (length rest <? length (c :: rest)) = true)
          by (apply Nat.ltb_lt; simpl; lia).
        rewrite Hlt in H.
        match type of H with
        | match ?m with _ => _ end = _ => destruct m eqn:E
        end.
        -- injection H as <-. apply IH in E as (run & st' & Hp & Hr & Hc & Hk).
           exists (c :: run), st'. cbn [forallb]. rewrite Ec, Hp.
           cbn [advance m_rest m_caps] in Hr, Hc. rewrite Hr.
           now repeat split.
        -- exists [], st. rewrite Er. now repeat split.
      * exists [], st. rewrite Er. now repeat split.
Qed.

(** Group 1 over a run of digits holds a run of digits. *)
Lemma rmatch_group_digits k st out :
  rmatch (Group 1 (Plus digit)) k st = Some out ->
  exists ds st', digit_run ds /\ lookup_cap 1 (m_caps st') = Some ds
                 /\ k st' = Some out.
Proof.
  unfold Plus, digit. cbn [rmatch].
  destruct (m_rest st) as [|c rest] eqn:Er; [discriminate|].
  destruct (is_digit c) eqn:Ec; [|discriminate].
  intros H. change (rmatch (Star (Chr is_digit)) (fun st' => k (close_group 1 st st'))
                      (advance c rest st) = Some out) in H.
  apply rmatch_star_chr in H as (run & st' & Hp & Hr & _ & Hk).
  cbn [advance m_rest] in Hr.
  exists (c :: run), (close_group 1 st st'). split; [|split; [|exact Hk]].
  - split; [discriminate|]. cbn [forallb]. now rewrite Ec, Hp.
  - unfold close_group. cbn [m_caps lookup_cap Nat.eqb].
    rewrite Er, Hr. f_equal.
    change (c :: run ++ m_rest st') with ((c :: run) ++ m_rest st').
    rewrite length_app.
    replace (length (c :: run) + length (m_rest st') - length (m_rest st'))
      with (length (c :: run) + 0) by lia.
    rewrite firstn_app_2. cbn [firstn]. apply app_nil_r.
Qed.

Lemma rsearch_found r : forall s prev out,
  rsearch r prev s = Some out ->
  exists prev' s',
    rmatch r Some {| m_prev := prev'; m_rest := s'; m_caps := [] |} = Some out.
Proof.
  induction s as [|c s IH]; intros prev out H; cbn [rsearch] in H.
  - destruct (rmatch r Some _) eqn:E; [|discriminate].
    injection H as <-. eauto.
  - destruct (rmatch r Some _) eqn:E.
    + injection H as <-. eauto.
    + eapply IH, H.
Qed.

(** What group 1 holds after a match of a pattern that opens with digits. *)
Lemma leading_digits_captured tail text m :
  lacks_group 1 tail = true ->
  re_match (Seq (Group 1 (Plus digit)) tail) text = Some m ->
  exists ds, digit_run ds /\ cap 1 m = Some ds.
Proof.
  intros Hg H. apply rsearch_found in H as (prev & s & H).
  cbn [rmatch] in H.
  change (rmatch (Group 1 (Plus digit)) (rmatch tail Some)
            {| m_prev := prev; m_rest := s; m_caps := [] |} = Some m) in H.
  apply rmatch_group_digits in H as (ds & st1 & Hds & Hcap & Hk).
  apply rmatch_continues in Hk as (st2 & [= <-] & E).
  exists ds. split; [exact Hds|]. unfold cap. now rewrite (E 1 Hg).
Qed.

Lemma number_captured text m :
  re_match RE_NUMBER text = Some m ->
  exists ds, digit_run ds /\ cap 1 m = Some ds.
Proof.
  intros H. apply rsearch_found in H as (prev & s & H).
  apply rmatch_group_digits in H as (ds & st1 & Hds & Hcap & [= <-]).
  now exists ds.
Qed.

Lemma duration_pattern_captured r text m :
  In r [RE_HOURS; RE_MINUTES; RE_MIN_SHORT; RE_NUMBER] ->
  re_match r text = Some m ->
  exists ds, digit_run ds /\ cap 1 m = Some ds.
Proof.
  intros [<-|[<-|[<-|[<-|[]]]]].
  - now apply leading_digits_captured.
  - now apply leading_digits_captured.
  - now apply leading_digits_captured.
  - apply number_captured.
Qed.

(** ** Decimal rendering *)

Lemma digits_value_fold s : forall acc,
  fold_left (fun a c => (10 * a + digit_of c)%Z) s acc
  = (acc * 10 ^ Z.of_nat (length s) + digits_value s)%Z.
Proof.
  unfold digits_value.
  induction s as [|c s IH]; intros acc; cbn [fold_left length].
  - rewrite Z.pow_0_r. lia.
  - rewrite IH, (IH (10 * 0 + digit_of c)%Z), Nat2Z.inj_succ, Z.pow_succ_r by lia.
    lia.
Qed.

Lemma digits_value_cons c s :
  digits_value (c :: s)
  = (digit_of c * 10 ^ Z.of_nat (length s) + digits_value s)%Z.
Proof.
  unfold digits_value at 1. cbn [fold_left]. rewrite digits_value_fold. lia.
Qed.

Lemma digit_of_char d : (d < 10)%N -> digit_of (48 + d) = Z.of_N d
                                      /\ is_digit (48 + d) = true.
Proof.
  intros H. split.
  - unfold digit_of. f_equal. lia.
  - apply is_digit_range. lia.
Qed.

Lemma nat_digits_spec fuel : forall n acc,
  fuel <> 0 -> (n < 2 ^ N.of_nat fuel)%N -> forallb is_digit acc = true ->
  nat_digits fuel n acc <> []
  /\ forallb is_digit (nat_digits fuel n acc) = true
  /\ digits_value (nat_digits fuel n acc)
     = (Z.of_N n * 10 ^ Z.of_nat (length acc) + digits_value acc)%Z.
Proof.
  induction fuel as [|fuel IH]; intros n acc Hf Hn Hacc; [contradiction|].
  cbn [nat_digits].
  assert (Hm : (n mod 10 < 10)%N) by (apply N.mod_lt; discriminate).
  destruct (digit_of_char Hm) as [Hv Hd].
  destruct (N.ltb_spec n 10) as [Hlt|Hge].
  - split; [discriminate|]. split.
    + cbn [forallb]. now rewrite Hd, Hacc.
    + rewrite digits_value_cons, Hv, N.mod_small by exact Hlt. reflexivity.
  - assert (Hdiv : (n / 10 < 2 ^ N.of_nat fuel)%N).
    { rewrite Nat2N.inj_succ, N.pow_succ_r' in Hn.
      apply N.Div0.div_lt_upper_bound. lia. }
    assert (Hfuel : fuel <> 0).
    { intros ->. simpl in Hdiv.
      assert (1 <= n / 10)%N; [|lia].
      apply N.div_le_lower_bound; lia. }
    assert (Hacc' : forallb is_digit ((48 + n mod 10)%N :: acc) = true)
      by (cbn [forallb]; now rewrite Hd, Hacc).
    destruct (IH (n / 10)%N _ Hfuel Hdiv Hacc') as (Hne & Hall & Hval).
    split; [exact Hne|]. split; [exact Hall|].
    rewrite Hval, digits_value_cons, Hv. cbn [length].
    rewrite Nat2Z.inj_succ, Z.pow_succ_r by lia.
    rewrite (N.div_mod n 10) at 3 by discriminate.
    rewrite N2Z.inj_add, N2Z.inj_mul. simpl (Z.of_N 10). ring.
Qed.

(** [String(z)] of a natural number is a run of digits that writes it. *)
Lemma Z_to_string_digits z :
  (0 <= z)%Z -> digit_run (Z_to_string z) /\ digits_value (Z_to_string z) = z.
Proof.
  intros Hz. destruct z as [|p|p]; [| |lia].
  - split; [split; [discriminate | reflexivity] | reflexivity].
  - unfold Z_to_string, N_to_string.
    destruct (@nat_digits_spec (S (N.to_nat (N.log2 (N.pos p)))) (N.pos p) [])
      as (Hne & Hall & Hval).
    + discriminate.
    + rewrite Nat2N.inj_succ, N2Nat.id. apply N.log2_spec. reflexivity.
    + reflexivity.
    + split; [split; assumption|]. rewrite Hval. simpl. lia.
Qed.

(** ** The first bare integer *)

(** When what follows cannot fail, a greedy run takes all it can. *)
Lemma star_chr_greedy p k :
  (forall st, k st <> None) ->
  forall st, rmatch (Star (Chr p)) k st = k (after_run p st (m_rest st)).
Proof.
  intros Hk st. cbn [rmatch].
  assert (H : forall fuel st, length (m_rest st) <= fuel ->
    (fix loop (fuel : nat) (st : mstate) {struct fuel} : option mstate :=
       match fuel with
       | O => k st
       | S fuel' =>
           match
             match m_rest st with
             | c :: rest =>
                 if p c
                 then if length (m_rest (advance c rest st)) <? length (m_rest st)
                      then loop fuel' (advance c rest st) else None
                 else None
             | [] => None
             end
           with
           | Some out => Some out
           | None => k st
           end
       end) fuel st
    = k (after_run p st (m_rest st))).
  { clear st. induction fuel as [|fuel IH]; intros st Hlen.
    - destruct (m_rest st); [reflexivity | simpl in Hlen; lia].
    - destruct (m_rest st) as [|c rest] eqn:Er; [reflexivity|].
      cbn [after_run]. destruct (p c); [|reflexivity].
      cbn [advance m_rest].
      replace (length rest <? length (c :: rest)) with true
        by (symmetry; apply Nat.ltb_lt; simpl; lia).
      rewrite IH by (cbn [advance m_rest]; simpl in Hlen; lia).
      cbn [advance m_rest].
      destruct (k (after_run p _ rest)) eqn:E; [reflexivity|].
      now apply Hk in E. }
  now apply H.
Qed.

Lemma after_run_span p : forall s st,
  m_rest st = s ->
  s = fst (span p s) ++ m_rest (after_run p st s)
  /\ m_caps (after_run p st s) = m_caps st.
Proof.
  induction s as [|c s IH]; intros st Hs; cbn [span after_run].
  - now rewrite Hs.
  - destruct (p c).
    + destruct (IH (advance c s st) eq_refl) as [E1 E2].
      destruct (span p s) as [a b]. cbn [fst app] in *.
      split; [f_equal; exact E1 | exact E2].
    + now rewrite Hs.
Qed.

Lemma rmatch_number st :
  rmatch RE_NUMBER Some st
  = match m_rest st with
    | c :: rest =>
        if is_digit c
        then rmatch (Star (Chr is_digit))
               (fun st' => Some (close_group 1 st st')) (advance c rest st)
        else None
    | [] => None
    end.
Proof. reflexivity. Qed.

(** [/(\d+)/] finds the first maximal run of digits. *)
Lemma number_is_first_run text : forall prev,
  option_map (cap 1) (rsearch RE_NUMBER prev text)
  = option_map Some (first_digit_run text).
Proof.
  induction text as [|c text IH]; intros prev; [reflexivity|].
  cbn [rsearch]. rewrite rmatch_number. cbn [m_rest].
  unfold first_digit_run. cbn [span].
  destruct (is_digit c) eqn:Ec; cbn [negb].
  - set (st0 := {| m_prev := prev; m_rest := c :: text; m_caps := [] |}).
    rewrite star_chr_greedy by discriminate.
    cbn [advance m_rest option_map span]. rewrite Ec.
    destruct (@after_run_span is_digit text (advance c text st0) eq_refl)
      as [E _].
    destruct (span is_digit text) as [a b]. cbn [fst] in E.
    unfold cap, close_group. cbn [m_caps lookup_cap Nat.eqb m_rest st0].
    set (r := m_rest (after_run is_digit (advance c text st0) text)) in *.
    assert (Hcut : firstn (length (c :: text) - length r) (c :: text) = c :: a).
    { rewrite E at 1 2. change (c :: a ++ r) with ((c :: a) ++ r).
      rewrite length_app.
      replace (length (c :: a) + length r - length r)
        with (length (c :: a) + 0) by lia.
      rewrite firstn_app_2. cbn [firstn]. apply app_nil_r. }
    now rewrite Hcut.
  - specialize (IH (Some c)). unfold first_digit_run in IH.
    destruct (span (fun c0 => negb (is_digit c0)) text) as [a b].
    exact IH.
Qed.

(** ** What a match consumes *)

Lemma prev_after_app u v prev :
  prev_after (u ++ v) prev = prev_after v (prev_after u prev).
Proof.
  unfold prev_after. rewrite rev_app_distr.
  destruct (rev v); [rewrite app_nil_l|]; reflexivity.
Qed.

Lemma rmatch_sound r : forall k st out,
  rmatch r k st = Some out ->
  exists st' w,
    k st' = Some out /\ m_rest st = w ++ m_rest st' /\ lang r w
    /\ m_prev st' = prev_after w (m_prev st).
Proof.
  induction r as [|p|a IHa b IHb|a IHa|a IHa|j a IHa| | |];
    intros k st out H.
  - exists st, []. now repeat split.
  - cbn [rmatch] in H. destruct (m_rest st) as [|c rest] eqn:Er; [discriminate|].
    destruct (p c) eqn:Ec; [|discriminate].
    exists (advance c rest st), [c]. repeat split; [exact H|]. now exists c.
  - cbn [rmatch] in H.
    apply IHa in H as (st1 & u & H1 & E1 & L1 & P1).
    apply IHb in H1 as (st2 & v & H2 & E2 & L2 & P2).
    exists st2, (u ++ v). split; [exact H2|]. split; [|split].
    + now rewrite E1, E2, app_assoc.
    + now exists u, v.
    + now rewrite prev_after_app, <- P1.
  - cbn [rmatch] in H. destruct (rmatch a k st) eqn:E.
    + injection H as <-. apply IHa in E as (st1 & w & H1 & E1 & L1 & P1).
      exists st1, w. repeat split; [assumption.. | | assumption]. now right.
    + exists st, []. repeat split; [exact H|]. now left.
  - revert H. cbn [rmatch]. generalize (length (m_rest st)). intros fuel.
    revert st. induction fuel as [|fuel IHf]; intros st H.
    + exists st, []. repeat split; [exact H | constructor].
    + match type of H with
      | match ?m with _ => _ end = _ => destruct m eqn:E
      end.
      * injection H as <-. apply IHa in E as (st1 & u & H1 & E1 & L1 & P1).
        destruct (length (m_rest st1) <? length (m_rest st)); [|discriminate].
        apply IHf in H1 as (st2 & v & H2 & E2 & L2 & P2).
        exists st2, (u ++ v). split; [exact H2|]. split; [|split].
        -- now rewrite E1, E2, app_assoc.
        -- now constructor.
        -- now rewrite prev_after_app, <- P1.
      * exists st, []. repeat split; [exact H | constructor].
  - cbn [rmatch] in H. apply IHa in H as (st1 & w & H1 & E1 & L1 & P1).
    exists (close_group j st st1), w. now repeat split.
  - cbn [rmatch] in H. destruct (m_prev st) eqn:Ep; [discriminate|].
    exists st, []. now repeat split.
  - cbn [rmatch] in H. destruct (m_rest st) eqn:Er; [|discriminate].
    exists st, []. now repeat split.
  - cbn [rmatch] in H. destruct (xorb _ _); [|discriminate].
    exists st, []. now repeat split.
Qed.

Lemma rsearch_found_at r : forall s prev out,
  rsearch r prev s = Some out ->
  exists pre prev' s',
    s = pre ++ s'
    /\ rmatch r Some {| m_prev := prev'; m_rest := s'; m_caps := [] |}
       = Some out.
Proof.
  induction s as [|c s IH]; intros prev out H; cbn [rsearch] in H.
  - destruct (rmatch r Some _) eqn:E; [|discriminate].
    injection H as <-. exists [], prev, []. now split.
  - destruct (rmatch r Some _) eqn:E.
    + injection H as <-. exists [], prev, (c :: s). now split.
    + apply IH in H as (pre & prev' & s' & -> & H).
      exists (c :: pre), prev', s'. now split.
Qed.

Lemma lang_Lit s w : lang (Lit s) w -> w = s.
Proof.
  revert w; induction s as [|c s IH]; intros w; cbn [Lit lang]; [easy|].
  intros (u & v & -> & (x & -> & Hx) & Hv). apply N.eqb_eq in Hx. subst x.
  now rewrite (IH v Hv).
Qed.

Lemma lang_star_chr p w : lang (Star (Chr p)) w -> forallb p w = true.
Proof.
  cbn [lang]. induction 1 as [|u v (c & -> & Hc) _ IH]; [reflexivity|].
  cbn [app forallb]. now rewrite Hc, IH.
Qed.

Lemma lang_label_tail label w :
  lang (Seq (Star blank) (Seq (Lit label) (Opt (Lit (js "s"))))) w ->
  label_tail label w.
Proof.
  intros (ws & v & -> & Hws & (l & o & -> & Hl & Ho)).
  apply lang_star_chr in Hws. apply lang_Lit in Hl. subst l.
  exists ws. split; [exact Hws|].
  destruct Ho as [-> | Ho].
  - left. now rewrite app_nil_r.
  - right. now rewrite (@lang_Lit _ _ Ho).
Qed.

(** A match of a pattern that opens with the digits of group 1: where it
    is in the text, what follows the digits, and where it ends. *)
Lemma leading_digits_shape tail text m :
  lacks_group 1 tail = true ->
  re_match (Seq (Group 1 (Plus digit)) tail) text = Some m ->
  exists pre ds w,
    text = pre ++ ds ++ w ++ m_rest m
    /\ digit_run ds /\ lang tail w /\ cap 1 m = Some ds
    /\ (w <> [] -> m_prev m = prev_after w None).
Proof.
  intros Hg H. apply rsearch_found_at in H as (pre & prev & s & -> & H).
  cbn [rmatch] in H.
  change (rmatch (Plus digit)
            (fun st' => rmatch tail Some
               (close_group 1 {| m_prev := prev; m_rest := s; m_caps := [] |} st'))
            {| m_prev := prev; m_rest := s; m_caps := [] |} = Some m) in H.
  apply rmatch_sound in H as (st1 & ds & H & E1 & L1 & _).
  pose proof (rmatch_continues _ _ _ H) as (st2' & [= <-] & Ecap).
  apply rmatch_sound in H as (st2 & w & [= <-] & E2 & L2 & P2).
  cbn [m_rest m_prev close_group] in E1, E2, P2.
  exists pre, ds, w. split; [now rewrite E1, E2|].
  assert (Hds : digit_run ds).
  { unfold Plus, digit in L1. destruct L1 as (u & v & -> & (c & -> & Hc) & Hv).
    apply lang_star_chr in Hv. split; [discriminate|].
    cbn [app forallb]. now rewrite Hc, Hv. }
  split; [exact Hds|]. split; [exact L2|]. split.
  - unfold cap. rewrite (Ecap 1 Hg). unfold close_group.
    cbn [m_caps lookup_cap Nat.eqb m_rest]. f_equal.
    rewrite E1, length_app.
    replace (length ds + length (m_rest st1) - length (m_rest st1))
      with (length ds + 0) by lia.
    rewrite firstn_app_2. cbn [firstn]. apply app_nil_r.
  - intros Hw. rewrite P2. unfold prev_after.
    destruct (rev w) eqn:Er; [|reflexivity].
    apply (f_equal (@rev N)) in Er. rewrite rev_involutive in Er.
    contradiction.
Qed.

(** After [/(\d+)\s*mins?\b/] the text does not go on with a word
    character. *)
Lemma min_short_boundary text m :
  re_match RE_MIN_SHORT text = Some m ->
  xorb (word_at (m_prev m)) (word_at (hd_error (m_rest m))) = true.
Proof.
  intros H. apply rsearch_found in H as (prev & s & H).
  change (rmatch (Group 1 (Plus digit))
            (rmatch (Star blank)
               (rmatch (Lit (js "min"))
                  (rmatch (Opt (Lit (js "s"))) (rmatch WordB Some))))
            {| m_prev := prev; m_rest := s; m_caps := [] |} = Some m) in H.
  do 4 (apply rmatch_continues in H as (? & H & _)).
  cbn [rmatch] in H.
  match type of H with
  | (if ?b then _ else _) = _ => destruct b eqn:E; [|discriminate]
  end.
  now injection H as <-.
Qed.

Lemma lang_min_tail w :
  lang (Seq (Star blank)
         (Seq (Lit (js "min")) (Seq (Opt (Lit (js "s"))) WordB))) w ->
  label_tail (js "min") w /\ word_at (prev_after w None) = true.
Proof.
  intros (ws & v & -> & Hws & (l & o & -> & Hl & (o' & b & -> & Ho & ->))).
  apply lang_star_chr in Hws. apply lang_Lit in Hl. subst l.
  rewrite app_nil_r.
  destruct Ho as [-> | Ho]; [|apply lang_Lit in Ho; subst o'].
  - rewrite app_nil_r. split.
    + exists ws. split; [exact Hws | now left].
    + now rewrite prev_after_app.
  - split.
    + exists ws. split; [exact Hws | now right].
    + now rewrite !prev_after_app.
Qed.

(** ** Durations *)

Lemma captured_number r text m :
  In r [RE_HOURS; RE_MINUTES; RE_MIN_SHORT; RE_NUMBER] ->
  re_match r text = Some m ->
  ToNumber (cap 1 m) = Number_of_Z (digits_value (or_empty (cap 1 m)))
  /\ (0 <= digits_value (or_empty (cap 1 m)))%Z.
Proof.
  intros Hr Hm. destruct (@duration_pattern_captured r text m Hr Hm) as (ds & Hds & ->).
  cbn [ToNumber or_empty]. split.
  - now apply StringToNumber_digits.
  - apply digits_value_nonneg.
Qed.

Lemma first_number_nonneg r text n :
  first_number r text = Some n -> (0 <= n)%Z.
Proof.
  unfold first_number. destruct (re_match r text); [|discriminate].
  intros [= <-]. apply digits_value_nonneg.
Qed.

(** Rewrites [Number(m[1])] for a match [E] of a duration pattern. *)
Ltac captured E :=
  let H := fresh in
  pose proof (fun Hin => proj1 (@captured_number _ _ _ Hin E)) as H;
  rewrite H by (simpl; tauto); clear H.




Lemma minutes_of_nonneg text n : minutes_of text = Some n -> (0 <= n)%Z.
Proof.
  unfold minutes_of.
  destruct (first_number RE_HOURS text) as [h|] eqn:Eh;
    destruct (first_number RE_MINUTES text) as [m|] eqn:Em;
    try apply first_number_nonneg in Eh;
    try apply first_number_nonneg in Em; cbn [or_zero];
    try (intros [= <-]; lia).
  destruct (first_number RE_MIN_SHORT text) as [k|] eqn:Es.
  - apply first_number_nonneg in Es. now intros [= <-].
  - intros En. now apply first_number_nonneg in En.
Qed.

Section DurationFacts.
Context {host : Host}.

Lemma extractMinutes_refines v : extractMinutes v = parseDurationText v.
Proof.
  unfold extractMinutes, parseDurationText.
  set (text := toLowerCase (cleanText v)).
  destruct text as [|c text'] eqn:Et; [reflexivity|].
  cbn [truthy negb]. rewrite <- Et. clear Et. unfold first_number.
  destruct (re_match RE_HOURS text) as [mh|] eqn:Eh;
    destruct (re_match RE_MINUTES text) as [mm|] eqn:Em.
  - captured Eh. captured Em. reflexivity.
  - captured Eh. reflexivity.
  - captured Em. reflexivity.
  - destruct (re_match RE_MIN_SHORT text) as [ms|] eqn:Es.
    + captured Es. reflexivity.
    + destruct (re_match RE_NUMBER text) as [mn|] eqn:En; [|reflexivity].
      captured En. reflexivity.
Qed.

(** Below 2^53 minutes the result is the integer of the specification, in
    decimal digits. *)
Lemma parseDurationText_safe v n :
  minutes_of (toLowerCase (cleanText v)) = Some n -> (n < 2 ^ 53)%Z ->
  parseDurationText v = Z_to_string n.
Proof.
  unfold minutes_of, parseDurationText.
  set (text := toLowerCase (cleanText v)).
  assert (Hsum : forall h m, (0 <= h)%Z -> (0 <= m)%Z ->
            (h * 60 + m < 2 ^ 53)%Z ->
            Number_toString
              (num_add (num_mul (Number_of_Z h) (num_of_Z 60)) (Number_of_Z m))
            = Z_to_string (h * 60 + m)).
  { intros h m Hh Hm Hb.
    rewrite !Number_of_Z_safe by (apply safe_natural; lia).
    rewrite num_mul_Z by (apply safe_natural; lia).
    rewrite num_add_Z by (apply safe_natural; lia).
    apply Number_toString_Z, safe_natural. lia. }
  assert (Hone : forall k, (0 <= k)%Z -> (k < 2 ^ 53)%Z ->
            Number_toString (Number_of_Z k) = Z_to_string k).
  { intros k Hk Hb. rewrite Number_of_Z_safe by (apply safe_natural; lia).
    apply Number_toString_Z, safe_natural. lia. }
  destruct (first_number RE_HOURS text) as [h|] eqn:Eh;
    destruct (first_number RE_MINUTES text) as [m|] eqn:Em;
    try apply first_number_nonneg in Eh; try apply first_number_nonneg in Em;
    cbn [or_zero].
  - intros [= <-] Hb. apply Hsum; lia.
  - intros [= <-] Hb. apply Hsum; lia.
  - intros [= <-] Hb. apply Hsum; lia.
  - destruct (first_number RE_MIN_SHORT text) as [k|] eqn:Es.
    + apply first_number_nonneg in Es. intros [= <-] Hb. now apply Hone.
    + destruct (first_number RE_NUMBER text) as [k|] eqn:En; [|discriminate].
      apply first_number_nonneg in En. intros [= <-] Hb. now apply Hone.
Qed.

Lemma parseDurationText_none v :
  minutes_of (toLowerCase (cleanText v)) = None -> parseDurationText v = [].
Proof.
  unfold minutes_of, parseDurationText.
  destruct (first_number RE_HOURS _); [discriminate|].
  destruct (first_number RE_MINUTES _); [discriminate|].
  destruct (first_number RE_MIN_SHORT _); [discriminate|].
  now intros ->.
Qed.


End DurationFacts.

(** What a match of a labelled pattern says about the text. *)
Lemma labelled_match label text m :
  re_match (Seq (Group 1 (Plus digit))
              (Seq (Star blank) (Seq (Lit label) (Opt (Lit (js "s"))))))
           text = Some m ->
  exists pre ds w,
    text = pre ++ ds ++ w ++ m_rest m
    /\ digit_run ds /\ label_tail label w /\ cap 1 m = Some ds.
Proof.
  intros H. apply leading_digits_shape in H as (pre & ds & w & E & Hds & L & C & _).
  - exists pre, ds, w. repeat split; try assumption; try apply Hds.
    now apply lang_label_tail.
  - cbn [lacks_group]. rewrite andb_true_r, andb_true_l.
    clear. induction label as [|c label IH]; [reflexivity | exact IH].
Qed.

Lemma min_short_match text m :
  re_match RE_MIN_SHORT text = Some m ->
  exists pre ds w,
    text = pre ++ ds ++ w ++ m_rest m
    /\ digit_run ds /\ label_tail (js "min") w
    /\ word_at (hd_error (m_rest m)) = false
    /\ cap 1 m = Some ds.
Proof.
  intros H. pose proof (min_short_boundary _ H) as Hb.
  apply leading_digits_shape in H as (pre & ds & w & E & Hds & L & C & P);
    [|reflexivity].
  apply lang_min_tail in L as [Lt Lw].
  exists pre, ds, w. split; [exact E|]. split; [exact Hds|].
  split; [exact Lt|]. split; [|exact C].
  rewrite P, Lw in Hb; [now destruct (word_at (hd_error (m_rest m)))|].
  destruct Lt as (ws & _ & [-> | ->]); intros Hw;
    apply (f_equal (@length N)) in Hw; rewrite !length_app in Hw;
    simpl in Hw; lia.
Qed.



(** ** The date normalizer *)

Lemma long_month_group1 text m :
  re_match RE_LONG_MONTH text = Some m -> exists g1, cap 1 m = Some g1.
Proof.
  intros H. apply rsearch_found in H as (prev & s & H).
  unfold RE_LONG_MONTH in H.
  match type of H with
  | rmatch (Seq Bol (Seq (Group 1 ?a) ?tail)) _ _ = _ =>
      set (tl := tail) in H;
      assert (Htl : lacks_group 1 tl = true) by reflexivity;
      change (rmatch Bol (rmatch (Group 1 a) (rmatch tl Some))
                {| m_prev := prev; m_rest := s; m_caps := [] |} = Some m) in H
  end.
  apply rmatch_continues in H as (st0 & H & _).
  cbn [rmatch] in H.
  apply rmatch_continues in H as (st1 & H & _).
  apply rmatch_continues in H as (st2 & [= <-] & E).
  unfold cap. rewrite (E 1 Htl). unfold close_group. cbn [m_caps lookup_cap Nat.eqb].
  eauto.
Qed.

Section DateFacts.
Context {host : Host}.

(** [normalizePublishedDate] never throws. *)
Lemma normalizePublishedDate_total v :
  exists s, normalizePublishedDate v = Ok s.
Proof.
  unfold normalizePublishedDate.
  destruct (negb (truthy (cleanText v))); [eauto|].
  destruct (re_test RE_ISO_DATE (cleanText v)); [eauto|].
  destruct (re_match RE_LONG_MONTH (cleanText v)) as [m|] eqn:E; [|eauto].
  destruct (long_month_group1 _ E) as [g1 ->].
  destruct (prop_truthy _); eauto.
Qed.

(** The dates of the specification. *)
Lemma normalizePublishedDate_examples :
  normalizePublishedDate (Some (js "March 3, 2022")) = Ok (js "2022-03-03")
  /\ normalizePublishedDate (Some (js "2022-03-03")) = Ok (js "2022-03-03")
  /\ normalizePublishedDate (Some (js "not a date")) = Ok [].
Proof. repeat split; vm_compute; reflexivity. Qed.

End DateFacts.

(** C8, where the code departs from it.  A text of the long-month shape
    whose first word is not a month but a property every object inherits
    is not turned into the empty string: the lookup in the month table
    finds [Object.prototype.constructor], and the function is pasted into
    the result. *)
Theorem normalizePublishedDate_inherited_key {host : Host} :
  get_property monthMap (js "constructor") = Some (PNative (js "Object"))
  /\ normalizePublishedDate (Some (js "Constructor 3, 2022"))
     = Ok (js "2022-function Object() { [native code] }-03").
Proof. split; vm_compute; reflexivity. Qed.

(** ** Anchored patterns and dates *)

Lemma anchored_search r : forall s c, rsearch (Seq Bol r) (Some c) s = None.
Proof.
  induction s as [|c' s IH]; intros c; cbn [rsearch rmatch m_prev];
    [reflexivity | apply IH].
Qed.

(** A pattern that starts with [^] matches at the start or nowhere. *)
Lemma anchored_match r text :
  re_match (Seq Bol r) text
  = rmatch r Some {| m_prev := None; m_rest := text; m_caps := [] |}.
Proof.
  unfold re_match. destruct text as [|c text]; cbn [rsearch rmatch m_prev].
  - now destruct (rmatch r Some _).
  - destruct (rmatch r Some _); [reflexivity | apply anchored_search].
Qed.

Lemma iso_date_test text : re_test RE_ISO_DATE text = is_iso_date text.
Proof.
  unfold re_test, RE_ISO_DATE. rewrite anchored_match.
  unfold digit. change (js "-") with [45%N]. unfold is_iso_date, DASH.
  destruct text
    as [|y1 [|y2 [|y3 [|y4 [|d1 [|m1 [|m2 [|d2 [|a1 [|a2 [|x rest]]]]]]]]]]];
    cbn [rmatch Lit m_rest advance];
    repeat match goal with
           | |- context [is_digit ?c] => destruct (is_digit c)
           | |- context [(45 =? ?c)%N] =>
               rewrite ?(N.eqb_sym c 45); destruct (45 =? c)%N
           | |- context [(?c =? 45)%N] =>
               rewrite (N.eqb_sym c 45); destruct (45 =? c)%N
           end;
    reflexivity.
Qed.

Lemma month_number_truthy name mm :
  month_number name = Some mm ->
  get_property monthMap name = Some (PString mm) /\ truthy mm = true.
Proof.
  unfold month_number, get_property, monthMap. cbn [assoc].
  repeat match goal with
         | |- context [str_eqb ?a name] => destruct (str_eqb a name)
         end;
    intros [= <-]; split; reflexivity.
Qed.

(** Where the date normalizer does what the specification says: on every
    text whose month word is not a name every object inherits. *)
Lemma normalizePublishedDate_by_table {host : Host} (v : option jsstring) :
  let text := cleanText v in
  (is_iso_date text = true -> normalizePublishedDate v = Ok text)
  /\ (is_iso_date text = false -> re_match RE_LONG_MONTH text = None ->
      normalizePublishedDate v = Ok [])
  /\ (is_iso_date text = false ->
      forall m g1, re_match RE_LONG_MONTH text = Some m -> cap 1 m = Some g1 ->
        (forall mm, month_number (toLowerCase g1) = Some mm ->
           normalizePublishedDate v
           = Ok (template_str (cap 3 m) ++ js "-" ++ mm ++ js "-"
                 ++ padStart0 2 (Number_toString (ToNumber (cap 2 m)))))
        /\ (month_number (toLowerCase g1) = None ->
            inherited (toLowerCase g1) = false ->
            normalizePublishedDate v = Ok [])).
Proof.
  intros text. unfold normalizePublishedDate. fold text.
  rewrite iso_date_test. split; [|split].
  - intros H. rewrite H. destruct text; [discriminate H | reflexivity].
  - intros H Hm. rewrite H, Hm. now destruct (negb (truthy text)).
  - intros H m g1 Hm Hg. rewrite H, Hm, Hg.
    destruct text as [|c text'] eqn:Et; [discriminate Hm|]. cbn [truthy negb].
    split.
    + intros mm Hmm. apply month_number_truthy in Hmm as [-> Ht].
      cbn [prop_truthy template_of]. now rewrite Ht.
    + unfold month_number, inherited, get_property. intros H1 H2.
      destruct (assoc (toLowerCase g1) monthMap) as [[mm| |]|] eqn:Ea;
        try discriminate H1.
      * exfalso. revert Ea. unfold monthMap. cbn [assoc].
        repeat match goal with
               | |- context [str_eqb ?a ?b] => destruct (str_eqb a b)
               end; discriminate.
      * exfalso. revert Ea. unfold monthMap. cbn [assoc].
        repeat match goal with
               | |- context [str_eqb ?a ?b] => destruct (str_eqb a b)
               end; discriminate.
      * destruct (assoc (toLowerCase g1) Object_prototype);
          [discriminate H2 | reflexivity].
Qed.

(** ** Failures of the extraction *)

Lemma str_eqb_eq a b : str_eqb a b = true <-> a = b.
Proof.
  unfold str_eqb. destruct (jsstring_eq_dec a b); split; congruence.
Qed.


Section FailureFacts.
Context {host : Host}.

(** The course record is always built, field by field. *)
Lemma extractCourseData_total doc :
  exists cd,
    extractCourseData doc = Ok cd
    /\ courseTitle cd = cleanText (d_header_h1 doc)
    /\ courseDescription cd = getCourseDescription doc
    /\ tutor cd = cleanText (d_tutor doc)
    /\ totalDuration cd = extractMinutes (Some (or_empty (d_header_meta doc)))
    /\ normalizePublishedDate (Some (getPublishedDate doc))
       = Ok (publishedDate cd).
Proof.
  unfold extractCourseData.
  destruct (normalizePublishedDate_total (Some (getPublishedDate doc))) as [s ->].
  cbn [bind]. eexists. split; [reflexivity|]. now repeat split.
Qed.

Lemma extractCoursePayload_cases pathname doc :
  extractCoursePayload pathname doc
  = if negb (truthy (getCourseSlug pathname)) then Throw NOT_A_COURSE_URL
    else if negb (truthy (cleanText (d_header_h1 doc)))
         then Throw COURSE_NOT_FOUND
         else extractCoursePayload pathname doc.
Proof.
  unfold extractCoursePayload at 1.
  destruct (negb (truthy (getCourseSlug pathname))) eqn:Es; [reflexivity|].
  unfold extractCoursePayload. rewrite Es.
  destruct (extractCourseData_total doc) as (cd & -> & Ht & _).
  cbn [bind]. rewrite Ht.
  now destruct (negb (truthy (cleanText (d_header_h1 doc)))).
Qed.

Lemma extractCoursePayload_ok pathname doc :
  truthy (getCourseSlug pathname) = true ->
  truthy (cleanText (d_header_h1 doc)) = true ->
  exists r cd,
    extractCoursePayload pathname doc = Ok r
    /\ extractCourseData doc = Ok cd
    /\ slug r = getCourseSlug pathname
    /\ p_lessons (payload r) = extractLessons doc
    /\ courseTitle (p_courseData (payload r)) = courseTitle cd
    /\ courseDescription (p_courseData (payload r)) = courseDescription cd
    /\ tutor (p_courseData (payload r)) = tutor cd
    /\ totalDuration (p_courseData (payload r)) = totalDuration cd
    /\ publishedDate (p_courseData (payload r)) = publishedDate cd.
Proof.
  intros Hs Ht. unfold extractCoursePayload. rewrite Hs.
  destruct (extractCourseData_total doc) as (cd & E & Hc & _).
  rewrite E. cbn [bind negb]. rewrite Hc, Ht. cbn [negb].
  eexists. exists cd. split; [reflexivity|]. now repeat split.
Qed.

End FailureFacts.



(** ** The request orchestrator *)

Lemma run_sendMessage (env : browser) tabId past
    (k : option Response -> async (option ExtractCoursePayloadResult)) :
  run env (andThen (sendMessage tabId) k) past
  = match env _ past (SendMessage tabId REQUEST) with
    | inl e => (past ++ [ASend tabId], Throw e)
    | inr response => run env (k response) (past ++ [ASend tabId])
    end.
Proof.
  unfold sendMessage. cbn [andThen run action_of]. fold REQUEST.
  now destruct (env _ past (SendMessage tabId REQUEST)).
Qed.

Lemma run_settle (env : browser) A (r : result A) past :
  run env (settle r) past = (past, r).
Proof. now destruct r. Qed.

(** A request, then the parsing of its response. *)
Lemma run_request (env : browser) tabId past :
  run env (andThen (sendMessage tabId)
             (fun response => settle (parseExtractResponse response))) past
  = (past ++ [ASend tabId],
     request_outcome (env _ past (SendMessage tabId REQUEST))).
Proof.
  rewrite run_sendMessage. unfold request_outcome.
  destruct (env _ past (SendMessage tabId REQUEST)); [reflexivity|].
  apply run_settle.
Qed.


Lemma run_tryCatch (env : browser) A (m : async A) handler : forall past,
  run env (tryCatch m handler) past
  = match run env m past with
    | (past', Ok a) => (past', Ok a)
    | (past', Throw e) => run env (handler e) past'
    end.
Proof.
  induction m as [a|e|X call k IH]; intros past; cbn [tryCatch run];
    [reflexivity | reflexivity | apply IH].
Qed.

(** After a failure that starts one: the recovery, then the retry. *)
Lemma run_recovery (env : browser) tabId past :
  run env
    (andThen
       (Await CanUseScriptingApi (fun scripting =>
          if scripting
          then executeScript tabId [js "content.js"]
          else refreshTabAndWait tabId))
       (fun _ =>
          andThen (sendMessage tabId) (fun retryResponse =>
            settle (parseExtractResponse retryResponse)))) past
  = recovery_run env tabId past.
Proof.
  unfold recovery_run. cbn [andThen run action_of].
  destruct (env bool past CanUseScriptingApi).
  - unfold executeScript. cbn [andThen run action_of].
    destruct (env _ (past ++ [AProbe]) (ExecuteScript tabId [js "content.js"])).
    + reflexivity.
    + cbn [andThen]. rewrite run_request, <- app_assoc. reflexivity.
  - unfold refreshTabAndWait, reloadTab. cbn [andThen run action_of].
    destruct (env _ (past ++ [AProbe]) (ReloadTab tabId)); [reflexivity|].
    unfold waitForTabComplete. cbn [andThen run action_of].
    fold (tab_completes tabId
            (env _ ((past ++ [AProbe]) ++ [AReload tabId]) (TabUpdates 15000))).
    destruct (tab_completes tabId _).
    + cbn [andThen]. rewrite run_request, <- !app_assoc. reflexivity.
    + cbn [andThen run]. rewrite <- !app_assoc. reflexivity.
Qed.

Lemma run_requestCourseData (env : browser) tab tabId :
  assertValidCourseTab tab = Ok tabId ->
  run env (requestCourseData tab) []
  = let first := request_outcome (env _ [] (SendMessage tabId REQUEST)) in
    if starts_recovery first then recovery_run env tabId [ASend tabId]
    else ([ASend tabId], first).
Proof.
  intros Hv. unfold requestCourseData. rewrite Hv. cbn [settle andThen].
  rewrite run_tryCatch, run_request. cbn [app].
  destruct (request_outcome _) as [a|e]; [reflexivity|].
  cbn [starts_recovery]. destruct (isMissingReceiverError e); cbn [negb].
  - apply run_recovery.
  - reflexivity.
Qed.

Lemma recovery_run_shape (env : browser) tabId :
  let trace := fst (recovery_run env tabId [ASend tabId]) in
  In trace (protocol_traces tabId)
  /\ length (filter is_recovery trace) = 1
  /\ length (filter is_send trace) <= 2.
Proof.
  unfold recovery_run.
  destruct (env bool _ CanUseScriptingApi).
  - destruct (env _ _ (ExecuteScript tabId [js "content.js"]));
      cbn; repeat split; auto; tauto.
  - destruct (env _ _ (ReloadTab tabId)); [cbn; repeat split; auto; tauto|].
    destruct (tab_completes tabId _); cbn; repeat split; auto; tauto.
Qed.

Lemma extractCoursePayload_throws {host : Host} pathname doc e :
  extractCoursePayload pathname doc = Throw e ->
  e = NOT_A_COURSE_URL \/ e = COURSE_NOT_FOUND.
Proof.
  intros H. destruct (truthy (getCourseSlug pathname)) eqn:Es.
  - destruct (truthy (cleanText (d_header_h1 doc))) eqn:Et.
    + destruct (extractCoursePayload_ok _ _ Es Et) as (r & cd & E & _).
      congruence.
    + rewrite extractCoursePayload_cases, Es, Et in H. right.
      now injection H.
  - rewrite extractCoursePayload_cases, Es in H. left. now injection H.
Qed.

(** The failures this content script reports never hold the words of a
    missing receiver: they surface at once. *)
Lemma content_script_failures_are_final {host : Host} pathname doc response :
  handleExtractMessage (Some REQUEST) pathname doc = Some response ->
  ok response = false ->
  exists e, error response = Some e /\ e <> []
            /\ includes NO_RECEIVER e = false.
Proof.
  unfold handleExtractMessage, REQUEST.
  change (str_eqb (js "extract-course-data") (js "extract-course-data"))
    with true. cbn [negb].
  destruct (extractCoursePayload pathname doc) as [r|e] eqn:E.
  - intros [= <-]. discriminate.
  - intros [= <-] _. apply extractCoursePayload_throws in E as [-> | ->];
      (eexists; split; [reflexivity|];
       split; [discriminate | vm_compute; reflexivity]).
Qed.

(** After a failure that starts it, a recovery either succeeds and is
    followed by one more request, the last call, whose outcome is the
    result, or fails, and its failure is the result with no request after
    it. *)
Lemma recovery_run_outcome (env : browser) tabId :
  let outcome := recovery_run env tabId [ASend tabId] in
  (exists past,
      fst outcome = past ++ [ASend tabId]
      /\ snd outcome = request_outcome (env _ past (SendMessage tabId REQUEST))
      /\ length (filter is_send (fst outcome)) = 2)
  \/ (exists e,
        snd outcome = Throw e
        /\ length (filter is_send (fst outcome)) = 1
        /\ (exists before last, fst outcome = before ++ [last]
                                /\ is_send last = false)).
Proof.
  unfold recovery_run.
  destruct (env bool _ CanUseScriptingApi).
  - destruct (env _ _ (ExecuteScript tabId [js "content.js"])) as [e|[]].
    + right. exists e. cbn. repeat split.
      exists [ASend tabId; AProbe], (AInject tabId [js "content.js"]).
      now split.
    + left. eexists. cbn. split; [|split; reflexivity].
      now change [ASend tabId; AProbe; AInject tabId [js "content.js"]; ASend tabId]
        with ([ASend tabId; AProbe; AInject tabId [js "content.js"]]
              ++ [ASend tabId]).
  - destruct (env _ _ (ReloadTab tabId)) as [message|].
    + right. eexists. cbn. repeat split.
      exists [ASend tabId; AProbe], (AReload tabId). now split.
    + destruct (tab_completes tabId _).
      * left. eexists. cbn. split; [|split; reflexivity].
        now change [ASend tabId; AProbe; AReload tabId; AWait 15000; ASend tabId]
          with ([ASend tabId; AProbe; AReload tabId; AWait 15000]
                ++ [ASend tabId]).
      * right. eexists. cbn. repeat split.
        exists [ASend tabId; AProbe; AReload tabId], (AWait 15000).
        now split.
Qed.

(** C3, as the code has it.  An invalid tab is rejected before any call.
    Otherwise one request is sent.  If it succeeds, or fails in another
    way than with the words of a missing receiver, that is the result and
    nothing else is called: so every failure the content script reports
    surfaces with no retry, as does every structured failure whose
    non-empty error text does not hold these words.  If the send fails
    with these words, one recovery follows: an injection when scripting is
    available, else a reload and a wait of 15000 ms that fails with the
    manual-reload message on timeout.  A recovery that fails propagates
    with no request after it; one that succeeds is followed by one retry,
    the last call, whose outcome is the result.  No invocation makes more
    than one recovery or more than two requests. *)
Theorem requestCourseData_protocol (env : browser) (tab : option Tab) :
  match assertValidCourseTab tab with
  | Throw e => run env (requestCourseData tab) [] = ([], Throw e)
  | Ok tabId =>
      let answer := env _ [] (SendMessage tabId REQUEST) in
      let first := request_outcome answer in
      let outcome := run env (requestCourseData tab) [] in
      (starts_recovery first = false -> outcome = ([ASend tabId], first))
      /\ (starts_recovery first = true ->
          outcome = recovery_run env tabId [ASend tabId])
      /\ (forall r e, answer = inr (Some r) -> ok r = false ->
            error r = Some e -> e <> [] -> includes NO_RECEIVER e = false ->
            outcome = ([ASend tabId], Throw (Error e)))
      /\ (forall r, answer = inr (Some r) -> ok r = false ->
            error r = None \/ error r = Some [] ->
            outcome
            = ([ASend tabId], Throw (Error (js "Could not read page data."))))
      /\ (forall (host : Host) pathname doc r,
            answer = inr (Some r) ->
            handleExtractMessage (Some REQUEST) pathname doc = Some r ->
            ok r = false ->
            exists e, error r = Some e
                      /\ outcome = ([ASend tabId], Throw (Error e)))
      /\ (forall e, answer = inl e -> isMissingReceiverError e = true ->
            outcome = recovery_run env tabId [ASend tabId])
      /\ (forall e, answer = inl e -> isMissingReceiverError e = false ->
            outcome = ([ASend tabId], Throw e))
      /\ (starts_recovery first = true ->
          length (filter is_recovery (fst outcome)) = 1
          /\ ((exists past,
                  fst outcome = past ++ [ASend tabId]
                  /\ snd outcome
                     = request_outcome (env _ past (SendMessage tabId REQUEST))
                  /\ length (filter is_send (fst outcome)) = 2)
              \/ (exists e,
                    snd outcome = Throw e
                    /\ length (filter is_send (fst outcome)) = 1
                    /\ (exists before last,
                          fst outcome = before ++ [last]
                          /\ is_send last = false))))
      /\ In (fst outcome) (protocol_traces tabId)
      /\ length (filter is_recovery (fst outcome)) <= 1
      /\ length (filter is_send (fst outcome)) <= 2
  end.
Proof.
  destruct (assertValidCourseTab tab) as [tabId|e] eqn:Hv.
  - intros answer first outcome.
    assert (Hrun : outcome
                   = if starts_recovery first
                     then recovery_run env tabId [ASend tabId]
                     else ([ASend tabId], first))
      by (apply run_requestCourseData, Hv).
    assert (H0 : starts_recovery first = false ->
                 outcome = ([ASend tabId], first))
      by (intros E; now rewrite Hrun, E).
    assert (H1 : starts_recovery first = true ->
                 outcome = recovery_run env tabId [ASend tabId])
      by (intros E; now rewrite Hrun, E).
    assert (H2 : forall r e, answer = inr (Some r) -> ok r = false ->
                 error r = Some e -> e <> [] ->
                 includes NO_RECEIVER e = false ->
                 outcome = ([ASend tabId], Throw (Error e))).
    { intros r e Ha Hok He Hne Hinc.
      assert (Hf : first = Throw (Error e)).
      { unfold first, request_outcome. rewrite Ha. unfold parseExtractResponse.
        rewrite Hok, He. apply truthy_true in Hne. now rewrite Hne. }
      rewrite H0; [now rewrite Hf|]. rewrite Hf. exact Hinc. }
    split; [exact H0|]. split; [exact H1|]. split; [exact H2|].
    split; [|split; [|split; [|split; [|split]]]].
    + intros r Ha Hok He.
      assert (Hf : first = Throw (Error (js "Could not read page data."))).
      { unfold first, request_outcome. rewrite Ha. unfold parseExtractResponse.
        rewrite Hok. now destruct He as [-> | ->]. }
      rewrite H0; [now rewrite Hf|]. rewrite Hf. vm_compute. reflexivity.
    + intros host pathname doc r Ha Hr Hok.
      destruct (content_script_failures_are_final _ _ Hr Hok)
        as (e & He & Hne & Hinc).
      exists e. split; [exact He|]. exact (H2 r e Ha Hok He Hne Hinc).
    + intros e Ha He. apply H1. unfold first, request_outcome.
      now rewrite Ha.
    + intros e Ha He. rewrite H0; unfold first, request_outcome; now rewrite Ha.
    + intros Hs. rewrite (H1 Hs).
      destruct (recovery_run_shape env tabId) as (_ & Hrec & _).
      split; [exact Hrec|]. apply recovery_run_outcome.
    + rewrite Hrun. destruct (starts_recovery first).
      * destruct (recovery_run_shape env tabId) as (Hin & Hrec & Hsend).
        split; [exact Hin|]. split; [lia | exact Hsend].
      * cbn. split; [tauto | lia].
  - unfold requestCourseData. rewrite Hv. reflexivity.
Qed.

(** Recoveries that are not followed by a retry.  No listener answers the
    request; in one run scripting is available and the injection is
    refused, in the other there is no scripting and the reload fails.
    Each failure is the result, after one request and one recovery. *)
Lemma requestCourseData_counterexample :
  let refused := run refusing_browser (requestCourseData sample_tab) [] in
  let lost := run lost_tab_browser (requestCourseData sample_tab) [] in
  assertValidCourseTab sample_tab = Ok 7%Z
  /\ (exists e, refusing_browser [] (SendMessage 7 REQUEST) = inl e
                /\ isMissingReceiverError e = true)
  /\ refused
     = ([ASend 7; AProbe; AInject 7 [js "content.js"]],
        Throw (Error (js "Cannot access contents of the page.")))
  /\ length (filter is_recovery (fst refused)) = 1
  /\ length (filter is_send (fst refused)) = 1
  /\ (exists e, lost_tab_browser [] (SendMessage 7 REQUEST) = inl e
                /\ isMissingReceiverError e = true)
  /\ lost
     = ([ASend 7; AProbe; AReload 7], Throw (Error (js "No tab with id: 7.")))
  /\ length (filter is_recovery (fst lost)) = 1
  /\ length (filter is_send (fst lost)) = 1.
Proof.
  vm_compute. repeat split; eexists; split; reflexivity.
Qed.

(** The reload that never completes: the timeout is the result, and no
    retry is made. *)
Example reload_timeout :
  run stalled_browser (requestCourseData sample_tab) []
  = ([ASend 7; AProbe; AReload 7; AWait 15000], Throw RELOAD_TIMED_OUT).
Proof. vm_compute. reflexivity. Qed.

(** ** The text cleaner *)

Lemma drop_ws_snoc l c :
  drop_ws (l ++ [c])
  = match drop_ws l with
    | [] => if is_ws c then [] else [c]
    | d => d ++ [c]
    end.
Proof.
  induction l as [|a l IH]; cbn [app drop_ws].
  - destruct (is_ws c); reflexivity.
  - destruct (is_ws a); [exact IH | reflexivity].
Qed.

Lemma rev_drop_ws_rev s : rev (drop_ws (rev s)) = strip_end s.
Proof.
  induction s as [|a s IH]; [reflexivity|].
  cbn [rev strip_end]. rewrite drop_ws_snoc, <- IH.
  destruct (drop_ws (rev s)) as [|d ds].
  - destruct (is_ws a); reflexivity.
  - rewrite rev_unit. cbn [rev].
    destruct (rev ds ++ [d]) eqn:E; [|reflexivity].
    destruct (rev ds); discriminate.
Qed.

Lemma trim_strip_end s : trim s = strip_end (drop_ws s).
Proof. unfold trim. apply rev_drop_ws_rev. Qed.

Lemma strip_zwsp_free s :
  forallb (fun c => negb (c =? ZWSP)%N) (strip_zwsp s) = true.
Proof.
  unfold strip_zwsp. induction s as [|c s IH]; [reflexivity|].
  cbn [filter]. destruct (negb (c =? ZWSP)%N) eqn:E; [|exact IH].
  cbn [forallb]. rewrite E. exact IH.
Qed.

Lemma collapse_ws_spaced t :
  forallb (fun c => negb (c =? ZWSP)%N) t = true ->
  spaced true (collapse_ws t) = true.
Proof.
  induction t as [|c r IH]; [reflexivity|].
  cbn [forallb]. intros H. apply andb_true_iff in H. destruct H as [Hc Hr].
  specialize (IH Hr). cbn [collapse_ws].
  destruct (is_ws c) eqn:Ec.
  - destruct r as [|c' r']; [reflexivity|].
    destruct (is_ws c') eqn:Ec'; [exact IH|].
    cbn [collapse_ws] in IH |- *. rewrite Ec' in IH |- *.
    change (spaced true (SPACE :: c' :: collapse_ws r'))
      with (negb (SPACE =? ZWSP)%N
            && (if is_ws SPACE then (SPACE =? SPACE)%N && negb (is_ws c') else true)
            && spaced true (c' :: collapse_ws r')).
    rewrite Ec', IH. reflexivity.
  - cbn [spaced]. rewrite Hc, Ec, IH. reflexivity.
Qed.

Lemma drop_ws_spaced final s :
  spaced final s = true -> spaced final (drop_ws s) = true.
Proof.
  induction s as [|c r IH]; [reflexivity|].
  intros H. cbn [drop_ws]. destruct (is_ws c); [|exact H].
  apply IH. cbn [spaced] in H.
  apply andb_true_iff in H. apply H.
Qed.

Lemma drop_ws_head s :
  match drop_ws s with
  | c :: _ => is_ws c = false
  | [] => True
  end.
Proof.
  induction s as [|c r IH]; [exact I|].
  cbn [drop_ws]. destruct (is_ws c) eqn:E; [exact IH | exact E].
Qed.

Lemma strip_end_head c r :
  match strip_end (c :: r) with
  | d :: _ => d = c
  | [] => is_ws c = true
  end.
Proof.
  cbn [strip_end]. destruct (strip_end r); [|reflexivity].
  destruct (is_ws c); reflexivity.
Qed.

Lemma strip_end_spaced s :
  spaced true s = true -> spaced false (strip_end s) = true.
Proof.
  induction s as [|c r IH]; [reflexivity|].
  intros H. cbn [spaced] in H.
  apply andb_true_iff in H. destruct H as [H Hr].
  apply andb_true_iff in H. destruct H as [Hz Hc].
  specialize (IH Hr). cbn [strip_end].
  destruct (strip_end r) as [|d ds] eqn:E.
  - destruct (is_ws c) eqn:Ec; [reflexivity|].
    cbn [spaced]. rewrite Hz, Ec. reflexivity.
  - cbn [spaced]. cbn [spaced] in IH. rewrite Hz, IH.
    destruct (is_ws c) eqn:Ec; [|reflexivity].
    apply andb_true_iff in Hc. destruct Hc as [Hs Hn]. rewrite Hs.
    destruct r as [|c' r']; [discriminate E|].
    pose proof (strip_end_head c' r') as Hh. rewrite E in Hh. subst d.
    rewrite Hn. reflexivity.
Qed.

Lemma strip_end_keeps_head c r :
  is_ws c = false -> exists r', strip_end (c :: r) = c :: r'.
Proof.
  intros Ec. cbn [strip_end]. destruct (strip_end r) as [|d ds].
  - rewrite Ec. exists []. reflexivity.
  - exists (d :: ds). reflexivity.
Qed.

Lemma cleanText_is_clean v : is_clean (cleanText v) = true.
Proof.
  unfold cleanText. rewrite trim_strip_end.
  pose proof (@collapse_ws_spaced _ (strip_zwsp_free (or_empty v))) as H.
  apply (@drop_ws_spaced true) in H.
  pose proof (drop_ws_head (collapse_ws (strip_zwsp (or_empty v)))) as Hh.
  destruct (drop_ws (collapse_ws (strip_zwsp (or_empty v)))) as [|c r];
    [reflexivity|].
  apply strip_end_spaced in H.
  destruct (@strip_end_keeps_head c r Hh) as [r' E].
  rewrite E in *. unfold is_clean. rewrite Hh, H. reflexivity.
Qed.

Lemma spaced_no_zwsp final s : spaced final s = true -> ~ In ZWSP s.
Proof.
  induction s as [|c r IH]; [intros _ []|].
  cbn [spaced]. intros H.
  apply andb_true_iff in H. destruct H as [H Hr].
  apply andb_true_iff in H. destruct H as [Hz _].
  intros [->|Hin]; [discriminate Hz | exact (IH Hr Hin)].
Qed.

Lemma spaced_blank_is_space final s c :
  spaced final s = true -> In c s -> is_ws c = true -> c = SPACE.
Proof.
  induction s as [|a r IH]; [intros _ []|].
  cbn [spaced]. intros H.
  apply andb_true_iff in H. destruct H as [H Hr].
  apply andb_true_iff in H. destruct H as [_ Ha].
  intros [->|Hin] Hc; [|exact (IH Hr Hin Hc)].
  rewrite Hc in Ha. apply andb_true_iff in Ha.
  apply N.eqb_eq, Ha.
Qed.

Lemma spaced_blank_followed s : forall l1 a l2,
  spaced false s = true -> s = l1 ++ a :: l2 -> is_ws a = true ->
  exists b l3, l2 = b :: l3 /\ is_ws b = false.
Proof.
  induction s as [|c r IH]; intros l1 a l2 H E Ha.
  - destruct l1; discriminate E.
  - cbn [spaced] in H.
    apply andb_true_iff in H. destruct H as [H Hr].
    apply andb_true_iff in H. destruct H as [_ Hc].
    destruct l1 as [|c1 l1]; cbn [app] in E; injection E as -> ->.
    + rewrite Ha in Hc. apply andb_true_iff in Hc. destruct Hc as [_ Hn].
      destruct l2 as [|b l3]; [discriminate Hn|].
      exists b, l3. split; [reflexivity|].
      apply negb_true_iff, Hn.
    + exact (IH l1 a l2 Hr eq_refl Ha).
Qed.

Lemma is_clean_spaced s : is_clean s = true -> spaced false s = true.
Proof.
  destruct s as [|c r]; [reflexivity|].
  unfold is_clean. intros H. apply andb_true_iff in H. apply H.
Qed.

(** X1. Whatever its input, [cleanText] returns a text with no zero-width
    space in which every blank is a single U+0020 that stands between two
    characters that are not blank: no blank at either end, no two blanks
    in a row, no tab or line break. *)
Theorem cleanText_normal_form (v : option jsstring) :
  let t := cleanText v in
  is_clean t = true
  /\ ~ In ZWSP t
  /\ (forall c, In c t -> is_ws c = true -> c = SPACE)
  /\ (forall l1 a l2, t = l1 ++ a :: l2 -> is_ws a = true ->
        l1 <> []
        /\ exists b l3, l2 = b :: l3 /\ is_ws b = false).
Proof.
  intros t. pose proof (cleanText_is_clean v) as H. fold t in H.
  pose proof (@is_clean_spaced _ H) as Hs.
  split; [exact H|]. split; [exact (@spaced_no_zwsp _ _ Hs)|].
  split; [intros c; exact (@spaced_blank_is_space _ _ c Hs)|].
  intros l1 a l2 E Ha. split.
  - intros ->. cbn [app] in E. rewrite E in H. unfold is_clean in H.
    rewrite Ha in H. discriminate H.
  - exact (@spaced_blank_followed _ l1 a l2 Hs E Ha).
Qed.

Lemma spaced_strip_zwsp final s : spaced final s = true -> strip_zwsp s = s.
Proof.
  unfold strip_zwsp. induction s as [|c r IH]; [reflexivity|].
  cbn [spaced filter]. intros H.
  apply andb_true_iff in H. destruct H as [H Hr].
  apply andb_true_iff in H. destruct H as [Hz _].
  rewrite Hz, (IH Hr). reflexivity.
Qed.

Lemma spaced_collapse_ws s : spaced false s = true -> collapse_ws s = s.
Proof.
  induction s as [|c r IH]; [reflexivity|].
  intros H. cbn [spaced] in H.
  apply andb_true_iff in H. destruct H as [H Hr].
  apply andb_true_iff in H. destruct H as [_ Hc].
  specialize (IH Hr). cbn [collapse_ws].
  destruct (is_ws c) eqn:Ec.
  - apply andb_true_iff in Hc. destruct Hc as [Hs Hn].
    apply N.eqb_eq in Hs. subst c.
    destruct r as [|c' r']; [discriminate Hn|].
    apply negb_true_iff in Hn. rewrite Hn, IH. reflexivity.
  - rewrite IH. reflexivity.
Qed.

Lemma spaced_strip_end s : spaced false s = true -> strip_end s = s.
Proof.
  induction s as [|c r IH]; [reflexivity|].
  intros H. cbn [spaced] in H.
  apply andb_true_iff in H. destruct H as [H Hr].
  apply andb_true_iff in H. destruct H as [_ Hc].
  cbn [strip_end]. rewrite (IH Hr).
  destruct r as [|c' r']; [|reflexivity].
  destruct (is_ws c); [|reflexivity].
  apply andb_true_iff in Hc. destruct Hc as [_ Hn]. discriminate Hn.
Qed.

Lemma cleanText_fixed s : is_clean s = true -> cleanText (Some s) = s.
Proof.
  intros H. pose proof (@is_clean_spaced _ H) as Hs.
  unfold cleanText. cbn [or_empty].
  rewrite (@spaced_strip_zwsp _ _ Hs), (@spaced_collapse_ws _ Hs), trim_strip_end.
  assert (drop_ws s = s) as ->.
  { destruct s as [|c r]; [reflexivity|].
    unfold is_clean in H. apply andb_true_iff in H. destruct H as [Hc _].
    apply negb_true_iff in Hc. cbn [drop_ws]. rewrite Hc. reflexivity. }
  exact (@spaced_strip_end _ Hs).
Qed.

(** X2. [cleanText] is idempotent, and the texts it returns unchanged are
    exactly the cleaned ones. *)
Theorem cleanText_idempotent :
  (forall v, cleanText (Some (cleanText v)) = cleanText v)
  /\ (forall s, cleanText (Some s) = s <-> is_clean s = true).
Proof.
  split.
  - intros v. apply cleanText_fixed, cleanText_is_clean.
  - intros s. split.
    + intros E. rewrite <- E. apply cleanText_is_clean.
    + apply cleanText_fixed.
Qed.

(** ** The sign of a lesson duration *)

Lemma round_nonneg q :
  (0 <= q)%Q -> (0 <= Qfloor (q + (1 # 2)))%Z.
Proof.
  intros H. change 0%Z with (Qfloor 0). apply Qfloor_resp_le.
  apply Qle_trans with q; [exact H|].
  rewrite <- (Qplus_0_r q) at 1. apply Qplus_le_r. unfold Qle; cbn; lia.
Qed.

Lemma minutes_between_finite (p q : Q) :
  num_ltb (Fin p) (Fin q) = false ->
  natural_or_infinite
    (Math_round (num_div (num_sub (Fin p) (Fin q)) (num_of_Z 60))).
Proof.
  cbn [num_ltb]. intros H.
  assert (q <= p)%Q as Hle.
  { apply Qnot_lt_le. intros Hlt.
    rewrite (proj1 (Qlt_alt p q) Hlt) in H. discriminate H. }
  unfold num_sub, num_neg, num_add.
  assert (Hdiff : (0 <= p + Qred (- q))%Q) by (rewrite Qred_correct; lra).
  destruct (round64_nonneg Hdiff) as [-> | (d & -> & Hd)]; [now left|].
  unfold num_div, num_of_Z. change (Qis_zero (inject_Z 60)) with false.
  cbv iota.
  assert (Hquot : (0 <= d / inject_Z 60)%Q).
  { apply Qle_shift_div_l; [reflexivity | lra]. }
  destruct (round64_nonneg Hquot) as [-> | (r & -> & Hr)]; [now left|].
  right. eexists. split; [|reflexivity]. now apply round_nonneg.
Qed.

Lemma minutes_between_shape (start end_ : jsnum) :
  num_ltb end_ start = false ->
  let x := Math_round (num_div (num_sub end_ start) (num_of_Z 60)) in
  x = NaN \/ natural_or_infinite x.
Proof.
  intros H x. subst x.
  destruct end_ as [|a|p], start as [|b|q]; cbn [num_ltb] in H;
    try (left; reflexivity).
  - destruct a, b; try discriminate H;
      first [left; reflexivity | right; left; reflexivity].
  - subst a. right. left. reflexivity.
  - apply negb_false_iff in H. subst b. right. left. reflexivity.
  - right. exact (minutes_between_finite _ _ H).
Qed.

(** X3. A lesson duration is never negative: [getDurationFromTimeRange]
    returns the empty text, or [NaN], or what [String] writes for a natural
    number or for the positive infinity; NaN comes from infinite
    timestamps only.  For whole seconds less than 2^52 apart the result is
    the empty text or a run of decimal digits; from 10^21 on [String]
    writes an exponent. *)
Theorem getDurationFromTimeRange_never_negative (v : option jsstring) :
  let r := getDurationFromTimeRange v in
  let parts :=
    map (fun item => cleanText (Some item)) (split_on DASH (cleanText v)) in
  (r = [] \/ r = js "NaN"
   \/ exists x, r = Number_toString x /\ natural_or_infinite x)
  /\ (forall a b,
        timestampToSeconds (nth_error parts 0) = Some (Fin a) ->
        timestampToSeconds (nth_error parts 1) = Some (Fin b) ->
        r = [] \/ exists x, r = Number_toString x /\ natural_or_infinite x)
  /\ (forall a b,
        timestampToSeconds (nth_error parts 0) = Some (num_of_Z a) ->
        timestampToSeconds (nth_error parts 1) = Some (num_of_Z b) ->
        (b - a < 2 ^ 52)%Z ->
        r = [] \/ digit_run r)
  /\ getDurationFromTimeRange (Some (js "Infinity-Infinity")) = js "NaN"
  /\ getDurationFromTimeRange (Some (js "0-Infinity")) = js "Infinity"
  /\ getDurationFromTimeRange (Some (js "Infinity-0")) = []
  /\ getDurationFromTimeRange (Some (js "0-1e21")) = js "16666666666666666000"
  /\ getDurationFromTimeRange (Some (js "0-1e23"))
     = js "1.6666666666666665e+21".
Proof.
  split; [|split; [|split; [|repeat split; vm_compute; reflexivity]]].
  - unfold getDurationFromTimeRange.
    destruct (negb (truthy (cleanText v))); [left; reflexivity|].
    destruct (negb _); [left; reflexivity|].
    destruct (timestampToSeconds _) as [start|]; [|left; reflexivity].
    destruct (timestampToSeconds _) as [end_|]; [|left; reflexivity].
    destruct (num_ltb end_ start) eqn:E; [left; reflexivity|].
    right. destruct (minutes_between_shape _ _ E) as [-> | H].
    + left. reflexivity.
    + right. eexists. split; [reflexivity | exact H].
  - intros a b Ha Hb. unfold getDurationFromTimeRange.
    destruct (negb (truthy (cleanText v))); [left; reflexivity|].
    destruct (negb _); [left; reflexivity|].
    rewrite Ha, Hb.
    destruct (num_ltb (Fin b) (Fin a)) eqn:E; [left; reflexivity|].
    right. eexists. split; [reflexivity|].
    exact (minutes_between_finite _ _ E).
  - intros a b Ha Hb Hab. unfold getDurationFromTimeRange.
    destruct (negb (truthy (cleanText v))); [left; reflexivity|].
    destruct (negb _); [left; reflexivity|].
    rewrite Ha, Hb, num_ltb_Z.
    destruct (b <? a)%Z eqn:E; [left; reflexivity|]. right.
    apply Z.ltb_ge in E.
    rewrite num_sub_Z by (unfold safe_integer; lia).
    rewrite round_minutes by lia.
    assert (H0 : (0 <= (b - a + 30) / 60 <= b - a + 30)%Z).
    { split; [apply Z.div_pos; lia|]. apply Z.div_le_upper_bound; lia. }
    rewrite Number_toString_Z by (unfold safe_integer; lia).
    apply Z_to_string_digits. lia.
Qed.

(** ** Splitting and joining *)

Lemma split_on_free sep s :
  ~ In sep s -> split_on sep s = [s].
Proof.
  induction s as [|c r IH]; [reflexivity|].
  intros H. cbn [split_on].
  destruct (N.eqb_spec c sep) as [->|_]; [elim H; left; reflexivity|].
  rewrite IH; [reflexivity|]. intros Hin. apply H. right. exact Hin.
Qed.

Lemma split_on_app sep a b :
  ~ In sep a -> split_on sep (a ++ sep :: b) = a :: split_on sep b.
Proof.
  induction a as [|c r IH]; intros H; cbn [app split_on].
  - rewrite N.eqb_refl. reflexivity.
  - destruct (N.eqb_spec c sep) as [->|_]; [elim H; left; reflexivity|].
    rewrite IH; [reflexivity|]. intros Hin. apply H. right. exact Hin.
Qed.

Lemma split_on_parts sep s p : In p (split_on sep s) -> ~ In sep p.
Proof.
  revert p. induction s as [|c r IH]; intros p; cbn [split_on].
  - intros [<-|[]] [].
  - destruct (N.eqb_spec c sep) as [->|Hne].
    + intros [<-|Hin]; [intros []|exact (IH p Hin)].
    + destruct (split_on sep r) as [|q qs] eqn:E.
      * intros [<-|[]] [Hc|[]]. exact (Hne Hc).
      * intros [<-|Hin].
        -- intros [Hc|Hq]; [exact (Hne Hc)|].
           exact (IH q (or_introl eq_refl) Hq).
        -- exact (IH p (or_intror Hin)).
Qed.

Lemma join_split_on sep s : join [sep] (split_on sep s) = s.
Proof.
  induction s as [|c r IH]; [reflexivity|].
  cbn [split_on]. pose proof (@split_on_nonempty sep r) as Hne.
  destruct (N.eqb_spec c sep) as [->|_].
  - destruct (split_on sep r) as [|q qs]; [elim Hne; reflexivity|].
    change (join [sep] ([] :: q :: qs)) with (sep :: join [sep] (q :: qs)).
    rewrite IH. reflexivity.
  - destruct (split_on sep r) as [|q qs]; [elim Hne; reflexivity|].
    rewrite <- IH. destruct qs; reflexivity.
Qed.

(** ** The course slug *)

Lemma filter_truthy_In (parts : list jsstring) p :
  In p (filter truthy parts) -> In p parts.
Proof. intros H. apply filter_In in H. apply H. Qed.

Section SlugFacts.
Context {host : Host}.

Lemma getCourseSlug_segment pathname :
  getCourseSlug pathname = []
  \/ In (getCourseSlug pathname) (split_on SLASH pathname).
Proof.
  unfold getCourseSlug.
  destruct (filter truthy (split_on SLASH pathname)) as [|p0 [|p1 ps]] eqn:E;
    [left; reflexivity | left; reflexivity |].
  destruct (str_eqb p0 (js "courses")); [|left; reflexivity].
  right. apply filter_truthy_In. rewrite E. right. left. reflexivity.
Qed.

Lemma getCourseSlug_canonical slug rest :
  slug <> [] -> ~ In SLASH slug -> ~ In SLASH rest ->
  getCourseSlug (js "/courses/" ++ slug ++ SLASH :: rest) = slug.
Proof.
  intros Hne Hfree Hrest. unfold getCourseSlug.
  change (js "/courses/" ++ slug ++ SLASH :: rest)
    with ([] ++ SLASH :: js "courses" ++ SLASH :: slug ++ SLASH :: rest).
  rewrite split_on_app by (intros []).
  rewrite split_on_app
    by (unfold SLASH; cbn; intuition discriminate).
  rewrite split_on_app by exact Hfree.
  rewrite split_on_free by exact Hrest.
  cbn [filter truthy].
  destruct slug as [|c r]; [elim Hne; reflexivity|]. cbn [truthy].
  reflexivity.
Qed.

End SlugFacts.

(** X4. The slug is one segment of the path, so it never holds a slash;
    and the path of the canonical course URL that [buildCourseUrl] builds
    from a slug reads back to that slug. *)
Theorem getCourseSlug_round_trip {host : Host} :
  (forall pathname, ~ In SLASH (getCourseSlug pathname))
  /\ (forall slug, slug <> [] -> ~ In SLASH slug ->
        buildCourseUrl slug
        = location_origin ++ js "/courses/" ++ slug ++ js "/"
        /\ getCourseSlug (js "/courses/" ++ slug ++ js "/") = slug
        /\ getCourseSlug (js "/courses/" ++ slug) = slug
        /\ getCourseSlug (js "/courses/" ++ slug ++ js "/intro/") = slug)
  /\ (forall pathname,
        getCourseSlug pathname <> [] ->
        getCourseSlug (js "/courses/" ++ getCourseSlug pathname ++ js "/")
        = getCourseSlug pathname).
Proof.
  assert (forall pathname, ~ In SLASH (getCourseSlug pathname)) as Hfree.
  { intros pathname. destruct (getCourseSlug_segment pathname) as [->|Hin].
    - intros [].
    - exact (@split_on_parts _ _ _ Hin). }
  split; [exact Hfree|]. split.
  - intros slug Hne Hs. split; [|split; [|split]].
    + unfold buildCourseUrl. destruct slug; [elim Hne; reflexivity|].
      reflexivity.
    + apply getCourseSlug_canonical; [exact Hne | exact Hs | intros []].
    + unfold getCourseSlug.
      change (js "/courses/" ++ slug)
        with ([] ++ SLASH :: js "courses" ++ SLASH :: slug).
      rewrite split_on_app by (intros []).
      rewrite split_on_app by (unfold SLASH; cbn; intuition discriminate).
      rewrite split_on_free by exact Hs.
      cbn [filter truthy].
      destruct slug as [|c r]; [elim Hne; reflexivity|]. reflexivity.
    + unfold getCourseSlug.
      change (js "/courses/" ++ slug ++ js "/intro/")
        with ([] ++ SLASH :: js "courses" ++ SLASH :: slug
                 ++ SLASH :: js "intro" ++ SLASH :: []).
      rewrite split_on_app by (intros []).
      rewrite split_on_app by (unfold SLASH; cbn; intuition discriminate).
      rewrite split_on_app by exact Hs.
      destruct slug as [|c r]; [elim Hne; reflexivity|]. reflexivity.
  - intros pathname Hne.
    apply getCourseSlug_canonical; [exact Hne | apply Hfree | intros []].
Qed.

(** ** The published label *)

(** X5. [getPublishedDate] reads the first candidate whose text mentions
    "published": without a colon the cleaned text is the result, otherwise
    the label up to the first colon is dropped and what follows, later
    colons included, is cleaned and returned. *)
Theorem getPublishedDate_drops_label {host : Host} (doc : Document)
    (node : jsstring) :
  find mentions_published (d_group_duration doc) = Some node ->
  let text := cleanText (Some node) in
  (~ In COLON text -> getPublishedDate doc = text)
  /\ (forall label rest,
        text = label ++ COLON :: rest -> ~ In COLON label ->
        getPublishedDate doc = cleanText (Some rest)).
Proof.
  intros Hfind text. unfold getPublishedDate.
  change (find _ (d_group_duration doc))
    with (find mentions_published (d_group_duration doc)).
  rewrite Hfind. fold text. split.
  - intros Hfree. rewrite split_on_free by exact Hfree. reflexivity.
  - intros label rest E Hfree. rewrite E, split_on_app by exact Hfree.
    pose proof (@split_on_nonempty COLON rest) as Hne.
    destruct (split_on COLON rest) as [|q qs] eqn:Es;
      [elim Hne; reflexivity|].
    cbn [length Nat.ltb Nat.leb tl]. rewrite <- Es.
    change (js ":") with [COLON]. rewrite join_split_on. reflexivity.
Qed.

Lemma getPublishedDate_drops_label_witness :
  find (mentions_published (host := sample_host))
       [js "4 hours"; js " Published:  March 3, 2022 at 10:30 "]
  = Some (js " Published:  March 3, 2022 at 10:30 ")
  /\ getPublishedDate (host := sample_host)
       {| d_header_h1 := None; d_h3 := []; d_content_p := None;
          d_tutor := None; d_header_meta := None;
          d_group_duration :=
            [js "4 hours"; js " Published:  March 3, 2022 at 10:30 "];
          d_sequence := [] |}
     = js "March 3, 2022 at 10:30".
Proof.
  split; [reflexivity|].
  exact (proj2 (@getPublishedDate_drops_label sample_host
            {| d_header_h1 := None; d_h3 := []; d_content_p := None;
               d_tutor := None; d_header_meta := None;
               d_group_duration :=
                 [js "4 hours"; js " Published:  March 3, 2022 at 10:30 "];
               d_sequence := [] |}
            (js " Published:  March 3, 2022 at 10:30 ") eq_refl)
          (js "Published") (js " March 3, 2022 at 10:30") eq_refl
          ltac:(cbn; unfold COLON; intuition discriminate)).
Defined.

(** ** Lessons, items and headers *)

Section LessonFacts.
Context {host : Host}.

Lemma lessons_under_fields section items : forall n,
  map lesson_fields (lessons_under section n items) = map item_fields items.
Proof.
  unfold lessons_under.
  induction items as [|item items IH]; intros n; [reflexivity|].
  cbn [length Zseq combine map]. rewrite IH. reflexivity.
Qed.

Lemma lessons_under_app section a : forall b n,
  lessons_under section n (a ++ b)
  = lessons_under section n a
    ++ lessons_under section (n + Z.of_nat (length a)) b.
Proof.
  unfold lessons_under.
  induction a as [|x a IH]; intros b n.
  - cbn [app length map combine Zseq]. rewrite Z.add_0_r. reflexivity.
  - cbn [app length Zseq combine map]. rewrite IH.
    replace (n + 1 + Z.of_nat (length a))%Z
      with (n + Z.of_nat (S (length a)))%Z by lia.
    reflexivity.
Qed.

Lemma walk_from_fields sequence : forall w,
  map lesson_fields (lessons (walk_from w sequence))
  = map lesson_fields (lessons w)
    ++ map item_fields (flat_map items_of sequence).
Proof.
  induction sequence as [|node rest IH]; intros w.
  - cbn [walk_from fold_left flat_map map]. rewrite app_nil_r. reflexivity.
  - change (walk_from w (node :: rest))
      with (walk_from (walk_node w node) rest).
    rewrite IH. cbn [flat_map]. rewrite map_app, app_assoc. f_equal.
    destruct (node_role node) as [[Hh | [Hh Hl]] | [Hh Hl]].
    + rewrite (walk_node_header w _ Hh). walker_simpl.
      unfold items_of, is_lesson_list. unfold is_header in Hh. rewrite Hh.
      cbn [negb andb map]. rewrite app_nil_r. reflexivity.
    + rewrite (walk_node_list w _ Hl). walker_simpl.
      rewrite map_app. f_equal. unfold items_of. rewrite Hl.
      apply lessons_under_fields.
    + rewrite (walk_node_other w _ Hh Hl).
      unfold items_of. rewrite Hl. cbn [map]. rewrite app_nil_r. reflexivity.
Qed.

Lemma lists_under_section mid : forall w s,
  currentSection w = Some s ->
  forallb (fun node => negb (is_header node)) mid = true ->
  lessons (walk_from w mid)
  = lessons w ++ lessons_under s (nextLessonId w) (flat_map items_of mid)
  /\ currentSection (walk_from w mid) = Some s.
Proof.
  induction mid as [|node rest IH]; intros w s Hs Hmid.
  - cbn [walk_from fold_left flat_map]. unfold lessons_under.
    cbn [length Zseq combine map]. rewrite app_nil_r. split; [reflexivity|exact Hs].
  - cbn [forallb] in Hmid. apply andb_true_iff in Hmid.
    destruct Hmid as [Hn Hrest]. apply negb_true_iff in Hn.
    change (walk_from w (node :: rest))
      with (walk_from (walk_node w node) rest).
    cbn [flat_map]. rewrite lessons_under_app.
    destruct (node_role node) as [[Hh | [Hh Hl]] | [Hh Hl]].
    + rewrite Hh in Hn. discriminate Hn.
    + assert (currentSection (walk_node w node) = Some s) as Hs'.
      { rewrite (walk_node_list w _ Hl). walker_simpl. rewrite Hs. reflexivity. }
      destruct (IH _ _ Hs' Hrest) as [E Ec]. rewrite E. split; [|exact Ec].
      rewrite (walk_node_list w _ Hl). walker_simpl. rewrite Hs.
      unfold items_of. rewrite Hl. rewrite <- app_assoc. reflexivity.
    + rewrite (walk_node_other w _ Hh Hl).
      destruct (IH _ _ Hs Hrest) as [E Ec]. rewrite E. split; [|exact Ec].
      unfold items_of. rewrite Hl.
      unfold lessons_under at 2. cbn [length Zseq combine map app].
      rewrite Z.add_0_r. reflexivity.
Qed.

Lemma section_counter sequence : forall w,
  nextSectionId w = (1001 + Z.of_nat (length (opened w)))%Z ->
  nextSectionId (walk_from w sequence)
  = (1001 + Z.of_nat (length (opened (walk_from w sequence))))%Z.
Proof.
  induction sequence as [|node rest IH]; intros w Hw; [exact Hw|].
  change (walk_from w (node :: rest))
    with (walk_from (walk_node w node) rest).
  apply IH.
  destruct (node_role node) as [[Hh | [Hh Hl]] | [Hh Hl]].
  - rewrite (walk_node_header w _ Hh). walker_simpl.
    rewrite length_app. cbn [length]. lia.
  - rewrite (walk_node_list w _ Hl). walker_simpl.
    destruct (currentSection w); [exact Hw|].
    rewrite length_app. cbn [length]. lia.
  - rewrite (walk_node_other w _ Hh Hl). exact Hw.
Qed.

End LessonFacts.

(** X6. The lessons come out in document order, one for each lesson item
    of each lesson list (a node that is also a header gives none): title,
    description, time range, duration and URL of a lesson are those of its
    item, whatever the sections are. *)
Theorem lessons_follow_items {host : Host} (doc : Document) :
  map lesson_fields (extractLessons doc)
  = map item_fields (flat_map items_of (d_sequence doc)).
Proof.
  unfold extractLessons, walk. rewrite walk_from_fields. reflexivity.
Qed.

(** X7. The lessons of the lists that follow a header, up to the next
    header, all carry the section of that header: its cleaned title, its
    duration in minutes, and the id 1001 plus the number of sections
    opened before it; their ids go on from the lessons before. *)
Theorem header_owns_following_lists {host : Host}
    (before : list Node) (header : Node) (following : list Node) :
  is_header header = true ->
  forallb (fun node => negb (is_header node)) following = true ->
  let w := walk before in
  lessons (walk (before ++ header :: following))
  = lessons w
    ++ lessons_under
         {| sec_id := 1001 + Z.of_nat (length (opened w));
            sec_title := cleanText (n_h3 header);
            sec_duration := extractMinutes (n_duration header) |}
         (1 + Z.of_nat (length (lessons w)))
         (flat_map items_of following).
Proof.
  intros Hh Hf w. unfold walk. rewrite walk_from_app.
  change (walk_from walker_init before) with w.
  change (walk_from w (header :: following))
    with (walk_from (walk_node w header) following).
  assert (nextSectionId w = (1001 + Z.of_nat (length (opened w)))%Z) as Hsec.
  { apply section_counter. reflexivity. }
  assert (ids_inv w) as [_ Hid].
  { apply ids_inv_walk. split; reflexivity. }
  destruct (@lists_under_section _ following (walk_node w header)
              (header_section w header)) as [E _].
  - rewrite (walk_node_header w _ Hh). reflexivity.
  - exact Hf.
  - rewrite E, (walk_node_header w _ Hh). walker_simpl.
    unfold header_section. rewrite Hsec, Hid. reflexivity.
Qed.

Lemma header_owns_following_lists_witness :
  map (fun l => (id l, sectionId l, sectionTitle l, sectionDuration l))
      (extractLessons (host := sample_host) sample_doc)
  = [ (1%Z, 1002%Z, js "Basics", js "45");
      (2%Z, 1002%Z, js "Basics", js "45") ].
Proof.
  unfold extractLessons.
  change (d_sequence sample_doc)
    with ([header_node "Empty" " "]
          ++ header_node "Basics" "45 mins"
             :: [list_node [sample_item "Hello" "00:00:00-00:03:00";
                            sample_item "World" "00:03:00-00:10:30"]]).
  rewrite (@header_owns_following_lists sample_host
             [header_node "Empty" " "] (header_node "Basics" "45 mins")
             [list_node [sample_item "Hello" "00:00:00-00:03:00";
                         sample_item "World" "00:03:00-00:10:30"]]
             eq_refl eq_refl).
  reflexivity.
Defined.

(** ** Counts of the payload *)

Lemma nodup_length_le (values : list Z) :
  length (nodup Z.eq_dec values) <= length values.
Proof.
  apply NoDup_incl_length; [apply NoDup_nodup|].
  intros x Hx. apply nodup_In in Hx. exact Hx.
Qed.

Lemma nodup_empty (values : list Z) :
  length (nodup Z.eq_dec values) = 0 <-> length values = 0.
Proof.
  split; intros H.
  - destruct values as [|x values]; [reflexivity|].
    assert (In x (nodup Z.eq_dec (x :: values))) as Hin
      by (apply nodup_In; left; reflexivity).
    destruct (nodup Z.eq_dec (x :: values)); [destruct Hin | discriminate H].
  - destruct values; [reflexivity | discriminate H].
Qed.

(** X8. In every payload the section count is at most the lesson count,
    the two are zero together, and the task list the popup derives from
    the payload has as many tasks as the lesson count says. *)
Theorem payload_counts_ordered {host : Host} (pathname : jsstring)
    (doc : Document) (r : ExtractCoursePayloadResult) :
  extractCoursePayload pathname doc = Ok r ->
  exists sections lessons : Z,
    sectionCount (p_courseData (payload r)) = Some sections
    /\ lessonCount (p_courseData (payload r)) = Some lessons
    /\ (0 <= sections <= lessons)%Z
    /\ (sections = 0 <-> lessons = 0)%Z
    /\ Z.of_nat (length (buildV2Payload (Some (received (payload r)))))
       = lessons.
Proof.
  intros H. unfold extractCoursePayload in H.
  destruct (negb (truthy (getCourseSlug pathname))); [discriminate H|].
  destruct (extractCourseData doc) as [cd|e]; cbn [bind] in H;
    [|discriminate H].
  destruct (negb (truthy (courseTitle cd))); [discriminate H|].
  injection H as <-. cbn [payload p_courseData sectionCount lessonCount].
  eexists. eexists. split; [reflexivity|]. split; [reflexivity|].
  rewrite filter_finite_ids, Set_size_distinct.
  pose proof (nodup_length_le (map sectionId (extractLessons doc))) as Hle.
  pose proof (nodup_empty (map sectionId (extractLessons doc))) as Hz.
  rewrite length_map in Hle, Hz.
  split; [lia|]. split; [lia|].
  unfold buildV2Payload, received. cbn [v_lessons p_lessons].
  rewrite !length_map. reflexivity.
Qed.

Lemma payload_counts_ordered_witness :
  exists r,
    extractCoursePayload (host := sample_host) (js "/courses/demo/") sample_doc
    = Ok r
    /\ sectionCount (p_courseData (payload r)) = Some 1%Z
    /\ lessonCount (p_courseData (payload r)) = Some 2%Z
    /\ length (buildV2Payload
                 (Some (received (payload r)))) = 2.
Proof.
  destruct (extractCoursePayload (host := sample_host) (js "/courses/demo/")
              sample_doc) as [r|e] eqn:E; [|discriminate E].
  exists r. split; [reflexivity|].
  destruct (@payload_counts_ordered sample_host _ _ _ E)
    as (s & n & Hs & Hn & _ & _ & Ht).
  injection E as <-. repeat split; reflexivity.
Defined.

(** ** The content script and the popup *)

Section PageFacts.
Context {host : Host}.

Lemma extraction_error_text pathname doc e :
  extractCoursePayload pathname doc = Throw e ->
  e = Error (exn_message e) /\ truthy (exn_message e) = true
  /\ isMissingReceiverError e = false.
Proof.
  intros H. destruct (extractCoursePayload_throws _ _ H) as [-> | ->];
    repeat split; reflexivity.
Qed.

Lemma parse_handled pathname doc :
  parseExtractResponse (handleExtractMessage (Some REQUEST) pathname doc)
  = extraction_outcome pathname doc.
Proof.
  unfold handleExtractMessage, extraction_outcome.
  change (negb (str_eqb REQUEST (js "extract-course-data"))) with false.
  cbv iota.
  destruct (extractCoursePayload pathname doc) as [r|e] eqn:E; [reflexivity|].
  destruct (extraction_error_text _ _ E) as (He & Ht & _).
  unfold parseExtractResponse. cbn [ok error negb]. rewrite Ht, <- He.
  reflexivity.
Qed.

Lemma extraction_is_final pathname doc :
  starts_recovery (extraction_outcome pathname doc) = false.
Proof.
  unfold extraction_outcome.
  destruct (extractCoursePayload pathname doc) as [r|e] eqn:E; [reflexivity|].
  cbn [starts_recovery]. apply (extraction_error_text _ _ E).
Qed.

End PageFacts.

(** X9. The content script answers a message exactly when its type is
    [extract-course-data], and what [parseExtractResponse] makes of the
    answer is the outcome of the extraction itself: the same result, or an
    [Error] with the same message. *)
Theorem response_round_trip {host : Host} (pathname : jsstring)
    (doc : Document) :
  (forall message,
     handleExtractMessage message pathname doc = None
     <-> message <> Some REQUEST)
  /\ parseExtractResponse (handleExtractMessage (Some REQUEST) pathname doc)
     = match extractCoursePayload pathname doc with
       | Ok r => Ok (Some r)
       | Throw e => Throw e
       end.
Proof.
  split; [|apply parse_handled].
  intros message. unfold handleExtractMessage.
  destruct message as [type|]; [|split; [discriminate | reflexivity]].
  unfold REQUEST. destruct (str_eqb type (js "extract-course-data")) eqn:E.
  - apply str_eqb_eq in E. subst type. cbn [negb].
    split; [|intros H; elim H; reflexivity].
    destruct (extractCoursePayload pathname doc); discriminate.
  - cbn [negb]. split; [|reflexivity].
    intros _ H. injection H as ->.
    assert (str_eqb (js "extract-course-data") (js "extract-course-data") = true)
      as Ht by (apply str_eqb_eq; reflexivity).
    rewrite Ht in E. discriminate E.
Qed.

(** X10. The export does not depend on whether the content script was
    already listening: when the first request meets no receiver and the
    script is injected, or the tab is reloaded and completes, the retry
    settles exactly as a first request to a listening page does, with the
    outcome of the extraction; and a failure of the extraction starts no
    recovery. *)
Theorem recovery_is_transparent {host : Host} (env : browser)
    (tab : option Tab) (tabId : Z) (pathname : jsstring) (doc : Document) :
  assertValidCourseTab tab = Ok tabId ->
  let answer := inr (handleExtractMessage (Some REQUEST) pathname doc) in
  let inject := AInject tabId [js "content.js"] in
  (env _ [] (SendMessage tabId REQUEST) = answer ->
   run env (requestCourseData tab) []
   = ([ASend tabId], extraction_outcome pathname doc))
  /\ (forall e,
        env _ [] (SendMessage tabId REQUEST) = inl e ->
        isMissingReceiverError e = true ->
        env _ [ASend tabId] CanUseScriptingApi = true ->
        (exists u, env _ [ASend tabId; AProbe]
                     (ExecuteScript tabId [js "content.js"]) = inr u) ->
        env _ [ASend tabId; AProbe; inject] (SendMessage tabId REQUEST)
        = answer ->
        run env (requestCourseData tab) []
        = ([ASend tabId; AProbe; inject; ASend tabId],
           extraction_outcome pathname doc))
  /\ (forall e,
        env _ [] (SendMessage tabId REQUEST) = inl e ->
        isMissingReceiverError e = true ->
        env _ [ASend tabId] CanUseScriptingApi = false ->
        env _ [ASend tabId; AProbe] (ReloadTab tabId) = None ->
        tab_completes tabId
          (env _ [ASend tabId; AProbe; AReload tabId] (TabUpdates 15000))
        = true ->
        env _ [ASend tabId; AProbe; AReload tabId; AWait 15000]
            (SendMessage tabId REQUEST)
        = answer ->
        run env (requestCourseData tab) []
        = ([ASend tabId; AProbe; AReload tabId; AWait 15000; ASend tabId],
           extraction_outcome pathname doc)).
Proof.
  intros Htab answer inject.
  rewrite (run_requestCourseData env tab Htab). cbv zeta.
  split; [|split].
  - intros E. rewrite E. subst answer. cbn [request_outcome].
    rewrite parse_handled, extraction_is_final. reflexivity.
  - intros e E Hm Hs [u Hi] Hr. rewrite E. cbn [request_outcome starts_recovery].
    rewrite Hm. unfold recovery_run. cbn [app]. rewrite Hs, Hi.
    fold inject. rewrite Hr. subst answer. cbn [request_outcome].
    rewrite parse_handled. reflexivity.
  - intros e E Hm Hs Hl Hc Hr. rewrite E. cbn [request_outcome starts_recovery].
    rewrite Hm. unfold recovery_run. cbn [app]. rewrite Hs, Hl, Hc, Hr.
    subst answer. cbn [request_outcome]. rewrite parse_handled. reflexivity.
Qed.

Lemma recovery_is_transparent_witness :
  assertValidCourseTab sample_tab = Ok 7%Z
  /\ run (late_page (host := sample_host) (js "/courses/demo/") sample_doc)
         (requestCourseData sample_tab) []
     = ([ASend 7; AProbe; AInject 7 [js "content.js"]; ASend 7],
        extraction_outcome (host := sample_host) (js "/courses/demo/")
          sample_doc).
Proof.
  split; [reflexivity|].
  exact (proj1 (proj2 (@recovery_is_transparent sample_host
           (late_page (host := sample_host) (js "/courses/demo/") sample_doc)
           sample_tab 7%Z (js "/courses/demo/") sample_doc eq_refl))
         _ eq_refl eq_refl eq_refl (ex_intro _ tt eq_refl) eq_refl).
Defined.

(** ** Course page addresses *)

Lemma lang_LitI s : forall w,
  lang (LitI s) w -> same_ignoring_case w s.
Proof.
  unfold same_ignoring_case.
  induction s as [|c r IH]; intros w; cbn [LitI lang].
  - intros ->. reflexivity.
  - intros (u & v & -> & (x & -> & Hx) & Hv).
    apply N.eqb_eq in Hx. cbn [app map]. rewrite Hx, (IH _ Hv). reflexivity.
Qed.

Lemma rmatch_LitI s k : forall p t st,
  same_ignoring_case p s -> m_rest st = p ++ t ->
  exists st', m_rest st' = t /\ rmatch (LitI s) k st = k st'.
Proof.
  unfold same_ignoring_case.
  induction s as [|c r IH]; intros p t st Hp Hst.
  - destruct p; [|discriminate Hp]. exists st. split; [exact Hst | reflexivity].
  - destruct p as [|x p]; [discriminate Hp|].
    cbn [map] in Hp. injection Hp as Hx Hp.
    cbn [LitI rmatch]. rewrite Hst. cbn [app].
    rewrite Hx, N.eqb_refl.
    apply (IH p t (advance x (p ++ t) st) Hp). reflexivity.
Qed.

Lemma rmatch_Opt_total a st : rmatch (Opt a) Some st <> None.
Proof. cbn [rmatch]. destruct (rmatch a Some st); discriminate. Qed.

Lemma rmatch_plus_chr p k st c rest :
  m_rest st = c :: rest -> p c = true -> (forall st', k st' <> None) ->
  rmatch (Plus (Chr p)) k st <> None.
Proof.
  intros Hst Hc Hk. unfold Plus.
  change (rmatch (Seq (Chr p) (Star (Chr p))) k st)
    with (match m_rest st with
          | c :: rest =>
              if p c then rmatch (Star (Chr p)) k (advance c rest st) else None
          | [] => None
          end).
  rewrite Hst, Hc, star_chr_greedy by exact Hk. apply Hk.
Qed.

Lemma course_page_accepted p c rest :
  same_ignoring_case p COURSE_PREFIX -> is_separator c = false ->
  re_test COURSE_PAGE_RE (p ++ c :: rest) = true.
Proof.
  intros Hp Hc. unfold re_test, COURSE_PAGE_RE. rewrite anchored_match.
  fold COURSE_PREFIX.
  set (notsep := fun c : N => negb ((c =? 47) || (c =? 63) || (c =? 35))%N).
  destruct (@rmatch_LitI COURSE_PREFIX
              (rmatch (Seq (Plus (Chr notsep)) (Opt (LitI (js "/")))) Some)
              p (c :: rest)
              {| m_prev := None; m_rest := p ++ c :: rest; m_caps := [] |}
              Hp eq_refl) as (st' & Hst & E).
  change (rmatch (Seq (LitI COURSE_PREFIX)
                      (Seq (Plus (Chr notsep)) (Opt (LitI (js "/")))))
                 Some
                 {| m_prev := None; m_rest := p ++ c :: rest; m_caps := [] |})
    with (rmatch (LitI COURSE_PREFIX)
            (rmatch (Seq (Plus (Chr notsep)) (Opt (LitI (js "/")))) Some)
            {| m_prev := None; m_rest := p ++ c :: rest; m_caps := [] |}).
  rewrite E.
  change (rmatch (Seq (Plus (Chr notsep)) (Opt (LitI (js "/")))) Some st')
    with (rmatch (Plus (Chr notsep)) (rmatch (Opt (LitI (js "/"))) Some) st').
  assert (notsep c = true) as Hn
    by (unfold notsep; unfold is_separator in Hc; rewrite Hc; reflexivity).
  pose proof (@rmatch_plus_chr notsep (rmatch (Opt (LitI (js "/"))) Some)
                st' c rest Hst Hn (rmatch_Opt_total _)) as Hsome.
  destruct (rmatch (Plus (Chr notsep)) _ st');
    [reflexivity | elim Hsome; reflexivity].
Qed.

(** X11. [isCoursePageUrl] accepts exactly the texts that begin with
    [https://frontendmasters.com/courses/], in any letter case, followed by
    at least one character that is none of [/], [?] and [#]; what comes
    after is not looked at, and a value that is not a string is refused. *)
Theorem isCoursePageUrl_prefix (url : option jsstring) :
  (isCoursePageUrl url = true
   <-> exists prefix c rest,
         url = Some (prefix ++ c :: rest)
         /\ same_ignoring_case prefix COURSE_PREFIX
         /\ is_separator c = false)
  /\ isCoursePageUrl (Some (js "HTTPS://FrontendMasters.com/Courses/x?y#z"))
     = true
  /\ isCoursePageUrl (Some (js "https://frontendmasters.com/courses/")) = false
  /\ isCoursePageUrl (Some (js "https://frontendmasters.com/courses//a"))
     = false
  /\ isCoursePageUrl (Some (js " https://frontendmasters.com/courses/a"))
     = false
  /\ isCoursePageUrl (Some (js "http://frontendmasters.com/courses/a")) = false.
Proof.
  split; [|repeat split; reflexivity].
  unfold isCoursePageUrl. destruct url as [u|];
    [|split; [discriminate | intros (? & ? & ? & H & _); discriminate H]].
  split.
  - unfold re_test, COURSE_PAGE_RE. rewrite anchored_match.
    fold COURSE_PREFIX.
    destruct (rmatch _ Some _) as [out|] eqn:E; [intros _ | discriminate].
    apply rmatch_sound in E.
    destruct E as (st' & w & _ & Hu & Hw & _). cbn [m_rest] in Hu.
    cbn [lang] in Hw.
    destruct Hw as (p & v & -> & Hp & v1 & v2 & -> & Hv1 & _).
    destruct Hv1 as (x & more & -> & (c & -> & Hc) & _).
    exists p, c, (more ++ v2 ++ m_rest st'). split.
    + rewrite Hu. rewrite <- !app_assoc. reflexivity.
    + split; [exact (@lang_LitI _ _ Hp)|].
      apply negb_true_iff in Hc. exact Hc.
  - intros (p & c & rest & Hu & Hp & Hc). injection Hu as ->.
    exact (@course_page_accepted p c rest Hp Hc).
Qed.
(** ** Missing receivers *)

Lemma starts_with_spec p : forall s,
  starts_with p s = true <-> exists b, s = p ++ b.
Proof.
  induction p as [|a p IH]; intros s.
  - split; [intros _; exists s; reflexivity | reflexivity].
  - destruct s as [|c s]; cbn [starts_with].
    + split; [discriminate | intros (b & H); discriminate H].
    + rewrite andb_true_iff, N.eqb_eq, IH. split.
      * intros (-> & b & ->). exists b. reflexivity.
      * intros (b & H). injection H as -> ->. split; [reflexivity|].
        exists b. reflexivity.
Qed.

Lemma includes_unfold p s :
  includes p s
  = starts_with p s
    || match s with [] => false | _ :: r => includes p r end.
Proof. destruct s; reflexivity. Qed.

Lemma includes_spec p : forall s,
  includes p s = true <-> exists a b, s = a ++ p ++ b.
Proof.
  induction s as [|c r IH]; rewrite includes_unfold, orb_true_iff.
  - split.
    + intros [H | H]; [|discriminate H].
      apply starts_with_spec in H. destruct H as (b & ->).
      exists [], b. reflexivity.
    + intros (a & b & H). left. apply starts_with_spec.
      destruct a; [|discriminate H]. exists b. exact H.
  - split.
    + intros [H | H].
      * apply starts_with_spec in H. destruct H as (b & ->).
        exists [], b. reflexivity.
      * apply IH in H. destruct H as (a & b & ->).
        exists (c :: a), b. reflexivity.
    + intros (a & b & H). destruct a as [|x a].
      * left. apply starts_with_spec. exists b. exact H.
      * right. apply IH. injection H as -> ->. exists a, b. reflexivity.
Qed.

(** X12. A failure counts as a missing receiver exactly when its text
    holds the words [Receiving end does not exist] somewhere: the message
    of an [Error], or the text of any other thrown value. *)
Theorem isMissingReceiverError_substring (e : exn) :
  (isMissingReceiverError e = true
   <-> exists before after,
         getErrorMessage e = before ++ NO_RECEIVER ++ after)
  /\ isMissingReceiverError
       (Error (js "Could not establish connection. Receiving end does not exist."))
     = true
  /\ isMissingReceiverError (NotAnError (js "Receiving end does not exist"))
     = true
  /\ isMissingReceiverError (Error (js "receiving end does not exist")) = false.
Proof.
  split; [apply includes_spec | repeat split; reflexivity].
Qed.

(** ** The wait for a reloaded tab *)

Lemma deliver_decisive tabId ev :
  decisive tabId ev = true ->
  deliver tabId waiting_start ev = waiting_over (outcome_of ev).
Proof.
  destruct ev as [|u s]; cbn [decisive]; intros H; [reflexivity|].
  cbn [deliver waiting_start listener_added]. unfold onUpdated.
  fold waiting_start. rewrite H. reflexivity.
Qed.

Lemma deliver_other tabId ev :
  decisive tabId ev = false -> deliver tabId waiting_start ev = waiting_start.
Proof.
  destruct ev as [|u s]; cbn [decisive]; intros H; [discriminate H|].
  cbn [deliver waiting_start listener_added]. unfold onUpdated.
  fold waiting_start. rewrite H. reflexivity.
Qed.

Lemma deliver_over tabId r events :
  fold_left (deliver tabId) events (waiting_over r) = waiting_over r.
Proof.
  induction events as [|ev events IH]; [reflexivity|].
  cbn [fold_left]. destruct ev; exact IH.
Qed.

Lemma wait_by_first_decisive tabId events :
  fold_left (deliver tabId) events waiting_start
  = match find (decisive tabId) events with
    | Some ev => waiting_over (outcome_of ev)
    | None => waiting_start
    end.
Proof.
  induction events as [|ev events IH]; [reflexivity|].
  cbn [fold_left find]. destruct (decisive tabId ev) eqn:E.
  - rewrite (deliver_decisive _ _ E). apply deliver_over.
  - rewrite (deliver_other _ _ E). exact IH.
Qed.

(** X13. However the timer and the tab updates interleave,
    [waitForTabComplete] settles its promise at most once and leaves
    nothing behind: as long as the promise is pending the timer is set and
    the listener registered; once it has settled the timer is cleared and
    the listener removed, and no later event changes anything. *)
Theorem waitForTabComplete_cleans_up (tabId : Z) (events : list loop_event) :
  let w := fold_left (deliver tabId) events waiting_start in
  (w = waiting_start \/ exists r, w = waiting_over r)
  /\ (settled w = None <-> finished w = false)
  /\ (settled w = None <-> timer_pending w = true)
  /\ (settled w = None <-> listener_added w = true)
  /\ (forall r, settled w = Some r ->
        forall later,
          fold_left (deliver tabId) (events ++ later) waiting_start = w).
Proof.
  intros w. subst w. rewrite wait_by_first_decisive.
  destruct (find (decisive tabId) events) as [ev|] eqn:E.
  - split; [right; exists (outcome_of ev); reflexivity|].
    repeat split; try discriminate.
    intros r _ later. rewrite fold_left_app, wait_by_first_decisive, E.
    apply deliver_over.
  - split; [left; reflexivity|].
    repeat split; try reflexivity. discriminate.
Qed.

(** X14. The promise of [waitForTabComplete] settles as the first decisive
    event says: resolved by the first update of the awaited tab to
    [complete] if it comes before the timer, rejected with the time-out
    message if the timer comes first; updates of other tabs and other
    statuses are ignored.  The orchestrator's wait is this, with the
    updates the browser reports before the timer. *)
Theorem waitForTabComplete_first_event (tabId : Z) :
  (forall events,
     settled (fold_left (deliver tabId) events waiting_start)
     = option_map outcome_of (find (decisive tabId) events))
  /\ (forall (env : browser) timeoutMs past,
        let updates := env _ past (TabUpdates timeoutMs) in
        Some (snd (run env (waitForTabComplete tabId timeoutMs) past))
        = settled (fold_left (deliver tabId)
                     (update_events updates ++ [TimerFires]) waiting_start)).
Proof.
  split.
  - intros events. rewrite wait_by_first_decisive.
    destruct (find (decisive tabId) events); reflexivity.
  - intros env timeoutMs past updates.
    rewrite wait_by_first_decisive.
    cbn [waitForTabComplete run]. fold updates.
    induction updates as [|[u s] updates IH]; [reflexivity|].
    cbn [existsb update_events map app find decisive].
    destruct ((u =? tabId)%Z && str_eqb s (js "complete")); [reflexivity|].
    cbn [orb]. exact IH.
Qed.

(** ** The load guard of the content script *)

(** X15. Executing [content.js] again in a page where it has already run
    adds no second listener: after any number of executions in a fresh
    page, one at least, the flag is set and there is exactly one
    listener. *)
Theorem content_script_loads_once (n : nat) :
  Nat.iter (S n) run_content_script fresh_window
  = {| exporter_loaded := true; message_listeners := 1 |}
  /\ (forall w, run_content_script (run_content_script w)
                = run_content_script w).
Proof.
  split.
  - induction n as [|n IH]; [reflexivity|].
    change (Nat.iter (S (S n)) run_content_script fresh_window)
      with (run_content_script (Nat.iter (S n) run_content_script fresh_window)).
    rewrite IH. reflexivity.
  - intros [[] k]; reflexivity.
Qed.

(** ** What the groups of a match hold *)

Lemma rmatch_consumes r : forall k st out,
  rmatch r k st = Some out ->
  exists st' w,
    k st' = Some out /\ m_rest st = w ++ m_rest st' /\ lang r w
    /\ forall i, lacks_group i r = true ->
         lookup_cap i (m_caps st') = lookup_cap i (m_caps st).
Proof.
  induction r as [|p|a IHa b IHb|a IHa|a IHa|j a IHa| | |];
    intros k st out H.
  - exists st, []. split; [exact H|]. repeat split.
  - cbn [rmatch] in H. destruct (m_rest st) as [|c rest] eqn:Er; [discriminate|].
    destruct (p c) eqn:Ec; [|discriminate].
    exists (advance c rest st), [c]. split; [exact H|].
    split; [reflexivity|]. split; [now exists c|]. intros; reflexivity.
  - cbn [rmatch] in H.
    apply IHa in H as (st1 & u & H1 & E1 & L1 & C1).
    apply IHb in H1 as (st2 & v & H2 & E2 & L2 & C2).
    exists st2, (u ++ v). split; [exact H2|]. split; [|split].
    + now rewrite E1, E2, app_assoc.
    + now exists u, v.
    + intros i Hi. cbn [lacks_group] in Hi.
      apply andb_true_iff in Hi as [Ha Hb]. now rewrite C2, C1.
  - cbn [rmatch] in H. destruct (rmatch a k st) eqn:E.
    + injection H as <-. apply IHa in E as (st1 & w & H1 & E1 & L1 & C1).
      exists st1, w. split; [exact H1|]. split; [exact E1|].
      split; [now right | exact C1].
    + exists st, []. split; [exact H|]. split; [reflexivity|].
      split; [now left|]. intros; reflexivity.
  - revert H. cbn [rmatch]. generalize (length (m_rest st)). intros fuel.
    revert st. induction fuel as [|fuel IHf]; intros st H.
    + exists st, []. split; [exact H|]. split; [reflexivity|].
      split; [constructor|]. intros; reflexivity.
    + match type of H with
      | match ?m with _ => _ end = _ => destruct m eqn:E
      end.
      * injection H as <-. apply IHa in E as (st1 & u & H1 & E1 & L1 & C1).
        destruct (length (m_rest st1) <? length (m_rest st)); [|discriminate].
        apply IHf in H1 as (st2 & v & H2 & E2 & L2 & C2).
        exists st2, (u ++ v). split; [exact H2|]. split; [|split].
        -- now rewrite E1, E2, app_assoc.
        -- now constructor.
        -- intros i Hi. rewrite (C2 i Hi). now apply C1.
      * exists st, []. split; [exact H|]. split; [reflexivity|].
        split; [constructor|]. intros; reflexivity.
  - cbn [rmatch] in H. apply IHa in H as (st1 & w & H1 & E1 & L1 & C1).
    exists (close_group j st st1), w. split; [exact H1|].
    split; [exact E1|]. split; [exact L1|].
    intros i Hi. cbn [lacks_group] in Hi. apply andb_true_iff in Hi as [Hj Ha].
    apply negb_true_iff in Hj. unfold close_group.
    cbn [m_caps lookup_cap]. rewrite Hj. now apply C1.
  - cbn [rmatch] in H. destruct (m_prev st) eqn:Ep; [discriminate|].
    exists st, []. split; [exact H|]. repeat split.
  - cbn [rmatch] in H. destruct (m_rest st) eqn:Er; [|discriminate].
    exists st, []. split; [exact H|]. rewrite Er. repeat split.
  - cbn [rmatch] in H. destruct (xorb _ _); [|discriminate].
    exists st, []. split; [exact H|]. repeat split.
Qed.

Lemma rmatch_group i a k st out :
  rmatch (Group i a) k st = Some out ->
  exists st' w,
    k st' = Some out /\ lang a w /\ lookup_cap i (m_caps st') = Some w
    /\ forall j, (i =? j) = false -> lacks_group j a = true ->
         lookup_cap j (m_caps st') = lookup_cap j (m_caps st).
Proof.
  intros H. cbn [rmatch] in H.
  apply rmatch_consumes in H as (st1 & w & H1 & E1 & L1 & C1).
  exists (close_group i st st1), w. split; [exact H1|]. split; [exact L1|].
  unfold close_group. cbn [m_caps lookup_cap]. split.
  - rewrite Nat.eqb_refl, E1, length_app.
    replace (length w + length (m_rest st1) - length (m_rest st1))
      with (length w + 0) by lia.
    rewrite firstn_app_2. cbn [firstn]. rewrite app_nil_r. reflexivity.
  - intros j Hj Ha. rewrite Hj. exact (C1 j Ha).
Qed.

Lemma long_month_groups text m :
  re_match RE_LONG_MONTH text = Some m ->
  exists g2 g3,
    cap 2 m = Some g2 /\ cap 3 m = Some g3
    /\ lang (Seq digit (Opt digit)) g2
    /\ lang (Seq digit (Seq digit (Seq digit digit))) g3.
Proof.
  intros H. unfold RE_LONG_MONTH in H. rewrite anchored_match in H.
  match type of H with
  | rmatch (Seq ?g1 (Seq ?b1 (Seq (Group 2 ?d) (Seq ?c (Seq ?b2
       (Seq (Group 3 ?y) Eol)))))) Some ?st = _ =>
      change (rmatch g1 (rmatch b1 (rmatch (Group 2 d) (rmatch c (rmatch b2
                (rmatch (Group 3 y) (rmatch Eol Some)))))) st = Some m) in H
  end.
  apply rmatch_continues in H as (st1 & H & _).
  apply rmatch_continues in H as (st2 & H & _).
  apply rmatch_group in H as (st3 & g2 & H & L2 & C2 & _).
  apply rmatch_continues in H as (st4 & H & E4).
  apply rmatch_continues in H as (st5 & H & E5).
  assert (lookup_cap 2 (m_caps st5) = Some g2) as C5
    by (rewrite (E5 2 eq_refl), (E4 2 eq_refl); exact C2).
  apply rmatch_group in H as (st6 & g3 & H & L3 & C3 & E6).
  cbn [rmatch] in H. destruct (m_rest st6); [|discriminate H].
  injection H as <-.
  exists g2, g3. unfold cap.
  split; [rewrite (E6 2 eq_refl eq_refl); exact C5|].
  split; [exact C3|]. split; [exact L2 | exact L3].
Qed.

(** ** Well-formed dates *)

Lemma lang_digit w : lang digit w -> exists c, w = [c] /\ is_digit c = true.
Proof. intros H. exact H. Qed.

Lemma digit_of_range c : is_digit c = true -> (0 <= digit_of c <= 9)%Z.
Proof. intros H. apply is_digit_range in H. unfold digit_of. lia. Qed.

Lemma two_digits z :
  (0 <= z < 100)%Z ->
  exists a b, padStart0 2 (Z_to_string z) = [a; b]
              /\ is_digit a = true /\ is_digit b = true.
Proof.
  intros H. rewrite <- (Z2Nat.id z) by lia.
  assert (Z.to_nat z < 100) as Hn by lia.
  generalize dependent (Z.to_nat z). clear. intros n Hn.
  do 100 (destruct n as [|n];
          [vm_compute; do 2 eexists; repeat split; reflexivity|]).
  lia.
Qed.

Lemma day_digits g2 :
  lang (Seq digit (Opt digit)) g2 ->
  digit_run g2 /\ (0 <= digits_value g2 < 100)%Z.
Proof.
  intros (u & v & -> & (a & -> & Ha) & [-> | (b & -> & Hb)]).
  - split; [split; [discriminate | cbn [app forallb]; rewrite Ha; reflexivity]|].
    pose proof (digit_of_range _ Ha). unfold digits_value. cbn [app fold_left].
    lia.
  - split; [split; [discriminate
                   | cbn [app forallb]; rewrite Ha, Hb; reflexivity]|].
    pose proof (digit_of_range _ Ha). pose proof (digit_of_range _ Hb).
    unfold digits_value. cbn [app fold_left]. lia.
Qed.

Lemma month_digits name mm :
  month_number name = Some mm ->
  exists a b, mm = [a; b] /\ is_digit a = true /\ is_digit b = true.
Proof.
  unfold month_number, monthMap. cbn [assoc].
  repeat (destruct (str_eqb _ name);
          [intros [= <-]; do 2 eexists; repeat split; reflexivity|]).
  discriminate.
Qed.

Lemma iso_date_clean t : is_iso_date t = true -> is_clean t = true.
Proof.
  unfold is_iso_date.
  do 10 (destruct t as [|? t]; [discriminate|]).
  destruct t; [|discriminate].
  intros H. do 9 (apply andb_true_iff in H; destruct H as [H ?]).
  repeat match goal with
         | E : (_ =? DASH)%N = true |- _ => apply N.eqb_eq in E; subst
         end.
  unfold is_clean. cbn [spaced].
  repeat match goal with
         | E : is_digit ?c = true |- _ =>
             let Hw := fresh in
             let Hz := fresh in
             pose proof (digit_not_ws _ E) as Hw;
             assert (negb (c =? ZWSP)%N = true) as Hz
               by (apply is_digit_range in E; apply negb_true_iff, N.eqb_neq;
                   unfold ZWSP; lia);
             rewrite ?Hw, ?Hz; clear E
         end.
  reflexivity.
Qed.

Section WellFormedDates.
Context {host : Host}.

Lemma iso_date_stable t :
  is_iso_date t = true -> normalizePublishedDate (Some t) = Ok t.
Proof.
  intros H. unfold normalizePublishedDate.
  rewrite (cleanText_fixed _ (iso_date_clean _ H)).
  rewrite iso_date_test, H.
  destruct t; [discriminate H | reflexivity].
Qed.

Lemma long_month_date m mm :
  (exists g2 g3,
      cap 2 m = Some g2 /\ cap 3 m = Some g3
      /\ lang (Seq digit (Opt digit)) g2
      /\ lang (Seq digit (Seq digit (Seq digit digit))) g3) ->
  (exists a b, mm = [a; b] /\ is_digit a = true /\ is_digit b = true) ->
  is_iso_date
    (template_str (cap 3 m) ++ js "-" ++ mm ++ js "-"
     ++ padStart0 2 (Number_toString (ToNumber (cap 2 m)))) = true.
Proof.
  intros (g2 & g3 & -> & -> & L2 & L3) (m1 & m2 & -> & Hm1 & Hm2).
  destruct (day_digits L2) as [Hrun Hday].
  cbn [ToNumber template_str].
  rewrite (StringToNumber_safe Hrun) by (apply safe_natural; lia).
  rewrite Number_toString_Z by (apply safe_natural; lia).
  destruct (two_digits Hday) as (a & b & -> & Ha & Hb).
  destruct L3 as (u1 & v1 & -> & (y1 & -> & Hy1)
                  & u2 & v2 & -> & (y2 & -> & Hy2)
                  & u3 & v3 & -> & (y3 & -> & Hy3) & y4 & -> & Hy4).
  cbn [app js list_ascii_of_string map]. unfold is_iso_date.
  rewrite Hy1, Hy2, Hy3, Hy4, Hm1, Hm2, Ha, Hb. reflexivity.
Qed.

End WellFormedDates.

(** X16. Unless the month word is a name that every object inherits, a
    normalized date is empty or has the shape YYYY-MM-DD, and normalizing
    it again returns it unchanged.  Only the shape is checked: a day or a
    month out of range stays. *)
Theorem normalizePublishedDate_well_formed {host : Host}
    (v : option jsstring) :
  (exists out,
     normalizePublishedDate v = Ok out
     /\ (out = []
         \/ (is_iso_date out = true
             /\ normalizePublishedDate (Some out) = Ok out)
         \/ exists m g1,
              re_match RE_LONG_MONTH (cleanText v) = Some m
              /\ cap 1 m = Some g1
              /\ inherited (toLowerCase g1) = true))
  /\ normalizePublishedDate (Some (js " March  99,2022 "))
     = Ok (js "2022-03-99")
  /\ normalizePublishedDate (Some (js "2022-13-45")) = Ok (js "2022-13-45")
  /\ normalizePublishedDate (Some (js "Mar 3, 2022")) = Ok [].
Proof.
  split; [|repeat split; reflexivity].
  destruct (normalizePublishedDate_by_table v) as (Hiso & Hnone & Hlong).
  destruct (is_iso_date (cleanText v)) eqn:Ei.
  - exists (cleanText v). split; [exact (Hiso eq_refl)|].
    right. left. split; [exact Ei | exact (iso_date_stable _ Ei)].
  - destruct (re_match RE_LONG_MONTH (cleanText v)) as [m|] eqn:Em.
    + destruct (long_month_group1 _ Em) as [g1 Hg1].
      destruct (Hlong eq_refl m g1 eq_refl Hg1) as [Hmm Hno].
      destruct (month_number (toLowerCase g1)) as [mm|] eqn:Emm.
      * eexists. split; [exact (Hmm mm eq_refl)|]. right. left.
        pose proof (long_month_date m (long_month_groups _ Em)
                      (month_digits _ Emm)) as Hd.
        split; [exact Hd | exact (iso_date_stable _ Hd)].
      * destruct (inherited (toLowerCase g1)) eqn:Einh.
        -- destruct (normalizePublishedDate_total v) as [out Hout].
           exists out. split; [exact Hout|]. right. right.
           exists m, g1. repeat split; assumption.
        -- exists []. split; [exact (Hno eq_refl eq_refl) | left; reflexivity].
    + exists []. split; [exact (Hnone eq_refl eq_refl) | left; reflexivity].
Qed.

(** ** Durations that are already minutes *)

Lemma solid_spaced final t :
  forallb (fun c => negb (is_ws c) && negb (c =? ZWSP)%N) t = true ->
  spaced final t = true.
Proof.
  induction t as [|c r IH]; [reflexivity|].
  cbn [forallb spaced]. intros H.
  apply andb_true_iff in H. destruct H as [Hc Hr].
  apply andb_true_iff in Hc. destruct Hc as [Hw Hz].
  apply negb_true_iff in Hw. rewrite Hz, Hw, (IH Hr). reflexivity.
Qed.

Lemma digit_run_clean ds : digit_run ds -> is_clean ds = true.
Proof.
  intros [Hne Hd]. destruct ds as [|c r]; [elim Hne; reflexivity|].
  unfold is_clean. rewrite (@solid_spaced false (c :: r)).
  - cbn [forallb] in Hd. apply andb_true_iff in Hd. destruct Hd as [Hc _].
    rewrite (digit_not_ws _ Hc). reflexivity.
  - clear Hne. induction (c :: r) as [|x s IH]; [reflexivity|].
    cbn [forallb] in Hd |- *. apply andb_true_iff in Hd. destruct Hd as [Hx Hs].
    rewrite (digit_not_ws _ Hx), (IH Hs).
    apply is_digit_range in Hx.
    replace (x =? ZWSP)%N with false; [reflexivity|].
    symmetry. apply N.eqb_neq. unfold ZWSP. lia.
Qed.

Lemma first_digit_run_whole ds : digit_run ds -> first_digit_run ds = Some ds.
Proof.
  intros [Hne Hd]. destruct ds as [|c r]; [elim Hne; reflexivity|].
  unfold first_digit_run.
  pose proof Hd as Hd'. cbn [forallb] in Hd'.
  apply andb_true_iff in Hd'. destruct Hd' as [Hc _].
  cbn [span]. rewrite Hc. cbn [negb].
  change (let (a, b) := span is_digit r in (c :: a, b))
    with (span is_digit (c :: r)) .
  rewrite (span_digits _ Hd). reflexivity.
Qed.

Lemma forallb_digit_app a b :
  forallb is_digit (a ++ b) = true ->
  forallb is_digit a = true /\ forallb is_digit b = true.
Proof. rewrite forallb_app. apply andb_true_iff. Qed.

Lemma label_not_in_digits label c rest pre ds w post :
  label = c :: rest -> is_digit c = false ->
  label_tail label w ->
  forallb is_digit (pre ++ ds ++ w ++ post) = true -> False.
Proof.
  intros -> Hc (ws & _ & Hw) H.
  apply forallb_digit_app in H. destruct H as [_ H].
  apply forallb_digit_app in H. destruct H as [_ H].
  apply forallb_digit_app in H. destruct H as [H _].
  destruct Hw as [-> | ->];
    apply forallb_digit_app in H; destruct H as [_ H];
    cbn [app forallb] in H; rewrite Hc in H; discriminate H.
Qed.

Section MinutesAgain.
Context {host : Host}.

Lemma toLowerCase_digits s :
  forallb is_digit s = true -> toLowerCase s = s.
Proof.
  unfold toLowerCase. induction s as [|c r IH]; [reflexivity|].
  cbn [forallb flat_map]. intros H.
  apply andb_true_iff in H. destruct H as [Hc Hr]. rewrite (IH Hr).
  apply is_digit_range in Hc.
  replace (is_upper c) with false
    by (symmetry; unfold is_upper; apply andb_false_iff; left;
        apply N.leb_gt; lia).
  replace (c <? 128)%N with true by (symmetry; apply N.ltb_lt; lia).
  reflexivity.
Qed.

Lemma extractMinutes_digits ds :
  digit_run ds ->
  extractMinutes (Some ds) = Number_toString (Number_of_Z (digits_value ds)).
Proof.
  intros Hrun. pose proof Hrun as [Hne Hd].
  unfold extractMinutes.
  rewrite (cleanText_fixed _ (digit_run_clean Hrun)), (toLowerCase_digits _ Hd).
  destruct ds as [|c0 r0] eqn:Eds; [elim Hne; reflexivity|]. rewrite <- Eds in *.
  replace (truthy ds) with true by (rewrite Eds; reflexivity). cbn [negb].
  assert (re_match RE_HOURS ds = None) as ->.
  { destruct (re_match RE_HOURS ds) as [m|] eqn:E; [|reflexivity].
    apply labelled_match in E. destruct E as (pre & d & w & E & _ & Hw & _).
    rewrite E in Hd.
    elim (@label_not_in_digits (js "hour") _ _ pre d w (m_rest m)
            eq_refl eq_refl Hw Hd). }
  assert (re_match RE_MINUTES ds = None) as ->.
  { destruct (re_match RE_MINUTES ds) as [m|] eqn:E; [|reflexivity].
    apply labelled_match in E. destruct E as (pre & d & w & E & _ & Hw & _).
    rewrite E in Hd.
    elim (@label_not_in_digits (js "minute") _ _ pre d w (m_rest m)
            eq_refl eq_refl Hw Hd). }
  assert (re_match RE_MIN_SHORT ds = None) as ->.
  { destruct (re_match RE_MIN_SHORT ds) as [m|] eqn:E; [|reflexivity].
    apply min_short_match in E.
    destruct E as (pre & d & w & E & _ & Hw & _).
    rewrite E in Hd.
    elim (@label_not_in_digits (js "min") _ _ pre d w (m_rest m)
            eq_refl eq_refl Hw Hd). }
  pose proof (number_is_first_run ds None) as Hn.
  rewrite (first_digit_run_whole Hrun) in Hn.
  unfold re_match. destruct (rsearch RE_NUMBER None ds) as [m|];
    [|discriminate Hn].
  cbn [option_map] in Hn. injection Hn as ->.
  cbn [ToNumber]. now rewrite (StringToNumber_digits Hrun).
Qed.

Lemma extractMinutes_digits_safe ds :
  digit_run ds -> (digits_value ds < 2 ^ 53)%Z ->
  extractMinutes (Some ds) = Z_to_string (digits_value ds).
Proof.
  intros Hrun Hb. rewrite (extractMinutes_digits Hrun).
  pose proof (digits_value_nonneg ds).
  rewrite Number_of_Z_safe by (apply safe_natural; lia).
  apply Number_toString_Z, safe_natural. lia.
Qed.

End MinutesAgain.

(** X17. A duration that [extractMinutes] has written in decimal digits,
    as it does below 2^53 minutes, is read back unchanged, and so is the
    empty one; a bare run of digits is its own number of minutes, with the
    leading zeros dropped and, from 2^53 on, rounded to a double.  From
    10^21 on [String] writes an exponent, and the text is not read back:
    "1e+21" is read as "1". *)
Theorem extractMinutes_idempotent {host : Host} (v : option jsstring) :
  let text := toLowerCase (cleanText v) in
  (forall n, minutes_of text = Some n -> (n < 2 ^ 53)%Z ->
     extractMinutes (Some (extractMinutes v)) = extractMinutes v)
  /\ (minutes_of text = None ->
      extractMinutes (Some (extractMinutes v)) = extractMinutes v)
  /\ (forall ds, digit_run ds -> (digits_value ds < 2 ^ 53)%Z ->
        extractMinutes (Some ds) = Z_to_string (digits_value ds))
  /\ (forall ds, digit_run ds ->
        extractMinutes (Some ds)
        = Number_toString (Number_of_Z (digits_value ds)))
  /\ extractMinutes (Some (js "007")) = js "7"
  /\ extractMinutes (Some (extractMinutes (Some (js "2 hours 15 minutes"))))
     = extractMinutes (Some (js "2 hours 15 minutes"))
  /\ extractMinutes (Some (js "9007199254740993")) = js "9007199254740992"
  /\ extractMinutes (Some (js "1000000000000000000000 mins")) = js "1e+21"
  /\ extractMinutes (Some (js "1e+21")) = js "1".
Proof.
  intros text.
  split; [|split; [|split; [exact extractMinutes_digits_safe
                           |split; [exact extractMinutes_digits|]]]].
  - intros n Hn Hb. rewrite (extractMinutes_refines v).
    rewrite (parseDurationText_safe v Hn Hb).
    pose proof (minutes_of_nonneg _ Hn) as H0.
    destruct (Z_to_string_digits H0) as [Hrun Hval].
    rewrite (extractMinutes_digits_safe Hrun) by (rewrite Hval; exact Hb).
    now rewrite Hval.
  - intros Hn. rewrite (extractMinutes_refines v).
    now rewrite (parseDurationText_none v Hn).
  - repeat split; vm_compute; reflexivity.
Qed.

(** ** The export flow of the popup *)

Lemma run_ui_then (env : shell) A B (m : ui A) (f : A -> ui B) : forall past,
  run_ui env (uiThen m f) past
  = match run_ui env m past with
    | (past', inl a) => run_ui env (f a) past'
    | (past', inr t) => (past', inr t)
    end.
Proof.
  induction m as [a|t|X call k IH]; intros past; cbn [uiThen run_ui];
    [reflexivity | reflexivity | apply IH].
Qed.

Lemma run_ui_catch (env : shell) A (m : ui A) handler : forall past,
  run_ui env (uiCatch m handler) past
  = match run_ui env m past with
    | (past', inl a) => (past', inl a)
    | (past', inr t) => run_ui env (handler t) past'
    end.
Proof.
  induction m as [a|t|X call k IH]; intros past; cbn [uiCatch run_ui];
    [reflexivity | reflexivity | apply IH].
Qed.

Lemma run_ui_finally (env : shell) A (m : ui A) f : forall past,
  run_ui env (uiFinally m f) past
  = match run_ui env m past with
    | (past', r) =>
        match run_ui env f past' with
        | (past'', inl _) => (past'', r)
        | (past'', inr t) => (past'', inr t)
        end
    end.
Proof.
  induction m as [a|t|X call k IH]; intros past; cbn [uiFinally run_ui].
  - rewrite run_ui_then. destruct (run_ui env f past) as [p [u|t]]; reflexivity.
  - rewrite run_ui_then. destruct (run_ui env f past) as [p [u|t']]; reflexivity.
  - apply IH.
Qed.

Lemma run_ui_lift (env : shell) A (m : async A) past : forall sent,
  run_ui env (lift m) (past ++ map LChrome sent)
  = match run (chrome_view env past) m sent with
    | (sent', Ok a) => (past ++ map LChrome sent', inl a)
    | (sent', Throw e) => (past ++ map LChrome sent', inr (Thrown e))
    end.
Proof.
  induction m as [a|e|X call k IH]; intros sent; cbn [lift run_ui run];
    [reflexivity | reflexivity |].
  change (log_of (Chrome call) (env X (past ++ map LChrome sent) (Chrome call)))
    with (LChrome (action_of call)).
  rewrite <- app_assoc.
  change [LChrome (action_of call)] with (map LChrome [action_of call]).
  rewrite <- map_app. apply IH.
Qed.

Lemma run_ui_request (env : shell) A (m : async A) past :
  run_ui env (lift m) past
  = match run (chrome_view env past) m [] with
    | (sent, Ok a) => (past ++ map LChrome sent, inl a)
    | (sent, Throw e) => (past ++ map LChrome sent, inr (Thrown e))
    end.
Proof.
  rewrite <- (run_ui_lift env m past []). cbn [map]. rewrite app_nil_r.
  reflexivity.
Qed.

Lemma buttons_app a b : buttons (a ++ b) = buttons a ++ buttons b.
Proof. apply flat_map_app. Qed.

Lemma statuses_app a b : statuses (a ++ b) = statuses a ++ statuses b.
Proof. apply flat_map_app. Qed.

Lemma requests_app a b : requests (a ++ b) = requests a ++ requests b.
Proof. apply flat_map_app. Qed.

Lemma file_calls_app a b : file_calls (a ++ b) = file_calls a ++ file_calls b.
Proof. apply filter_app. Qed.

Lemma buttons_chrome sent : buttons (map LChrome sent) = [].
Proof. induction sent; [reflexivity | exact IHsent]. Qed.

Lemma statuses_chrome sent : statuses (map LChrome sent) = [].
Proof. induction sent; [reflexivity | exact IHsent]. Qed.

Lemma file_calls_chrome sent : file_calls (map LChrome sent) = [].
Proof. induction sent; [reflexivity | exact IHsent]. Qed.

Lemma requests_chrome sent : requests (map LChrome sent) = sent.
Proof.
  induction sent as [|a sent IH]; [reflexivity|].
  cbn [map requests flat_map app]. f_equal. exact IH.
Qed.

Lemma buttons_cons l trace :
  buttons (l :: trace)
  = match l with LDisabled b => [b] | _ => [] end ++ buttons trace.
Proof. reflexivity. Qed.

Lemma statuses_cons l trace :
  statuses (l :: trace)
  = match l with
    | LStatus message isError => [(message, isError)]
    | _ => []
    end ++ statuses trace.
Proof. reflexivity. Qed.

Lemma requests_cons l trace :
  requests (l :: trace)
  = match l with LChrome a => [a] | _ => [] end ++ requests trace.
Proof. reflexivity. Qed.

Lemma file_calls_cons l trace :
  file_calls (l :: trace)
  = (if is_file_call l then [l] else []) ++ file_calls trace.
Proof. unfold file_calls. cbn [filter]. destruct (is_file_call l); reflexivity. Qed.
Ltac ui_step env :=
  first
    [ rewrite run_ui_finally
    | rewrite run_ui_catch
    | rewrite run_ui_then
    | rewrite run_ui_request
    | progress unfold getActiveTab, saveWithDirectoryPicker, saveWithDownload,
        setStatus, exportFailed
    | progress cbn [run_ui perform attempt check log_of fulfilled succeeded app]
    | match goal with
      | |- context [env ?X ?p ?c] =>
          lazymatch X with
          | jsstring => let u := fresh "url" in remember (env X p c) as u
          | _ => destruct (env X p c) eqn:?
          end
      | |- context [run (chrome_view env ?p) ?m ?s] =>
          let sent := fresh "sent" in
          let r := fresh "r" in
          let e := fresh "e" in
          destruct (run (chrome_view env p) m s) as [sent [[r|]|e]] eqn:?
      | |- context [assertValidCourseTab ?t] =>
          destruct (assertValidCourseTab t) eqn:?
      | |- context [str_eqb ?n (js "AbortError")] =>
          destruct (str_eqb n (js "AbortError")) eqn:?
      | |- context [match ?x with _ => _ end] => is_var x; destruct x
      end ].

Ltac flatten_trace :=
  rewrite <- ?app_assoc; cbn [app].

(** The run of a click, case by case on what the shell answers. *)
Ltac run_export env :=
  cbv zeta;
  match goal with
  | |- context [run_ui env (onExportClick ?dm) []] =>
      let trace := fresh "trace" in
      let outcome := fresh "outcome" in
      let Hrun := fresh "Hrun" in
      destruct (run_ui env (onExportClick dm) []) as [trace outcome] eqn:Hrun;
      revert Hrun; unfold onExportClick, exportBody;
      repeat (ui_step env);
      flatten_trace;
      (intros Hrun; injection Hrun as <- <-)
  end.

Ltac project :=
  rewrite ?buttons_cons, ?buttons_app, ?buttons_chrome,
    ?statuses_cons, ?statuses_app, ?statuses_chrome,
    ?requests_cons, ?requests_app, ?requests_chrome,
    ?file_calls_cons, ?file_calls_app, ?file_calls_chrome;
  cbn [buttons statuses requests file_calls flat_map filter is_file_call app].

Ltac project_in H :=
  rewrite ?buttons_cons, ?buttons_app, ?buttons_chrome,
    ?statuses_cons, ?statuses_app, ?statuses_chrome,
    ?requests_cons, ?requests_app, ?requests_chrome,
    ?file_calls_cons, ?file_calls_app, ?file_calls_chrome in H;
  cbn [buttons statuses requests file_calls flat_map filter is_file_call app
       In] in H.

(** X18. Whatever the browser, the page and the file system answer, a
    click on the export button disables the button first and enables it
    again last, and never in between; the handler never rejects, and the
    last thing it does before enabling the button is to show a status:
    with the error styling exactly when the text opens with the cross
    mark, and otherwise the cancellation notice or a success report. *)
Theorem onExportClick_always_settles {host : Host}
    (destructuring_message : jsstring) (env : shell) :
  let run := run_ui env (onExportClick destructuring_message) [] in
  snd run = inl tt
  /\ buttons (fst run) = [true; false]
  /\ hd_error (fst run) = Some (LDisabled true)
  /\ exists message isError before,
       rev (fst run) = LDisabled false :: LStatus message isError :: before
       /\ (isError = true <-> starts_with CROSS_MARK message = true)
       /\ (isError = false ->
           message = CANCELLED \/ reports_success message = true).
Proof.
  run_export env.
  all: cbn [fst snd].
  all: split; [reflexivity|].
  all: split; [project; reflexivity|].
  all: split; [reflexivity|].
  all: cbn [rev]; rewrite ?rev_app_distr; cbn [rev app]; flatten_trace.
  all: do 3 eexists; split; [reflexivity|].
  all: split; [split; intros; first [reflexivity | discriminate]|].
  all: intros; first [left; reflexivity | right; reflexivity | discriminate].
Qed.

Ltac split_cases :=
  repeat match goal with
         | H : _ \/ _ |- _ => destruct H as [H | H]
         | H : False |- _ => destruct H
         | H : (_, _) = (_, _) |- _ => injection H as <- <-
         end.

(** X19. A success report is truthful.  When a status that opens with
    the check mark is shown, the request to the page has returned a
    result, and the files have been handled in full and in this order:
    [<slug>.json] with the payload of that result, then [<slug>-v2.json]
    with the task list built from the same payload; each is written and
    closed through the chosen folder, or each is downloaded from a blob
    whose address is revoked 1500 ms later.  The report names the two
    files and has no error styling. *)
Theorem success_report_is_truthful {host : Host}
    (destructuring_message : jsstring) (env : shell)
    (message : jsstring) (isError : bool) :
  let trace := fst (run_ui env (onExportClick destructuring_message) []) in
  In (message, isError) (statuses trace) ->
  reports_success message = true ->
  isError = false
  /\ exists past tab sent r,
       run (chrome_view env past) (requestCourseData tab) []
       = (sent, Ok (Some r))
       /\ requests trace = sent
       /\ let base := slug r ++ js ".json" in
          let v2 := slug r ++ js "-v2.json" in
          let tasks := buildV2Payload (Some (received (payload r))) in
          (message = SAVED r
           /\ exists dir f1 w1 f2 w2,
                file_calls trace
                = written_file dir base (PayloadJson (payload r)) f1 w1
                  ++ written_file dir v2 (TasksJson tasks) f2 w2)
          \/ (message = DOWNLOADED r
              /\ exists u1 u2,
                   file_calls trace
                   = downloaded_file base (PayloadJson (payload r)) u1
                     ++ downloaded_file v2 (TasksJson tasks) u2).
Proof.
  run_export env.
  all: cbn [fst snd].
  all: intros Hin Hsucc; project_in Hin; split_cases.
  all: try (vm_compute in Hsucc; discriminate Hsucc).
  all: split; [reflexivity|].
  all: do 4 eexists; split; [eassumption|].
  all: split; [project; rewrite ?app_nil_r; reflexivity|].
  all: cbv zeta; unfold written_file, downloaded_file.
  all: first
         [ left; split; [reflexivity|]; do 5 eexists; project; reflexivity
         | right; split; [reflexivity|]; do 2 eexists; project; reflexivity ].
Qed.

Lemma success_report_is_truthful_witness :
  let shell :=
    friendly_shell true
      (late_page (host := sample_host) (js "/courses/demo/") sample_doc) in
  let trace :=
    fst (run_ui shell (onExportClick []) []) in
  let message := CHECK_MARK ++ js " Saved: demo.json, demo-v2.json" in
  In (message, false) (statuses trace)
  /\ reports_success message = true
  /\ exists past tab sent r,
       run (chrome_view shell past) (requestCourseData tab) []
       = (sent, Ok (Some r))
       /\ requests trace = sent.
Proof.
  intros shell trace message.
  assert (In (message, false) (statuses trace)) as Hin
    by (vm_compute; do 3 right; left; reflexivity).
  assert (reports_success message = true) as Hs by reflexivity.
  split; [exact Hin|]. split; [exact Hs|].
  destruct (@success_report_is_truthful sample_host [] shell
              message false Hin Hs)
    as (_ & past & tab & sent & r & Hrun & Hreq & _).
  exists past, tab, sent, r. split; [exact Hrun | exact Hreq].
Defined.

Lemma picked_cons l trace :
  picked (l :: trace)
  = match l with LShowPicker dir => [dir] | _ => [] end ++ picked trace.
Proof. reflexivity. Qed.

Lemma picked_app a b : picked (a ++ b) = picked a ++ picked b.
Proof. apply flat_map_app. Qed.

Lemma picked_chrome sent : picked (map LChrome sent) = [].
Proof. induction sent; [reflexivity | exact IHsent]. Qed.

Ltac project_all :=
  rewrite ?picked_cons, ?picked_app, ?picked_chrome; project;
  cbn [picked flat_map app].

Ltac project_all_in H :=
  rewrite ?picked_cons, ?picked_app, ?picked_chrome in H; project_in H;
  cbn [picked flat_map app In] in H.

(** X20. Nothing happens before the checks have passed.  The folder
    picker is shown, a request goes to the page or a file is touched only
    if the tab query answered a tab that [assertValidCourseTab] accepts;
    when the folder picker rejects, cancelled or not, no request is sent
    and no file is touched; and a file is touched only after the request
    to the page has returned a result. *)
Theorem nothing_before_the_checks {host : Host}
    (destructuring_message : jsstring) (env : shell) :
  let trace := fst (run_ui env (onExportClick destructuring_message) []) in
  let tabs :=
    env _ [LDisabled true; LStatus (js "Checking active page...") false]
        QueryActiveTab in
  (picked trace <> [] \/ requests trace <> [] \/ file_calls trace <> [] ->
   exists ts tabId,
     tabs = inr ts /\ assertValidCourseTab (hd_error ts) = Ok tabId)
  /\ (In None (picked trace) ->
      requests trace = [] /\ file_calls trace = [])
  /\ (file_calls trace <> [] ->
      exists past tab sent r,
        run (chrome_view env past) (requestCourseData tab) []
        = (sent, Ok (Some r))
        /\ requests trace = sent).
Proof.
  run_export env.
  all: cbn [fst snd].
  all: split; [|split].
  all: intros H.
  all: first
         [ do 2 eexists; split; [reflexivity | eassumption]
         | do 4 eexists; split;
             [eassumption | project; rewrite ?app_nil_r; reflexivity]
         | project_all; split; reflexivity
         | exfalso; project_all_in H; split_cases;
             first [discriminate H | apply H; reflexivity] ].
Qed.

(** ** The addresses of a payload *)

(** X21. In every payload the slug is the second segment of the path,
    not empty and without a slash; [courseUrl] is the origin followed by
    [/courses/<slug>/], a path that reads back to the same slug; and the
    course title is a cleaned text that is not empty. *)
Theorem payload_addresses {host : Host} (pathname : jsstring)
    (doc : Document) (r : ExtractCoursePayloadResult) :
  extractCoursePayload pathname doc = Ok r ->
  slug r = getCourseSlug pathname
  /\ slug r <> []
  /\ ~ In SLASH (slug r)
  /\ courseUrl (p_courseData (payload r))
     = Some (location_origin ++ js "/courses/" ++ slug r ++ js "/")
  /\ getCourseSlug (js "/courses/" ++ slug r ++ js "/") = slug r
  /\ courseTitle (p_courseData (payload r)) = cleanText (d_header_h1 doc)
  /\ courseTitle (p_courseData (payload r)) <> []
  /\ is_clean (courseTitle (p_courseData (payload r))) = true.
Proof.
  intros H. unfold extractCoursePayload in H.
  destruct (truthy (getCourseSlug pathname)) eqn:Es; cbn [negb] in H;
    [|discriminate H].
  destruct (extractCourseData_total doc) as (cd & Hcd & Ht & _).
  rewrite Hcd in H. cbn [bind] in H.
  destruct (truthy (courseTitle cd)) eqn:Et; cbn [negb] in H;
    [|discriminate H].
  injection H as <-. cbn [slug payload p_courseData courseUrl courseTitle].
  apply truthy_true in Es. apply truthy_true in Et.
  assert (~ In SLASH (getCourseSlug pathname)) as Hfree.
  { destruct (getCourseSlug_segment pathname) as [E | Hin];
      [elim (Es E) | exact (@split_on_parts _ _ _ Hin)]. }
  split; [reflexivity|]. split; [exact Es|]. split; [exact Hfree|].
  split.
  { unfold buildCourseUrl. destruct (getCourseSlug pathname);
      [elim Es; reflexivity | reflexivity]. }
  split; [apply getCourseSlug_canonical; [exact Es | exact Hfree | intros []]|].
  split; [exact Ht|]. split; [exact Et|].
  rewrite Ht. apply cleanText_is_clean.
Qed.

Lemma payload_addresses_witness :
  exists r,
    extractCoursePayload (host := sample_host) (js "/courses/demo/lesson/")
      sample_doc = Ok r
    /\ slug r = js "demo"
    /\ courseUrl (p_courseData (payload r))
       = Some (js "https://frontendmasters.com/courses/demo/")
    /\ courseTitle (p_courseData (payload r)) = js "Demo Course".
Proof.
  destruct (extractCoursePayload (host := sample_host)
              (js "/courses/demo/lesson/") sample_doc) as [r|e] eqn:E;
    [|discriminate E].
  exists r. split; [reflexivity|].
  destruct (@payload_addresses sample_host _ _ _ E)
    as (Hs & _ & _ & Hu & _ & Ht & _).
  rewrite Hu, Ht, Hs. repeat split; reflexivity.
Defined.

(** ** What a click leaves behind *)

Lemma request_calls_bounded (env : browser) tab :
  let sent := fst (run env (requestCourseData tab) []) in
  length (filter is_send sent) <= 2 /\ length (filter is_recovery sent) <= 1.
Proof.
  intros sent. subst sent.
  destruct (assertValidCourseTab tab) as [tabId|e] eqn:E.
  - rewrite (run_requestCourseData env tab E). cbv zeta.
    destruct (starts_recovery _).
    + pose proof (recovery_run_shape env tabId) as (_ & H1 & H2).
      cbv zeta in H1, H2. split; [exact H2 | rewrite H1; constructor].
    + cbn. split; lia.
  - unfold requestCourseData. rewrite E. cbn. split; lia.
Qed.

Lemma flat_map_chrome B (f : logged -> list B) sent :
  (forall a, f (LChrome a) = []) -> flat_map f (map LChrome sent) = [].
Proof.
  intros H. induction sent as [|a sent IH]; [reflexivity|].
  cbn [map flat_map]. rewrite H, IH. reflexivity.
Qed.

Ltac project_resources :=
  unfold blobs, revocations, streams, written, closings;
  cbn [flat_map app];
  repeat rewrite flat_map_app;
  rewrite ?flat_map_chrome by reflexivity;
  cbn [flat_map app map].

(** X22. One click asks little of the page: at most two extraction
    requests are sent and at most one recovery, an injection of the
    content script or a reload of the tab, is made. *)
Theorem export_requests_bounded {host : Host}
    (destructuring_message : jsstring) (env : shell) :
  let trace := fst (run_ui env (onExportClick destructuring_message) []) in
  length (filter is_send (requests trace)) <= 2
  /\ length (filter is_recovery (requests trace)) <= 1.
Proof.
  run_export env.
  all: cbn [fst snd]; project; rewrite ?app_nil_r.
  all: try (cbn; split; lia).
  all: match goal with
       | E : run (chrome_view ?v ?p) (requestCourseData ?t) [] = (?sent, _)
         |- _ =>
           pose proof (request_calls_bounded (chrome_view v p) t) as Hb;
           rewrite E in Hb; exact Hb
       end.
Qed.

(** X23. What a click opens and what it releases.  Every blob address
    created for a download is scheduled for revocation 1500 ms later, in
    the same order, whether the download started or failed.  Every
    writable stream that was written in full is closed; a stream whose
    write failed is not closed, and there is at most one such stream. *)
Theorem export_releases_resources {host : Host}
    (destructuring_message : jsstring) (env : shell) :
  let trace := fst (run_ui env (onExportClick destructuring_message) []) in
  revocations trace = map (fun url => (url, 1500%Z)) (blobs trace)
  /\ closings trace = written trace
  /\ (exists open,
        streams trace = written trace ++ open /\ length open <= 1).
Proof.
  run_export env.
  all: cbn [fst snd].
  all: project_resources.
  all: split; [reflexivity|].
  all: split; [reflexivity|].
  all: first [ exists []; split; [reflexivity | cbn; lia]
             | eexists [_]; split; [reflexivity | cbn; lia] ].
Qed.

(** ** From the page to the files *)

Section ListeningFacts.
Context {host : Host}.

Lemma listening_request (env : shell) pathname doc past tab tabId :
  page_listens env pathname doc ->
  assertValidCourseTab tab = Ok tabId ->
  run (chrome_view env past) (requestCourseData tab) []
  = ([ASend tabId], extraction_outcome pathname doc).
Proof.
  intros Hl Ht. rewrite (run_requestCourseData (chrome_view env past) tab Ht).
  cbv zeta.
  assert (chrome_view env past [] (SendMessage tabId REQUEST)
          = inr (handleExtractMessage (Some REQUEST) pathname doc)) as Ha
    by (unfold chrome_view; cbn [map]; apply Hl).
  rewrite Ha. cbn [request_outcome].
  rewrite parse_handled, extraction_is_final. reflexivity.
Qed.

Lemma extraction_outcome_ok pathname doc r :
  extraction_outcome pathname doc = Ok (Some r) ->
  extractCoursePayload pathname doc = Ok r.
Proof.
  unfold extraction_outcome.
  destruct (extractCoursePayload pathname doc); [|discriminate].
  intros [= ->]. reflexivity.
Qed.

End ListeningFacts.

Ltac project_texts_in H :=
  unfold texts, file_names in H;
  cbn [flat_map app] in H;
  repeat rewrite flat_map_app in H;
  rewrite ?flat_map_chrome in H by reflexivity;
  cbn [flat_map app map In] in H.

(** X24. What reaches the files is what the page extracted.  When the
    content script of the page answers the requests, a click sends at most
    one request and makes no recovery; every JSON text it hands to a file
    or a blob is the payload that [extractCoursePayload] returned for the
    page, or the task list built from that payload; and every file name
    it asks for is [<slug>.json] or [<slug>-v2.json] for the slug of that
    result. *)
Theorem export_writes_the_extraction {host : Host}
    (destructuring_message : jsstring) (env : shell)
    (pathname : jsstring) (doc : Document) :
  page_listens env pathname doc ->
  let trace := fst (run_ui env (onExportClick destructuring_message) []) in
  (requests trace = [] \/ exists tabId, requests trace = [ASend tabId])
  /\ (forall text, In text (texts trace) ->
        exists r,
          extractCoursePayload pathname doc = Ok r
          /\ (text = PayloadJson (payload r)
              \/ text
                 = TasksJson (buildV2Payload (Some (received (payload r))))))
  /\ (forall fileName, In fileName (file_names trace) ->
        exists r,
          extractCoursePayload pathname doc = Ok r
          /\ (fileName = slug r ++ js ".json"
              \/ fileName = slug r ++ js "-v2.json")).
Proof.
  intros Hlisten. run_export env.
  all: cbn [fst snd].
  all: try match goal with
           | E : run (chrome_view _ ?p) (requestCourseData ?t) [] = _,
             A : assertValidCourseTab ?t = Ok ?a |- _ =>
               rewrite (@listening_request _ _ _ _ p _ _ Hlisten A) in E;
               injection E as <- E
           end.
  all: split;
         [project; first [left; reflexivity | right; eexists; reflexivity]|].
  all: split; intros x Hx; project_texts_in Hx; split_cases;
         try match goal with
             | E : extraction_outcome _ _ = Ok (Some ?r) |- _ =>
                 exists r; split; [exact (extraction_outcome_ok _ _ E)|]
             end;
         subst; first [left; reflexivity | right; reflexivity].
Qed.

Lemma export_writes_the_extraction_witness :
  let page :=
    listening_page (host := sample_host) (js "/courses/demo/") sample_doc in
  let trace :=
    fst (run_ui (friendly_shell false page)
           (onExportClick []) []) in
  page_listens (host := sample_host) (friendly_shell false page)
    (js "/courses/demo/") sample_doc
  /\ requests trace = [ASend 7]
  /\ file_names trace = [js "demo.json"; js "demo-v2.json"]
  /\ forall text, In text (texts trace) ->
       exists r,
         extractCoursePayload (host := sample_host) (js "/courses/demo/")
           sample_doc = Ok r
         /\ (text = PayloadJson (payload r)
             \/ text
                = TasksJson (buildV2Payload
                               (Some (received (payload r))))).
Proof.
  intros page trace.
  assert (page_listens (host := sample_host) (friendly_shell false page)
            (js "/courses/demo/") sample_doc) as Hl
    by (intros past tabId; reflexivity).
  split; [exact Hl|]. split; [reflexivity|]. split; [reflexivity|].
  exact (proj1 (proj2 (@export_writes_the_extraction sample_host []
                         (friendly_shell false page) (js "/courses/demo/")
                         sample_doc Hl))).
Defined.

(** ** The two checks of the address *)

Lemma getCourseSlug_first_segment slug rest :
  slug <> [] -> ~ In SLASH slug ->
  getCourseSlug (js "/courses/" ++ slug ++ SLASH :: rest) = slug.
Proof.
  intros Hne Hfree. unfold getCourseSlug.
  change (js "/courses/" ++ slug ++ SLASH :: rest)
    with ([] ++ SLASH :: js "courses" ++ SLASH :: slug ++ SLASH :: rest).
  rewrite split_on_app by (intros []).
  rewrite split_on_app by (cbv; intuition discriminate).
  rewrite split_on_app by exact Hfree.
  destruct slug as [|c r]; [elim Hne; reflexivity|]. reflexivity.
Qed.

Lemma separator_free_slash slug :
  forallb (fun c => negb (is_separator c)) slug = true -> ~ In SLASH slug.
Proof.
  induction slug as [|c r IH]; [intros _ []|].
  cbn [forallb]. intros H. apply andb_true_iff in H. destruct H as [Hc Hr].
  intros [-> | Hin]; [discriminate Hc | exact (IH Hr Hin)].
Qed.

(** X25. The popup and the content script check the same address in two
    ways.  They agree when the path is written [/courses/<slug>]: the
    popup accepts the URL, whatever follows the slug, and the content
    script reads the slug back from the path, with or without further
    segments.  They disagree on the case of the letters: the popup accepts
    [/COURSES/...], for which the content script finds no slug and fails
    with the message about the URL format. *)
Theorem address_checks_agree {host : Host} (slug : jsstring) :
  slug <> [] ->
  forallb (fun c => negb (is_separator c)) slug = true ->
  (forall tail, isCoursePageUrl (Some (COURSE_PREFIX ++ slug ++ tail)) = true)
  /\ getCourseSlug (js "/courses/" ++ slug) = slug
  /\ (forall rest,
        getCourseSlug (js "/courses/" ++ slug ++ SLASH :: rest) = slug)
  /\ isCoursePageUrl (Some (js "https://frontendmasters.com/COURSES/demo/"))
     = true
  /\ getCourseSlug (js "/COURSES/demo/") = []
  /\ (forall doc,
        extractCoursePayload (js "/COURSES/demo/") doc = Throw NOT_A_COURSE_URL).
Proof.
  intros Hne Hsep. pose proof (separator_free_slash _ Hsep) as Hfree.
  split; [|split; [|split; [|repeat split; reflexivity]]].
  - intros tail. destruct slug as [|c r]; [elim Hne; reflexivity|].
    cbn [forallb] in Hsep. apply andb_true_iff in Hsep.
    destruct Hsep as [Hc _]. apply negb_true_iff in Hc.
    unfold isCoursePageUrl.
    change (COURSE_PREFIX ++ (c :: r) ++ tail)
      with (COURSE_PREFIX ++ c :: (r ++ tail)).
    apply course_page_accepted; [reflexivity | exact Hc].
  - unfold getCourseSlug.
    change (js "/courses/" ++ slug)
      with ([] ++ SLASH :: js "courses" ++ SLASH :: slug).
    rewrite split_on_app by (intros []).
    rewrite split_on_app by (cbv; intuition discriminate).
    rewrite split_on_free by exact Hfree.
    destruct slug as [|c r]; [elim Hne; reflexivity|]. reflexivity.
  - intros rest. apply getCourseSlug_first_segment; assumption.
Qed.

Lemma address_checks_agree_witness :
  isCoursePageUrl
    (Some (js "https://frontendmasters.com/courses/demo/intro/?t=1")) = true
  /\ getCourseSlug (js "/courses/demo/intro/") = js "demo".
Proof.
  destruct (@address_checks_agree sample_host (js "demo")
              ltac:(discriminate) eq_refl) as (Hurl & _ & Hpath & _).
  split; [exact (Hurl (js "/intro/?t=1")) | exact (Hpath (js "intro/"))].
Defined.
